(** * Leterago backend: category tree and technique catalogue

    A shallow embedding of the Mongoose models and Express controllers of
    the repository, and the properties of them that the specification
    states:

    - [models/Category.js]: slug generation, [validateParent],
      [getFullPath], [getHierarchy], the two [pre('save')] hooks and the
      [pre('remove')] hook;
    - [controllers/categoryController.js]: [createCategory],
      [updateCategory], [deleteCategory];
    - [models/Technique.js]: [addRevision], [duplicate], the [pre('save')]
      hook;
    - [controllers/techniqueController.js]: [createTechnique],
      [updateTechnique], [duplicateTechnique];
    - [middleware/upload.js]: [cleanupOnError], [processUploadedFiles],
      [deleteFile].

    Conventions.

    - A MongoDB collection is a finite map from [ObjectId] to documents;
      an [ObjectId] is its hexadecimal string, so that [_id.toString()] is
      the identity, and the id of a new document is one that the
      collection does not hold.
    - An id that a request supplies is the text of an [ObjectId], which
      Mongoose can cast.  Other texts are covered where [IdText] stands
      for the id: in [getCategoryById] and [getTechniqueById], whose
      catch blocks answer a failed cast on their own, and for the
      category in the body of [createTechnique].  The empty text, which
      is no [ObjectId] either, is covered wherever a body or a query can
      hold it.
    - JavaScript strings are byte strings (the two agree on ASCII text).
    - Requests are served one after the other: a controller runs on the
      state that the previous one left.
    - Of Mongoose and Express the model keeps what the code relies on:
      the schema validators run before the [pre('save')] hooks, which run
      in the order of their declaration; the setters of a path ([trim],
      [lowercase]) run on the value assigned to it and on the value that
      a query filter gives for it; a path of a stored document is
      modified when the value assigned differs from the stored one;
      [res.json] goes through [res.send].
    - The components of a version are natural numbers.  This is what
      [Number], [++] and the conversion back to text compute on texts of
      decimal digits with a value below 2^53, and the statements about
      versions are made for such versions only (see [incremented]).
    - The body of [PUT /api/techniques/:id] is an object made of the keys
      of [Field], each with a value of the type that the schema gives to
      the path.
    - A loop whose termination is not structural carries a fuel argument
      and answers [None] when the fuel runs out; the lemmas of the second
      half show which loops always end within the fuel they are given,
      and which one does not. *)

(** The second part of the development covers the code around those
    functions:

    - [middleware/auth.js]: [authorize], [authorizeMinRole],
      [authorizeOwnerOrAdmin], [rateLimit]; [models/User.js]:
      [hasPermission], [isLocked], [incLoginAttempts],
      [resetLoginAttempts]; [controllers/authController.js]: [login];
    - [controllers/categoryController.js]: [getAllCategories],
      [getCategoryHierarchy], [getCategoryById];
    - [controllers/techniqueController.js]: [getTechniqueById],
      [deleteTechnique], [getTechniquesByCategory], [exportTechniques];
    - [middleware/upload.js]: the disk storage, the three file filters,
      [handleUploadError];
    - [routes/categories.js], [routes/techniques.js]: the role check of
      each route that writes.

    Further conventions.

    - [populate] only decorates a response: the documents are returned as
      they are stored.
    - The query values [page] and [limit] are the numbers that their
      decimal texts denote.
    - What the code takes from outside is a parameter: the clock, the
      random number of a file name, [bcrypt.compare], the test that a
      regular expression denotes. *)

From Stdlib Require Import ZArith NArith Ascii String List Lia.
From Stdlib Require Import DecimalString DecimalNat DecimalN.
From stdpp Require Import gmap strings list sorting infinite relations.

Open Scope string_scope.
Open Scope list_scope.
Open Scope nat_scope.

Set Warnings "-clear-no-such-hyp".

Abbreviation ObjectId := string (only parsing).

(** ** JavaScript primitives used by the code *)

Module JS.

(** [!s] for a value that is [undefined] or a string. *)
Definition falsy (s : option string) : bool :=
  match s with
  | None => true
  | Some "" => true
  | Some _ => false
  end.

Fixpoint trimStart (s : string) : string :=
  match s with
  | String c r => if Ascii.is_space c then trimStart r else s
  | "" => ""
  end.

(** [String.prototype.trim] on ASCII white space. *)
Definition trim (s : string) : string :=
  String.rev (trimStart (String.rev (trimStart s))).

Definition lowerChar (c : ascii) : ascii :=
  let n := nat_of_ascii c in
  if (65 <=? n)%nat && (n <=? 90)%nat then ascii_of_nat (n + 32) else c.

Fixpoint toLowerCase (s : string) : string :=
  match s with
  | String c r => String (lowerChar c) (toLowerCase r)
  | "" => ""
  end.

(** The character class [[a-z0-9]]. *)
Definition isSlugChar (c : ascii) : bool :=
  let n := nat_of_ascii c in
  ((97 <=? n)%nat && (n <=? 122)%nat) || ((48 <=? n)%nat && (n <=? 57)%nat).

(** [s.replace(/[^a-z0-9]+/g, '-')]; [inRun] tells that the previous
    character already belonged to the run being replaced. *)
Fixpoint replaceRuns (inRun : bool) (s : string) : string :=
  match s with
  | "" => ""
  | String c r =>
      if isSlugChar c then String c (replaceRuns false r)
      else if inRun then replaceRuns true r
      else String "-" (replaceRuns true r)
  end.

Definition dropLeadingDash (s : string) : string :=
  match s with
  | String c r => if Ascii.eqb c "-" then r else s
  | "" => ""
  end.

Fixpoint dropTrailingDash (s : string) : string :=
  match s with
  | "" => ""
  | String c r =>
      match r with
      | "" => if Ascii.eqb c "-" then "" else s
      | _ => String c (dropTrailingDash r)
      end
  end.

(** [s.replace(/(^-|-$)+/g, '')]: one dash goes at each end. *)
Definition trimDashes (s : string) : string :=
  dropTrailingDash (dropLeadingDash s).

(** [String(n)] for a non-negative integer. *)
Definition natToString (n : nat) : string :=
  NilEmpty.string_of_uint (Nat.to_uint n).

Fixpoint join (sep : string) (l : list string) : string :=
  match l with
  | [] => ""
  | [x] => x
  | x :: r => x +:+ sep +:+ join sep r
  end.

(** [s.split(c)] for a one-character separator; [cur] is the piece
    being read, reversed. *)
Fixpoint splitGo (sep : ascii) (cur : string) (s : string) : list string :=
  match s with
  | "" => [String.rev cur]
  | String c r =>
      if Ascii.eqb c sep then String.rev cur :: splitGo sep "" r
      else splitGo sep (String c cur) r
  end.

Definition split (sep : ascii) (s : string) : list string := splitGo sep "" s.

(** The numbers that version components range over: a non-negative
    integer or [NaN]. *)
Inductive number := Num (n : N) | NaN.

Definition isDigit (c : ascii) : bool :=
  let n := nat_of_ascii c in (48 <=? n)%nat && (n <=? 57)%nat.

Fixpoint allDigits (s : string) : bool :=
  match s with
  | "" => true
  | String c r => isDigit c && allDigits r
  end.

(** [Number(s)] on the texts that the model covers.  A text made of
    decimal digits is read as the number it writes ([Number('')] is 0),
    which is what JavaScript computes below 2^53; a text that is no
    numeric literal gives [NaN].  JavaScript also reads a sign, an
    exponent, the prefixes [0x], [0o] and [0b], [Infinity] and
    surrounding white space, and it rounds from 2^53 on: on such texts
    this function is not [Number], and the theorems about versions are
    stated for texts of digits with a value below 2^53. *)
Definition Number (s : string) : number :=
  if allDigits s then
    match NilEmpty.uint_of_string s with
    | Some d => Num (N.of_uint d)
    | None => NaN
    end
  else NaN.

(** [x++] stores [x + 1], exactly so for [x + 1] up to 2^53. *)
Definition incr (x : number) : number :=
  match x with
  | Num n => Num (n + 1)
  | NaN => NaN
  end.

Definition numberToString (x : number) : string :=
  match x with
  | Num n => NilEmpty.string_of_uint (N.to_uint n)
  | NaN => "NaN"
  end.

End JS.

(** ** Documents *)

Inductive Role := admin | editor | viewer.

#[global] Instance Role_eq_dec : EqDecision Role.
Proof. solve_decision. Defined.

Record User := mkUser { user_id : ObjectId; role : Role }.

Record Metadata := mkMetadata {
  tactics : list string;
  platforms : list string;
  killChainPhases : list string
}.

Module Category.

Record t := mk {
  name : string;
  slug : string;
  description : string;
  color : string;
  icon : string;
  parentCategory : option ObjectId;
  order : Z;
  isActive : bool;
  metadata : Metadata;
  createdBy : ObjectId;
  createdAt : nat;
  updatedAt : nat
}.

Definition set_slug (s : string) (c : t) : t :=
  mk (name c) s (description c) (color c) (icon c) (parentCategory c)
     (order c) (isActive c) (metadata c) (createdBy c) (createdAt c) (updatedAt c).

Definition set_name (s : string) (c : t) : t :=
  mk s (slug c) (description c) (color c) (icon c) (parentCategory c)
     (order c) (isActive c) (metadata c) (createdBy c) (createdAt c) (updatedAt c).

Definition set_description (s : string) (c : t) : t :=
  mk (name c) (slug c) s (color c) (icon c) (parentCategory c)
     (order c) (isActive c) (metadata c) (createdBy c) (createdAt c) (updatedAt c).

Definition set_color (s : string) (c : t) : t :=
  mk (name c) (slug c) (description c) s (icon c) (parentCategory c)
     (order c) (isActive c) (metadata c) (createdBy c) (createdAt c) (updatedAt c).

Definition set_icon (s : string) (c : t) : t :=
  mk (name c) (slug c) (description c) (color c) s (parentCategory c)
     (order c) (isActive c) (metadata c) (createdBy c) (createdAt c) (updatedAt c).

Definition set_parentCategory (p : option ObjectId) (c : t) : t :=
  mk (name c) (slug c) (description c) (color c) (icon c) p
     (order c) (isActive c) (metadata c) (createdBy c) (createdAt c) (updatedAt c).

Definition set_order (o : Z) (c : t) : t :=
  mk (name c) (slug c) (description c) (color c) (icon c) (parentCategory c)
     o (isActive c) (metadata c) (createdBy c) (createdAt c) (updatedAt c).

Definition set_isActive (b : bool) (c : t) : t :=
  mk (name c) (slug c) (description c) (color c) (icon c) (parentCategory c)
     (order c) b (metadata c) (createdBy c) (createdAt c) (updatedAt c).

Definition set_metadata (m : Metadata) (c : t) : t :=
  mk (name c) (slug c) (description c) (color c) (icon c) (parentCategory c)
     (order c) (isActive c) m (createdBy c) (createdAt c) (updatedAt c).

Definition set_updatedAt (n : nat) (c : t) : t :=
  mk (name c) (slug c) (description c) (color c) (icon c) (parentCategory c)
     (order c) (isActive c) (metadata c) (createdBy c) (createdAt c) n.

End Category.

Abbreviation Categories := (gmap string Category.t) (only parsing).

(** ** [models/Category.js] *)

(** What a rejected promise carries: the [Error] thrown by
    [validateParent], or a Mongoose [ValidationError] with the messages of
    the failed validators. *)
Inductive Exn :=
  | CircularReference
  | ValidationError (errors : list string).

Definition findById {A} (coll : gmap string A) (id : ObjectId) : option (ObjectId * A) :=
  (λ d, (id, d)) <$> coll !! id.

(** *** Schema validators *)

Definition isHexDigit (c : ascii) : bool :=
  let n := nat_of_ascii c in
  ((48 <=? n)%nat && (n <=? 57)%nat) || ((65 <=? n)%nat && (n <=? 70)%nat)
  || ((97 <=? n)%nat && (n <=? 102)%nat).

(** [/^#([A-Fa-f0-9]{6}|[A-Fa-f0-9]{3})$/]; like every Mongoose [match]
    validator it lets the empty string through. *)
Definition colorMatches (s : string) : bool :=
  match s with
  | "" => true
  | String "#" r =>
      forallb isHexDigit (list_ascii_of_string r)
      && ((String.length r =? 6)%nat || (String.length r =? 3)%nat)
  | _ => false
  end.

Definition check (ok : bool) (msg : string) : list string :=
  if ok then [] else [msg].

Definition categoryValidate (c : Category.t) : list string :=
  check (negb (String.eqb (Category.name c) "")) "El nombre de la categoría es requerido"
  ++ check (String.length (Category.name c) <=? 100)%nat "El nombre no puede exceder 100 caracteres"
  ++ check (negb (String.eqb (Category.description c) "")) "La descripción es requerida"
  ++ check (String.length (Category.description c) <=? 500)%nat
       "La descripción no puede exceder 500 caracteres"
  ++ check (colorMatches (Category.color c)) "Debe ser un color hexadecimal válido".

(** *** Slug generation (first [pre('save')] hook) *)

Definition baseSlugOf (name : string) : string :=
  JS.trimDashes (JS.replaceRuns false (JS.toLowerCase name)).

(** [findOne({ slug: slug, _id: { $ne: self } })] finds a document. *)
Definition slugTaken (cats : Categories) (self : ObjectId) (slug : string) : bool :=
  existsb (λ d, bool_decide (Category.slug d.2 = slug) && negb (bool_decide (d.1 = self)))
          (map_to_list cats).

(** The [while] loop of the hook: [slug] is the candidate under test and
    [counter] the suffix of the next one. *)
Fixpoint probeSlug (taken : string → bool) (baseSlug : string)
    (fuel counter : nat) (slug : string) : option string :=
  if taken slug then
    match fuel with
    | O => None
    | S fuel' =>
        probeSlug taken baseSlug fuel' (S counter)
                  (baseSlug +:+ "-" +:+ JS.natToString counter)
    end
  else Some slug.

(** The loop tests at most one candidate more than there are documents
    ([probeSlug_total]), so this fuel is never used up. *)
Definition generateSlug (cats : Categories) (self : ObjectId) (name : string) : string :=
  let baseSlug := baseSlugOf name in
  default baseSlug (probeSlug (slugTaken cats self) baseSlug (size cats) 1 baseSlug).

(** *** [validateParent] *)

(** The [while (current)] loop; [current] is the document last fetched,
    with its [_id]. *)
Fixpoint validateParentLoop (cats : Categories) (fuel : nat)
    (visited : gset string) (current : option (ObjectId * Category.t))
    : option (Exn + bool) :=
  match current with
  | None => Some (inr true)
  | Some (cid, c) =>
      if decide (cid ∈ visited) then Some (inl CircularReference)
      else
        match fuel with
        | O => None
        | S fuel' =>
            validateParentLoop cats fuel' ({[cid]} ∪ visited)
              (match Category.parentCategory c with
               | Some p => findById cats p
               | None => None
               end)
        end
  end.

(** Every turn of the loop adds a stored id to [visited], so [size cats]
    turns are enough ([validateParentLoop_total]). *)
Definition validateParent (cats : Categories) (self : ObjectId) (this : Category.t)
    : Exn + bool :=
  match Category.parentCategory this with
  | None => inr true
  | Some p =>
      default (inr true)
        (validateParentLoop cats (size cats) {[self]} (findById cats p))
  end.

(** *** [getFullPath] *)

(** The [while (current.parentCategory)] loop.  Nothing bounds it: [None]
    stands for a run that has not ended after [fuel] turns. *)
Fixpoint getFullPathLoop (cats : Categories) (fuel : nat)
    (path : list string) (current : Category.t) : option (list string) :=
  match Category.parentCategory current with
  | None => Some path
  | Some p =>
      match fuel with
      | O => None
      | S fuel' =>
          match findById cats p with
          | Some (_, c) => getFullPathLoop cats fuel' (Category.name c :: path) c
          | None => Some path
          end
      end
  end.

Definition getFullPath (cats : Categories) (fuel : nat) (this : Category.t)
    : option string :=
  JS.join " > " <$> getFullPathLoop cats fuel [Category.name this] this.

(** *** [getHierarchy] *)

(** [sort({ order: 1, name: 1 })]. *)
Definition orderNameLe (a b : ObjectId * Category.t) : Prop :=
  (Category.order a.2 < Category.order b.2)%Z
  ∨ (Category.order a.2 = Category.order b.2
     ∧ String.le (Category.name a.2) (Category.name b.2)).

#[global] Instance orderNameLe_dec : RelDecision orderNameLe.
Proof. intros a b. unfold orderNameLe. apply _. Defined.

(** [find({ isActive: true }).sort(...)]. *)
Definition findActiveSorted (cats : Categories) : list (ObjectId * Category.t) :=
  merge_sort orderNameLe (filter (λ d, Category.isActive d.2 = true) (map_to_list cats)).

(** An entry of [categoryMap]: the plain copy of the document and its
    [children] array.  The array holds references to other entries of the
    map; a reference is the key of the entry it points to, so that the
    [push] of the second pass is seen through every alias. *)
Record HNode := mkHNode {
  h_cat : Category.t;
  children : list ObjectId
}.

Definition pushChild (child : ObjectId) (n : HNode) : HNode :=
  mkHNode (h_cat n) (children n ++ [child]).

(** First pass: [categoryMap.set(cat._id.toString(), {..., children: []})]. *)
Definition firstPass (categories : list (ObjectId * Category.t)) : gmap string HNode :=
  foldl (λ m d, <[d.1 := mkHNode d.2 []]> m) ∅ categories.

(** One turn of the second pass, on the pair (map, roots). *)
Definition secondPassStep (st : gmap string HNode * list ObjectId)
    (d : ObjectId * Category.t) : gmap string HNode * list ObjectId :=
  match Category.parentCategory d.2 with
  | Some p =>
      match st.1 !! p with
      | Some _ => (alter (pushChild d.1) p st.1, st.2)
      | None => st
      end
  | None => (st.1, (st.2 ++ [d.1])%list)
  end.

(** The forest returned: the [roots] array and the objects its references
    lead to. *)
Definition getHierarchy (cats : Categories) : gmap string HNode * list ObjectId :=
  let categories := findActiveSorted cats in
  foldl secondPassStep (firstPass categories, []) categories.

(** The tree that serialising a reference prints, down to [depth] levels. *)
#[warnings="-register-all"]
Inductive Tree := Node (id : ObjectId) (cat : Category.t) (subtrees : list Tree).

Fixpoint unfoldNode (heap : gmap string HNode) (depth : nat) (id : ObjectId) : list Tree :=
  match depth with
  | O => []
  | S depth' =>
      match heap !! id with
      | Some n => [Node id (h_cat n) (flat_map (unfoldNode heap depth') (children n))]
      | None => []
      end
  end.

Definition unfoldForest (h : gmap string HNode * list ObjectId) (depth : nat) : list Tree :=
  flat_map (unfoldNode h.1 depth) h.2.

Fixpoint treeIds (t : Tree) : list ObjectId :=
  match t with
  | Node id _ ts => id :: flat_map treeIds ts
  end.

(** *** The hooks run by [save] *)

(** [doc.save()] of a category: the schema validators, then the two
    [pre('save')] hooks in the order of their declaration, then the write.
    [old] is the stored document ([None] when the document is new); a path
    is modified when its value differs from the stored one, and every
    path of a new document is. *)
Definition nameModified (old : option Category.t) (doc : Category.t) : bool :=
  match old with
  | None => true
  | Some o => negb (String.eqb (Category.name o) (Category.name doc))
  end.

Definition parentModified (old : option Category.t) (doc : Category.t) : bool :=
  match old with
  | None => true
  | Some o => negb (bool_decide (Category.parentCategory o = Category.parentCategory doc))
  end.

Definition slugHook (cats : Categories) (self : ObjectId)
    (old : option Category.t) (doc : Category.t) : Category.t :=
  if nameModified old doc
  then Category.set_slug (generateSlug cats self (Category.name doc)) doc
  else doc.

Definition parentHook (cats : Categories) (self : ObjectId)
    (old : option Category.t) (doc : Category.t) : Exn + bool :=
  if parentModified old doc then validateParent cats self doc else inr true.

Definition categorySave (cats : Categories) (now : nat) (self : ObjectId)
    (doc : Category.t) : Exn + (Category.t * Categories) :=
  let old := cats !! self in
  match categoryValidate doc with
  | (_ :: _) as errors => inl (ValidationError errors)
  | [] =>
      let doc1 := slugHook cats self old doc in
      match parentHook cats self old doc1 with
      | inl e => inl e
      | inr _ =>
          let doc2 := Category.set_updatedAt now doc1 in
          inr (doc2, <[self := doc2]> cats)
      end
  end.

(** ** [models/Technique.js] *)

Record Datasource := mkDatasource { ds_name : string; ds_description : string }.

Record Mitigation := mkMitigation { mit_description : string; mit_techniques : list string }.

Record Query := mkQuery { q_platform : string; q_query : string; q_description : string }.

Record Detection := mkDetection { det_description : string; det_queries : list Query }.

Record Reference := mkReference { ref_name : string; ref_url : string; ref_description : string }.

Record KillChainPhase := mkKillChainPhase { killChainName : string; phaseName : string }.

Record Revision := mkRevision {
  rev_version : string;
  rev_changes : string;
  changedBy : option ObjectId;
  changedAt : nat
}.

Module Technique.

Record t := mk {
  name : string;
  mitreid : option string;
  description : string;
  category : option ObjectId;
  fileLocation : option string;
  image : option string;
  tags : list string;
  platforms : list string;
  datasources : list Datasource;
  mitigation : Mitigation;
  detection : Detection;
  references : list Reference;
  tactics : list string;
  killChainPhases : list KillChainPhase;
  revisionHistory : list Revision;
  isActive : bool;
  version : string;
  createdBy : option ObjectId;
  lastModifiedBy : option ObjectId;
  iso27001Reference : option string;
  riskLevel : string;
  status : string;
  createdAt : nat;
  updatedAt : nat
}.

Definition set_name (s : string) (x : t) : t :=
  mk s (mitreid x) (description x) (category x) (fileLocation x) (image x)
     (tags x) (platforms x) (datasources x) (mitigation x) (detection x)
     (references x) (tactics x) (killChainPhases x) (revisionHistory x)
     (isActive x) (version x) (createdBy x) (lastModifiedBy x)
     (iso27001Reference x) (riskLevel x) (status x) (createdAt x) (updatedAt x).

Definition set_mitreid (m : option string) (x : t) : t :=
  mk (name x) m (description x) (category x) (fileLocation x) (image x)
     (tags x) (platforms x) (datasources x) (mitigation x) (detection x)
     (references x) (tactics x) (killChainPhases x) (revisionHistory x)
     (isActive x) (version x) (createdBy x) (lastModifiedBy x)
     (iso27001Reference x) (riskLevel x) (status x) (createdAt x) (updatedAt x).

Definition set_description (s : string) (x : t) : t :=
  mk (name x) (mitreid x) s (category x) (fileLocation x) (image x)
     (tags x) (platforms x) (datasources x) (mitigation x) (detection x)
     (references x) (tactics x) (killChainPhases x) (revisionHistory x)
     (isActive x) (version x) (createdBy x) (lastModifiedBy x)
     (iso27001Reference x) (riskLevel x) (status x) (createdAt x) (updatedAt x).

Definition set_category (c : option ObjectId) (x : t) : t :=
  mk (name x) (mitreid x) (description x) c (fileLocation x) (image x)
     (tags x) (platforms x) (datasources x) (mitigation x) (detection x)
     (references x) (tactics x) (killChainPhases x) (revisionHistory x)
     (isActive x) (version x) (createdBy x) (lastModifiedBy x)
     (iso27001Reference x) (riskLevel x) (status x) (createdAt x) (updatedAt x).

Definition set_fileLocation (f : option string) (x : t) : t :=
  mk (name x) (mitreid x) (description x) (category x) f (image x)
     (tags x) (platforms x) (datasources x) (mitigation x) (detection x)
     (references x) (tactics x) (killChainPhases x) (revisionHistory x)
     (isActive x) (version x) (createdBy x) (lastModifiedBy x)
     (iso27001Reference x) (riskLevel x) (status x) (createdAt x) (updatedAt x).

Definition set_image (i : option string) (x : t) : t :=
  mk (name x) (mitreid x) (description x) (category x) (fileLocation x) i
     (tags x) (platforms x) (datasources x) (mitigation x) (detection x)
     (references x) (tactics x) (killChainPhases x) (revisionHistory x)
     (isActive x) (version x) (createdBy x) (lastModifiedBy x)
     (iso27001Reference x) (riskLevel x) (status x) (createdAt x) (updatedAt x).

Definition set_tags (l : list string) (x : t) : t :=
  mk (name x) (mitreid x) (description x) (category x) (fileLocation x) (image x)
     l (platforms x) (datasources x) (mitigation x) (detection x)
     (references x) (tactics x) (killChainPhases x) (revisionHistory x)
     (isActive x) (version x) (createdBy x) (lastModifiedBy x)
     (iso27001Reference x) (riskLevel x) (status x) (createdAt x) (updatedAt x).

Definition set_platforms (l : list string) (x : t) : t :=
  mk (name x) (mitreid x) (description x) (category x) (fileLocation x) (image x)
     (tags x) l (datasources x) (mitigation x) (detection x)
     (references x) (tactics x) (killChainPhases x) (revisionHistory x)
     (isActive x) (version x) (createdBy x) (lastModifiedBy x)
     (iso27001Reference x) (riskLevel x) (status x) (createdAt x) (updatedAt x).

Definition set_tactics (l : list string) (x : t) : t :=
  mk (name x) (mitreid x) (description x) (category x) (fileLocation x) (image x)
     (tags x) (platforms x) (datasources x) (mitigation x) (detection x)
     (references x) l (killChainPhases x) (revisionHistory x)
     (isActive x) (version x) (createdBy x) (lastModifiedBy x)
     (iso27001Reference x) (riskLevel x) (status x) (createdAt x) (updatedAt x).

Definition set_revisionHistory (h : list Revision) (x : t) : t :=
  mk (name x) (mitreid x) (description x) (category x) (fileLocation x) (image x)
     (tags x) (platforms x) (datasources x) (mitigation x) (detection x)
     (references x) (tactics x) (killChainPhases x) h
     (isActive x) (version x) (createdBy x) (lastModifiedBy x)
     (iso27001Reference x) (riskLevel x) (status x) (createdAt x) (updatedAt x).

Definition set_version (v : string) (x : t) : t :=
  mk (name x) (mitreid x) (description x) (category x) (fileLocation x) (image x)
     (tags x) (platforms x) (datasources x) (mitigation x) (detection x)
     (references x) (tactics x) (killChainPhases x) (revisionHistory x)
     (isActive x) v (createdBy x) (lastModifiedBy x)
     (iso27001Reference x) (riskLevel x) (status x) (createdAt x) (updatedAt x).

Definition set_lastModifiedBy (u : option ObjectId) (x : t) : t :=
  mk (name x) (mitreid x) (description x) (category x) (fileLocation x) (image x)
     (tags x) (platforms x) (datasources x) (mitigation x) (detection x)
     (references x) (tactics x) (killChainPhases x) (revisionHistory x)
     (isActive x) (version x) (createdBy x) u
     (iso27001Reference x) (riskLevel x) (status x) (createdAt x) (updatedAt x).

Definition set_iso27001Reference (r : option string) (x : t) : t :=
  mk (name x) (mitreid x) (description x) (category x) (fileLocation x) (image x)
     (tags x) (platforms x) (datasources x) (mitigation x) (detection x)
     (references x) (tactics x) (killChainPhases x) (revisionHistory x)
     (isActive x) (version x) (createdBy x) (lastModifiedBy x)
     r (riskLevel x) (status x) (createdAt x) (updatedAt x).

Definition set_riskLevel (r : string) (x : t) : t :=
  mk (name x) (mitreid x) (description x) (category x) (fileLocation x) (image x)
     (tags x) (platforms x) (datasources x) (mitigation x) (detection x)
     (references x) (tactics x) (killChainPhases x) (revisionHistory x)
     (isActive x) (version x) (createdBy x) (lastModifiedBy x)
     (iso27001Reference x) r (status x) (createdAt x) (updatedAt x).

Definition set_status (s : string) (x : t) : t :=
  mk (name x) (mitreid x) (description x) (category x) (fileLocation x) (image x)
     (tags x) (platforms x) (datasources x) (mitigation x) (detection x)
     (references x) (tactics x) (killChainPhases x) (revisionHistory x)
     (isActive x) (version x) (createdBy x) (lastModifiedBy x)
     (iso27001Reference x) (riskLevel x) s (createdAt x) (updatedAt x).

Definition set_isActive (b : bool) (x : t) : t :=
  mk (name x) (mitreid x) (description x) (category x) (fileLocation x) (image x)
     (tags x) (platforms x) (datasources x) (mitigation x) (detection x)
     (references x) (tactics x) (killChainPhases x) (revisionHistory x)
     b (version x) (createdBy x) (lastModifiedBy x)
     (iso27001Reference x) (riskLevel x) (status x) (createdAt x) (updatedAt x).

Definition set_timestamps (c u : nat) (x : t) : t :=
  mk (name x) (mitreid x) (description x) (category x) (fileLocation x) (image x)
     (tags x) (platforms x) (datasources x) (mitigation x) (detection x)
     (references x) (tactics x) (killChainPhases x) (revisionHistory x)
     (isActive x) (version x) (createdBy x) (lastModifiedBy x)
     (iso27001Reference x) (riskLevel x) (status x) c u.

End Technique.

Abbreviation Techniques := (gmap string Technique.t) (only parsing).

(** *** [addRevision] *)

(** The version computed by [addRevision]: split on the dots, read every
    piece as a number, make sure there is a second component, add one to
    it, join with dots. *)
Definition nextVersion (version : string) : string :=
  let version := if String.eqb version "" then "1.0" else version in
  let versionParts := map JS.Number (JS.split "." version) in
  let versionParts :=
    if (length versionParts <? 2)%nat then (versionParts ++ [JS.Num 0])%list
    else versionParts in
  let versionParts := alter JS.incr 1%nat versionParts in
  JS.join "." (map JS.numberToString versionParts).

Definition addRevision (now : nat) (changes : string) (userId : option ObjectId)
    (this : Technique.t) : Technique.t :=
  let newVersion := nextVersion (Technique.version this) in
  let entry :=
    mkRevision newVersion
      (if String.eqb changes "" then "Cambios no especificados" else changes)
      userId now in
  let this := Technique.set_revisionHistory (Technique.revisionHistory this ++ [entry]) this in
  let this := Technique.set_version newVersion this in
  match userId with
  | Some _ => Technique.set_lastModifiedBy userId this
  | None => this
  end.

(** *** [duplicate] *)

(** The document built by [new this.constructor({...})]: the paths that
    are not passed take the defaults of the schema. *)
Definition duplicateDoc (this : Technique.t) (userId : option ObjectId) : Technique.t :=
  Technique.mk
    (Technique.name this +:+ " (Copia)")
    None
    (Technique.description this)
    (Technique.category this)
    None
    None
    (Technique.tags this)
    (Technique.platforms this)
    (Technique.datasources this)
    (Technique.mitigation this)
    (Technique.detection this)
    (Technique.references this)
    (Technique.tactics this)
    (Technique.killChainPhases this)
    []
    true
    "1.0"
    userId
    None
    (Technique.iso27001Reference this)
    (Technique.riskLevel this)
    "Draft"
    0 0.

(** *** Validators, [pre('save')] hook and [save] *)

Inductive TechExn :=
  | TValidationError (errors : list string)
  | DuplicateKey
  | TypeError.

Definition techniqueValidate (x : Technique.t) : list string :=
  check (negb (String.eqb (Technique.name x) "")) "El nombre de la técnica es requerido"
  ++ check (String.length (Technique.name x) <=? 500)%nat "El nombre no puede exceder 500 caracteres"
  ++ check (negb (String.eqb (Technique.description x) "")) "La descripción es requerida"
  ++ check (String.length (Technique.description x) <=? 5000)%nat
       "La descripción no puede exceder 5000 caracteres"
  ++ check (bool_decide (Technique.riskLevel x ∈ ["Low"; "Medium"; "High"; "Critical"]))
       ("`" +:+ Technique.riskLevel x +:+ "` is not a valid enum value for path `riskLevel`.")
  ++ check (bool_decide (Technique.status x ∈ ["Draft"; "Review"; "Approved"; "Deprecated"]))
       ("`" +:+ Technique.status x +:+ "` is not a valid enum value for path `status`.").

(** [s.padStart(4, '0')]. *)
Definition padStart4 (s : string) : string :=
  String.concat "" (replicate (4 - String.length s) "0") +:+ s.

(** [generateId] and [modifiedBy] are plain properties of the document
    object, not schema paths: they are set only if a caller assigns them. *)
Definition techniquePreSave (techs : Techniques) (isNew generateId : bool)
    (modifiedBy : option ObjectId) (this : Technique.t) : Technique.t :=
  let this :=
    if JS.falsy (Technique.mitreid this) && isNew && generateId
    then Technique.set_mitreid
           (Some ("TECH-" +:+ padStart4 (JS.natToString (size techs + 1)))) this
    else this in
  match modifiedBy with
  | Some _ => if isNew then this else Technique.set_lastModifiedBy modifiedBy this
  | None => this
  end.

(** The unique sparse index on [mitreid]. *)
Definition mitreidUsed (techs : Techniques) (self : option ObjectId) (m : string) : bool :=
  existsb (λ d, bool_decide (Technique.mitreid d.2 = Some m)
                && negb (bool_decide (Some d.1 = self)))
          (map_to_list techs).

Definition techniqueSave (techs : Techniques) (now : nat) (self : ObjectId)
    (generateId : bool) (modifiedBy : option ObjectId) (doc : Technique.t)
    : TechExn + (Technique.t * Techniques) :=
  let isNew := bool_decide (techs !! self = None) in
  match techniqueValidate doc with
  | (_ :: _) as errors => inl (TValidationError errors)
  | [] =>
      let doc := techniquePreSave techs isNew generateId modifiedBy doc in
      let doc :=
        Technique.set_timestamps (if isNew then now else Technique.createdAt doc) now doc in
      if match Technique.mitreid doc with
         | Some m => mitreidUsed techs (Some self) m
         | None => false
         end
      then inl DuplicateKey
      else inr (doc, <[self := doc]> techs)
  end.

(** The method [duplicate]: build the copy and [save] it as a new
    document. *)
Definition duplicate (techs : Techniques) (now : nat) (this : Technique.t)
    (userId : option ObjectId) : TechExn + (ObjectId * Technique.t * Techniques) :=
  let newId := fresh (dom techs) in
  match techniqueSave techs now newId false None (duplicateDoc this userId) with
  | inl e => inl e
  | inr (saved, techs') => inr (newId, saved, techs')
  end.

(** ** HTTP responses *)

Inductive Payload :=
  | NoPayload
  | Details (details : list string)
  | Dependencies (subcategories techniques : option nat)
  | CategoryPayload (id : ObjectId) (c : Category.t)
  | DeletedCategory (id : ObjectId) (name : string)
  | TechniquePayload (id : ObjectId) (x : Technique.t)
  | UpdatedTechnique (id : ObjectId) (x : Technique.t) (changesCount : nat)
  | DuplicatedTechnique (id : ObjectId) (x : Technique.t) (originalId : ObjectId).

(** [res.status(status).json({ error, message, ... })]; a success body
    has no [error] key. *)
Record Response := mkResponse {
  status : nat;
  error : option string;
  message : option string;
  payload : Payload
}.

Definition failure (status : nat) (error message : string) : Response :=
  mkResponse status (Some error) (Some message) NoPayload.

Record DB := mkDB {
  categories : gmap string Category.t;
  techniques : gmap string Technique.t
}.

(** ** [controllers/categoryController.js] *)

Record MetadataPatch := mkMetadataPatch {
  mp_tactics : option (list string);
  mp_platforms : option (list string);
  mp_killChainPhases : option (list string)
}.

(** [{ ...old, ...patch }]. *)
Definition mergeMetadata (old : Metadata) (patch : MetadataPatch) : Metadata :=
  mkMetadata (default (tactics old) (mp_tactics patch))
             (default (platforms old) (mp_platforms patch))
             (default (killChainPhases old) (mp_killChainPhases patch)).

(** The request body of the category routes.  [None] is a key that is
    absent ([undefined]); for [parentCategory], [Some None] is [null] and
    [Some (Some s)] the string [s]. *)
Record CategoryBody := mkCategoryBody {
  b_name : option string;
  b_description : option string;
  b_color : option string;
  b_icon : option string;
  b_parentCategory : option (option string);
  b_order : option Z;
  b_metadata : option MetadataPatch;
  b_isActive : option bool
}.

(** [x || d] for a string. *)
Definition orElse (x : option string) (d : string) : string :=
  if JS.falsy x then d else default d x.

(** The value of [parentCategory] when it is truthy. *)
Definition truthyRef (p : option (option string)) : option ObjectId :=
  match p with
  | Some (Some s) => if String.eqb s "" then None else Some s
  | _ => None
  end.

Definition createCategory (cats : Categories) (now : nat) (user : User)
    (body : CategoryBody) : Response * Categories :=
  if JS.falsy (b_name body) || JS.falsy (b_description body) then
    (failure 400 "Datos incompletos" "Nombre y descripción son requeridos", cats)
  else
    let parentCategory := truthyRef (b_parentCategory body) in
    if match parentCategory with
       | Some p => bool_decide (findById cats p = None)
       | None => false
       end
    then
      (failure 400 "Categoría padre no encontrada"
               "La categoría padre especificada no existe", cats)
    else
      let categoryData :=
        Category.mk
          (JS.trim (default "" (b_name body)))
          ""
          (JS.trim (default "" (b_description body)))
          (orElse (b_color body) "#3498db")
          (JS.trim (orElse (b_icon body) "folder"))
          parentCategory
          (default 0%Z (b_order body))
          true
          (mergeMetadata (mkMetadata [] [] [])
             (default (mkMetadataPatch None None None) (b_metadata body)))
          (user_id user)
          now now in
      let newId := fresh (dom cats) in
      match categorySave cats now newId categoryData with
      | inr (category, cats') =>
          (mkResponse 201 None (Some "Categoría creada exitosamente")
                      (CategoryPayload newId category), cats')
      | inl (ValidationError errors) =>
          (mkResponse 400 (Some "Error de validación") None (Details errors), cats)
      | inl CircularReference =>
          (failure 500 "Error interno del servidor" "Error al crear la categoría", cats)
      end.

(** The assignments of [updateCategory] that do not touch the parent. *)
Definition applyCategoryPatch (user : User) (body : CategoryBody) (category : Category.t)
    : Category.t :=
  let category :=
    match b_name body with Some s => Category.set_name (JS.trim s) category | None => category end in
  let category :=
    match b_description body with
    | Some s => Category.set_description (JS.trim s) category
    | None => category
    end in
  let category :=
    match b_color body with Some s => Category.set_color s category | None => category end in
  let category :=
    match b_icon body with Some s => Category.set_icon (JS.trim s) category | None => category end in
  let category :=
    match b_order body with Some o => Category.set_order o category | None => category end in
  let category :=
    match b_metadata body with
    | Some m => Category.set_metadata (mergeMetadata (Category.metadata category) m) category
    | None => category
    end in
  match b_isActive body with
  | Some b =>
      if bool_decide (role user = admin) then Category.set_isActive b category else category
  | None => category
  end.

Definition updateCategory (cats : Categories) (now : nat) (user : User)
    (id : ObjectId) (body : CategoryBody) : Response * Categories :=
  match cats !! id with
  | None =>
      (failure 404 "Categoría no encontrada" "La categoría solicitada no existe", cats)
  | Some category =>
      if negb (bool_decide (role user = admin))
         && negb (String.eqb (Category.createdBy category) (user_id user))
      then
        (failure 403 "Sin permisos"
                 "Solo puedes editar categorías que creaste o ser administrador", cats)
      else
        let category := applyCategoryPatch user body category in
        let finish (category : Category.t) : Response * Categories :=
          match categorySave cats now id category with
          | inr (category, cats') =>
              (mkResponse 200 None (Some "Categoría actualizada exitosamente")
                          (CategoryPayload id category), cats')
          | inl CircularReference =>
              (failure 400 "Referencia circular"
                       "No se puede crear una referencia circular en las categorías", cats)
          | inl (ValidationError errors) =>
              (mkResponse 400 (Some "Error de validación") None (Details errors), cats)
          end in
        match b_parentCategory body with
        | None => finish category
        | Some None => finish (Category.set_parentCategory None category)
        | Some (Some s) =>
            if String.eqb s "" then finish (Category.set_parentCategory None category)
            else if bool_decide (findById cats s = None) then
              (failure 400 "Categoría padre no encontrada"
                       "La categoría padre especificada no existe", cats)
            else finish (Category.set_parentCategory (Some s) category)
        end
  end.

(** [countDocuments({ parentCategory: id })] and
    [countDocuments({ category: id })]. *)
Definition countSubcategories (cats : Categories) (id : ObjectId) : nat :=
  length (filter (λ d, Category.parentCategory d.2 = Some id) (map_to_list cats)).

Definition countTechniques (techs : Techniques) (id : ObjectId) : nat :=
  length (filter (λ d, Technique.category d.2 = Some id) (map_to_list techs)).

Definition deleteCategory (db : DB) (user : User) (id : ObjectId) : Response * DB :=
  match categories db !! id with
  | None =>
      (failure 404 "Categoría no encontrada" "La categoría solicitada no existe", db)
  | Some category =>
      if negb (bool_decide (role user = admin)) then
        (failure 403 "Sin permisos"
                 "Solo los administradores pueden eliminar categorías", db)
      else
        let subcategories := countSubcategories (categories db) id in
        let techniques_ := countTechniques (techniques db) id in
        if (0 <? subcategories)%nat then
          (mkResponse 400 (Some "Categoría con dependencias")
             (Some ("No se puede eliminar. Hay " +:+ JS.natToString subcategories
                    +:+ " subcategorías asociadas"))
             (Dependencies (Some subcategories) None), db)
        else if (0 <? techniques_)%nat then
          (mkResponse 400 (Some "Categoría con dependencias")
             (Some ("No se puede eliminar. Hay " +:+ JS.natToString techniques_
                    +:+ " técnicas asociadas"))
             (Dependencies None (Some techniques_)), db)
        else
          (mkResponse 200 None (Some "Categoría eliminada exitosamente")
             (DeletedCategory id (Category.name category)),
           mkDB (delete id (categories db)) (techniques db))
  end.

(** The [pre('remove')] hook of the model: the same two counts, reported
    as an error named [ValidationError]. *)
Definition categoryPreRemove (db : DB) (id : ObjectId) : Exn + unit :=
  if (0 <? countSubcategories (categories db) id)%nat then
    inl (ValidationError ["No se puede eliminar una categoría que tiene subcategorías"])
  else if (0 <? countTechniques (techniques db) id)%nat then
    inl (ValidationError ["No se puede eliminar una categoría que tiene técnicas asociadas"])
  else inr ().

(** ** [middleware/upload.js] *)

Module File.

Record t := mk {
  fieldname : string;
  originalname : string;
  filename : string;
  path : string;
  size : nat;
  mimetype : string
}.

End File.

(** A property that holds either an array of files or one file. *)
Inductive FieldFiles := Many (fs : list File.t) | One (f : File.t).

(** [req.files] as multer leaves it: an array, or an object keyed by
    field name ([uploadMultiple] is a [fields(...)] upload: an object
    whose values are arrays). *)
Inductive Files :=
  | FilesArray (fs : list File.t)
  | FilesObject (fields : list (string * FieldFiles)).

Fixpoint normalizeSlashes (s : string) : string :=
  match s with
  | "" => ""
  | String c r => String (if Ascii.eqb c "\" then "/"%char else c) (normalizeSlashes r)
  end.

(** [processFile]: the same record with the path normalised (the [url]
    is not used by the controllers). *)
Definition processFile (f : File.t) : File.t :=
  File.mk (File.fieldname f) (File.originalname f) (File.filename f)
          (normalizeSlashes (File.path f)) (File.size f) (File.mimetype f).

Definition processUploadedFiles (files : option Files) : option Files :=
  match files with
  | None => None
  | Some (FilesArray fs) => Some (FilesArray (map processFile fs))
  | Some (FilesObject fields) =>
      Some (FilesObject
              (map (λ kv, (kv.1, match kv.2 with
                                 | Many fs => Many (map processFile fs)
                                 | One f => One (processFile f)
                                 end)) fields))
  end.

(** The paths collected by [cleanupOnError] into [filesToDelete]. *)
Definition filesToDelete (files : Files) : list string :=
  match files with
  | FilesArray fs => map File.path fs
  | FilesObject fields =>
      flat_map (λ kv, match kv.2 with
                      | Many fs => map File.path fs
                      | One _ => []
                      end) fields
  end.

(** What the process does to the outside, in order. *)
Inductive Event :=
  | Unlink (filePath : string)
  | Send (r : Response).

(** The [res.send] installed by [cleanupOnError]: on an error status the
    uploaded files are unlinked, then the original [send] runs. *)
Definition cleanupSend (files : option Files) (r : Response) : list Event :=
  (if (400 <=? status r)%nat then
     match files with
     | Some fs => map Unlink (filesToDelete fs)
     | None => []
     end
   else []) ++ [Send r].

(** [deleteFile(filePath)]: nothing happens for a falsy path. *)
Definition deleteFile (filePath : option string) : list Event :=
  if JS.falsy filePath then [] else [Unlink (default "" filePath)].

(** The blob store after a run: [fs.unlink] removes the file; its failure
    on a missing file is logged and swallowed. *)
Definition applyEvent (store : gset string) (e : Event) : gset string :=
  match e with
  | Unlink p => store ∖ {[p]}
  | Send _ => store
  end.

Definition runEvents (store : gset string) (events : list Event) : gset string :=
  foldl applyEvent store events.

(** ** [controllers/techniqueController.js] *)

(** [req.processedFiles.<key>]: a property of an array is [undefined]. *)
Definition processedField (processed : option Files) (key : string) : option FieldFiles :=
  match processed with
  | Some (FilesObject fields) => snd <$> find (λ kv, String.eqb kv.1 key) fields
  | _ => None
  end.

(** [<entry>.path]: an array has no [path]. *)
Definition entryPath (e : FieldFiles) : option string :=
  match e with
  | One f => Some (File.path f)
  | Many _ => None
  end.

(** The clean-up of the [catch] blocks:
    [Object.values(req.processedFiles).forEach(...)]. *)
Definition cleanupProcessed (processed : option Files) : list Event :=
  match processed with
  | None => []
  | Some (FilesArray fs) => flat_map (λ f, deleteFile (Some (File.path f))) fs
  | Some (FilesObject fields) =>
      flat_map (λ kv, match kv.2 with
                      | Many fs => flat_map (λ f, deleteFile (Some (File.path f))) fs
                      | One f => deleteFile (Some (File.path f))
                      end) fields
  end.

(** A text that a client sends where an [ObjectId] is expected, with what
    the cast of Mongoose makes of it: the [ObjectId] that the text writes,
    or nothing, in which case [findById] throws a [CastError] of kind
    'ObjectId'. *)
Inductive IdText :=
  | Castable (id : ObjectId)
  | Uncastable (text : string).

Definition idText (p : IdText) : string :=
  match p with
  | Castable text => text
  | Uncastable text => text
  end.

(** The request body of [POST /api/techniques]; [tags] is an array or a
    comma-separated string, [platforms] and [tactics] an array or one
    string. *)
Record TechniqueBody := mkTechniqueBody {
  tb_name : option string;
  tb_description : option string;
  tb_category : option IdText;
  tb_mitreid : option string;
  tb_tags : option (string + list string);
  tb_platforms : option (string + list string);
  tb_datasources : option (list Datasource);
  tb_mitigation : option Mitigation;
  tb_detection : option Detection;
  tb_references : option (list Reference);
  tb_tactics : option (string + list string);
  tb_killChainPhases : option (list KillChainPhase)
}.

Definition truthyText (x : option (string + list string)) : bool :=
  match x with
  | None => false
  | Some (inl s) => negb (String.eqb s "")
  | Some (inr _) => true
  end.

(** The [tags] setter of the schema: [trim] and [lowercase]. *)
Definition normalizeTag (s : string) : string := JS.toLowerCase (JS.trim s).

Definition bodyTags (x : option (string + list string)) : list string :=
  if truthyText x then
    match x with
    | Some (inr l) => l
    | Some (inl s) => map JS.trim (JS.split "," s)
    | None => []
    end
  else [].

Definition bodyList (x : option (string + list string)) : list string :=
  if truthyText x then
    match x with
    | Some (inr l) => l
    | Some (inl s) => [s]
    | None => []
    end
  else [].

(** What a controller leaves behind: the events up to and including the
    response, and the collections. *)
Record Outcome := mkOutcome {
  events : list Event;
  db' : DB
}.

(** The response, which is the last event of a run. *)
Definition responseOf (o : Outcome) : option Response :=
  match last (events o) with
  | Some (Send r) => Some r
  | _ => None
  end.

(** [createTechnique].  [send] is the [res.send] in force (the one of
    [cleanupOnError] on the route), [processed] is [req.processedFiles].
    The setters of the schema trim [mitreid], [fileLocation] and [image],
    in the document and in the filter of [findOne]. *)
Definition createTechnique (send : Response → list Event) (db : DB) (now : nat)
    (user : User) (processed : option Files) (body : TechniqueBody) : Outcome :=
  if JS.falsy (tb_name body) || JS.falsy (tb_description body)
     || JS.falsy (idText <$> tb_category body)
  then
    mkOutcome (send (failure 400 "Datos incompletos"
                             "Nombre, descripción y categoría son requeridos")) db
  else
    match tb_category body with
    | Some (Castable category) =>
        if bool_decide (findById (categories db) category = None) then
          mkOutcome (send (failure 400 "Categoría no encontrada"
                                   "La categoría especificada no existe")) db
        else if negb (JS.falsy (tb_mitreid body))
                && mitreidUsed (techniques db) None (JS.trim (default "" (tb_mitreid body)))
        then
          mkOutcome (send (failure 400 "MITRE ID duplicado"
                                   "Ya existe una técnica con ese MITRE ID")) db
        else
          let image := processedField processed "image" ≫= entryPath in
          let fileLocation := processedField processed "document" ≫= entryPath in
          let techniqueData :=
            Technique.mk
              (JS.trim (default "" (tb_name body)))
              (JS.trim <$> tb_mitreid body)
              (JS.trim (default "" (tb_description body)))
              (Some category)
              (JS.trim <$> fileLocation)
              (JS.trim <$> image)
              (map normalizeTag (bodyTags (tb_tags body)))
              (map JS.trim (bodyList (tb_platforms body)))
              (default [] (tb_datasources body))
              (default (mkMitigation "" []) (tb_mitigation body))
              (default (mkDetection "" []) (tb_detection body))
              (default [] (tb_references body))
              (bodyList (tb_tactics body))
              (default [] (tb_killChainPhases body))
              []
              true
              "1.0"
              (Some (user_id user))
              None
              None
              "Medium"
              "Draft"
              now now in
          let newId := fresh (dom (techniques db)) in
          match techniqueSave (techniques db) now newId false None techniqueData with
          | inr (technique, techs') =>
              mkOutcome (send (mkResponse 201 None (Some "Técnica creada exitosamente")
                                          (TechniquePayload newId technique)))
                        (mkDB (categories db) techs')
          | inl (TValidationError errors) =>
              mkOutcome (cleanupProcessed processed
                         ++ send (mkResponse 400 (Some "Error de validación") None
                                             (Details errors)))
                        db
          | inl _ =>
              mkOutcome (cleanupProcessed processed
                         ++ send (failure 500 "Error interno del servidor"
                                          "Error al crear la técnica"))
                        db
          end
    | _ =>
        (* [Category.findById(category)] throws the [CastError] *)
        mkOutcome (cleanupProcessed processed
                   ++ send (failure 500 "Error interno del servidor"
                                    "Error al crear la técnica"))
                  db
    end.

(** [req.files] after [uploadMultiple], a [fields(...)] upload: absent when
    the request is not multipart, otherwise an object that maps each field
    name received to the array of its stored files. *)
Definition multerFields (uploads : option (list (string * list File.t))) : option Files :=
  (λ l, FilesObject (map (λ kv, (kv.1, Many kv.2)) l)) <$> uploads.

(** The paths of all the files that multer stored for the request. *)
Definition uploadedPaths (uploads : option (list (string * list File.t))) : list string :=
  match uploads with
  | Some l => flat_map (λ kv, map File.path kv.2) l
  | None => []
  end.

(** The [error] key of the response that ends a run. *)
Definition responseError (o : Outcome) : option string := responseOf o ≫= error.

(** The route [POST /api/techniques] after authentication:
    [cleanupOnError, uploadMultiple, handleUploadError,
    processUploadedFiles, createTechnique], for an upload that multer
    accepted and stored. *)
Definition postTechnique (db : DB) (now : nat) (user : User)
    (uploads : option (list (string * list File.t))) (body : TechniqueBody) : Outcome :=
  let files := multerFields uploads in
  createTechnique (cleanupSend files) db now user (processUploadedFiles files) body.

(** A key of the request body of [PUT /api/techniques/:id] with its
    value.  Arrays come as arrays; [image] and [fileLocation] may hold
    [undefined] ([None]) once the controller has copied a path from
    [req.processedFiles].  [Object.assign] would take any other key of
    the body as well ([version], [revisionHistory], [createdBy], ...):
    bodies with such keys are not covered. *)
Inductive Field :=
  | FName (v : string)
  | FDescription (v : string)
  | FCategory (v : string)
  | FMitreid (v : string)
  | FTags (v : list string)
  | FPlatforms (v : list string)
  | FTactics (v : list string)
  | FStatus (v : string)
  | FRiskLevel (v : string)
  | FIso27001Reference (v : string)
  | FIsActive (v : bool)
  | FImage (v : option string)
  | FFileLocation (v : option string).

Definition fieldKey (f : Field) : string :=
  match f with
  | FName _ => "name"
  | FDescription _ => "description"
  | FCategory _ => "category"
  | FMitreid _ => "mitreid"
  | FTags _ => "tags"
  | FPlatforms _ => "platforms"
  | FTactics _ => "tactics"
  | FStatus _ => "status"
  | FRiskLevel _ => "riskLevel"
  | FIso27001Reference _ => "iso27001Reference"
  | FIsActive _ => "isActive"
  | FImage _ => "image"
  | FFileLocation _ => "fileLocation"
  end.

(** [updateData[key] = value]: an existing key keeps its place. *)
Fixpoint setKey (f : Field) (updateData : list Field) : list Field :=
  match updateData with
  | [] => [f]
  | g :: r => if String.eqb (fieldKey g) (fieldKey f) then f :: r else g :: setKey f r
  end.

Definition lookupCategory (updateData : list Field) : option string :=
  list_find (λ f, fieldKey f = "category") updateData
  ≫= λ kf, match kf.2 with FCategory v => Some v | _ => None end.

Definition lookupMitreid (updateData : list Field) : option string :=
  list_find (λ f, fieldKey f = "mitreid") updateData
  ≫= λ kf, match kf.2 with FMitreid v => Some v | _ => None end.

(** Template-literal rendering of the values compared. *)
Definition showOpt (undefinedOrNull : string) (x : option string) : string :=
  default undefinedOrNull x.

Definition showBool (b : bool) : string := if b then "true" else "false".

Definition showArray (l : list string) : string := JS.join "," l.

Definition changeLine (key old new : string) : string :=
  key +:+ ": " +:+ old +:+ " → " +:+ new.

(** One turn of the [forEach] over [Object.keys(updateData)]: the line
    pushed when [technique[field] !== updateData[field]].  An array is
    never identical to the stored one, nor a string to an [ObjectId]. *)
Definition changeOf (technique : Technique.t) (f : Field) : list string :=
  match f with
  | FName v =>
      if String.eqb (Technique.name technique) v then []
      else [changeLine "name" (Technique.name technique) v]
  | FDescription v =>
      if String.eqb (Technique.description technique) v then []
      else [changeLine "description" (Technique.description technique) v]
  | FCategory v =>
      [changeLine "category" (showOpt "undefined" (Technique.category technique)) v]
  | FMitreid v =>
      if bool_decide (Technique.mitreid technique = Some v) then []
      else [changeLine "mitreid" (showOpt "undefined" (Technique.mitreid technique)) v]
  | FTags v => [changeLine "tags" (showArray (Technique.tags technique)) (showArray v)]
  | FPlatforms v =>
      [changeLine "platforms" (showArray (Technique.platforms technique)) (showArray v)]
  | FTactics v =>
      [changeLine "tactics" (showArray (Technique.tactics technique)) (showArray v)]
  | FStatus v =>
      if String.eqb (Technique.status technique) v then []
      else [changeLine "status" (Technique.status technique) v]
  | FRiskLevel v =>
      if String.eqb (Technique.riskLevel technique) v then []
      else [changeLine "riskLevel" (Technique.riskLevel technique) v]
  | FIso27001Reference v =>
      if bool_decide (Technique.iso27001Reference technique = Some v) then []
      else [changeLine "iso27001Reference"
              (showOpt "undefined" (Technique.iso27001Reference technique)) v]
  | FIsActive v =>
      if Bool.eqb (Technique.isActive technique) v then []
      else [changeLine "isActive" (showBool (Technique.isActive technique)) (showBool v)]
  | FImage v =>
      if bool_decide (is_Some v ∧ Technique.image technique = v) then []
      else [changeLine "image" (showOpt "null" (Technique.image technique))
              (showOpt "undefined" v)]
  | FFileLocation v =>
      if bool_decide (is_Some v ∧ Technique.fileLocation technique = v) then []
      else [changeLine "fileLocation" (showOpt "null" (Technique.fileLocation technique))
              (showOpt "undefined" v)]
  end.

(** One assignment of [Object.assign(technique, updateData)], through the
    setters of the schema.  The empty text cannot be cast to an
    [ObjectId]: the assignment of [category] is then not made, and the
    path is marked invalid (see [updateTechnique]). *)
Definition assignField (technique : Technique.t) (f : Field) : Technique.t :=
  match f with
  | FName v => Technique.set_name (JS.trim v) technique
  | FDescription v => Technique.set_description v technique
  | FCategory v =>
      if String.eqb v "" then technique else Technique.set_category (Some v) technique
  | FMitreid v => Technique.set_mitreid (Some (JS.trim v)) technique
  | FTags v => Technique.set_tags (map normalizeTag v) technique
  | FPlatforms v => Technique.set_platforms (map JS.trim v) technique
  | FTactics v => Technique.set_tactics v technique
  | FStatus v => Technique.set_status v technique
  | FRiskLevel v => Technique.set_riskLevel v technique
  | FIso27001Reference v => Technique.set_iso27001Reference (Some (JS.trim v)) technique
  | FIsActive v => Technique.set_isActive v technique
  | FImage v => Technique.set_image (JS.trim <$> v) technique
  | FFileLocation v => Technique.set_fileLocation (JS.trim <$> v) technique
  end.

Definition serverError (send : Response → list Event) (processed : option Files)
    (db : DB) : Outcome :=
  mkOutcome (cleanupProcessed processed
             ++ send (failure 500 "Error interno del servidor"
                              "Error al actualizar la técnica")) db.

Definition updateTechnique (send : Response → list Event) (db : DB) (now : nat)
    (user : User) (processed : option Files) (id : ObjectId)
    (updateData : list Field) : Outcome :=
  match techniques db !! id with
  | None =>
      mkOutcome (send (failure 404 "Técnica no encontrada"
                               "La técnica solicitada no existe")) db
  | Some technique =>
      let isAdmin := bool_decide (role user = admin) in
      (* [technique.createdBy.toString()] throws when there is no creator *)
      if negb isAdmin && bool_decide (Technique.createdBy technique = None) then
        serverError send processed db
      else if negb isAdmin
              && negb (bool_decide (Technique.createdBy technique = Some (user_id user)))
      then
        mkOutcome (send (failure 403 "Sin permisos"
                                 "Solo puedes editar técnicas que creaste o ser administrador"))
                  db
      else
        let newCategory := lookupCategory updateData in
        (* [technique.category.toString()] throws when there is no category *)
        if negb (JS.falsy newCategory)
           && bool_decide (Technique.category technique = None) then
          serverError send processed db
        else if negb (JS.falsy newCategory)
                && negb (bool_decide (Technique.category technique = newCategory))
                && bool_decide (findById (categories db) (default "" newCategory) = None)
        then
          mkOutcome (send (failure 400 "Categoría no encontrada"
                                   "La nueva categoría especificada no existe")) db
        else
          let newMitreid := lookupMitreid updateData in
          (* the filter of [findOne] goes through the setter of [mitreid] *)
          if negb (JS.falsy newMitreid)
             && negb (bool_decide (Technique.mitreid technique = newMitreid))
             && mitreidUsed (techniques db) (Some id) (JS.trim (default "" newMitreid))
          then
            mkOutcome (send (failure 400 "MITRE ID duplicado"
                                     "Ya existe otra técnica con ese MITRE ID")) db
          else
            let oldImage := Technique.image technique in
            let oldFile := Technique.fileLocation technique in
            let updateData :=
              match processedField processed "image" with
              | Some e => setKey (FImage (entryPath e)) updateData
              | None => updateData
              end in
            let updateData :=
              match processedField processed "document" with
              | Some e => setKey (FFileLocation (entryPath e)) updateData
              | None => updateData
              end in
            let changes := flat_map (changeOf technique) updateData in
            let technique := foldl assignField technique updateData in
            let technique := Technique.set_lastModifiedBy (Some (user_id user)) technique in
            let technique :=
              match changes with
              | [] => technique
              | _ :: _ => addRevision now (JS.join "; " changes) (Some (user_id user)) technique
              end in
            (* [save] rejects a document with a path marked invalid *)
            if bool_decide (newCategory = Some "") then serverError send processed db
            else
            match techniqueSave (techniques db) now id false None technique with
            | inl _ => serverError send processed db
            | inr (technique, techs') =>
                mkOutcome
                  ((match processedField processed "image" with
                    | Some _ => deleteFile oldImage
                    | None => []
                    end)
                   ++ (match processedField processed "document" with
                       | Some _ => deleteFile oldFile
                       | None => []
                       end)
                   ++ send (mkResponse 200 None (Some "Técnica actualizada exitosamente")
                                       (UpdatedTechnique id technique (length changes))))
                  (mkDB (categories db) techs')
            end
  end.

Definition duplicateTechnique (send : Response → list Event) (db : DB) (now : nat)
    (user : User) (id : ObjectId) : Outcome :=
  match techniques db !! id with
  | None =>
      mkOutcome (send (failure 404 "Técnica no encontrada"
                               "La técnica a duplicar no existe")) db
  | Some originalTechnique =>
      match duplicate (techniques db) now originalTechnique (Some (user_id user)) with
      | inr (newId, duplicatedTechnique, techs') =>
          mkOutcome (send (mkResponse 201 None (Some "Técnica duplicada exitosamente")
                                      (DuplicatedTechnique newId duplicatedTechnique id)))
                    (mkDB (categories db) techs')
      | inl _ =>
          mkOutcome (send (failure 500 "Error interno del servidor"
                                   "Error al duplicar la técnica")) db
      end
  end.

(** [res.send] of a route without [cleanupOnError]. *)
Definition plainSend (r : Response) : list Event := [Send r].

(** The route [PUT /api/techniques/:id] after authentication, with the
    same middleware chain as the [POST] route. *)
Definition putTechnique (db : DB) (now : nat) (user : User)
    (uploads : option (list (string * list File.t))) (id : ObjectId)
    (updateData : list Field) : Outcome :=
  let files := multerFields uploads in
  updateTechnique (cleanupSend files) db now user (processUploadedFiles files) id updateData.

(** ** More JavaScript primitives *)

Module JSText.

(** [s.startsWith(p)]. *)
Fixpoint startsWith (p s : string) : bool :=
  match p, s with
  | "", _ => true
  | String a p', String b s' => Ascii.eqb a b && startsWith p' s'
  | String _ _, "" => false
  end.

(** [s.endsWith(p)]. *)
Fixpoint endsWith (p s : string) : bool :=
  String.eqb p s
  || match s with
     | "" => false
     | String _ r => endsWith p r
     end.

(** [s.includes(p)]. *)
Fixpoint includes (p s : string) : bool :=
  startsWith p s
  || match s with
     | "" => false
     | String _ r => includes p r
     end.

End JSText.

(** ** [middleware/auth.js] and [User.hasPermission] *)

(** What a middleware does with a request: [next()], [next(error)], or a
    JSON answer; [more] holds the keys of the body beside [error] and
    [message]. *)
Inductive Verdict :=
  | Next
  | NextError (msg : string)
  | Answer (code : nat) (err msg : string) (more : list (string * string)).

Definition roleName (r : Role) : string :=
  match r with
  | admin => "admin"
  | editor => "editor"
  | viewer => "viewer"
  end.

(** The value of [roleHierarchy[r] || 0] as the comparisons see it: a
    number, or something that compares as [NaN]. *)
Inductive Level := Lvl (n : nat) | LvlNaN.

(** The names that an object literal inherits from [Object.prototype]:
    looking one up yields a function (an object for [__proto__]), which is
    truthy, so that [|| 0] keeps it, and which converts to [NaN]. *)
Definition inheritedKeys : list string :=
  ["constructor"; "hasOwnProperty"; "isPrototypeOf"; "propertyIsEnumerable";
   "toLocaleString"; "toString"; "valueOf"; "__proto__";
   "__defineGetter__"; "__defineSetter__"; "__lookupGetter__"; "__lookupSetter__"].

Definition roleHierarchy (r : string) : Level :=
  if String.eqb r "viewer" then Lvl 1
  else if String.eqb r "editor" then Lvl 2
  else if String.eqb r "admin" then Lvl 3
  else if bool_decide (r ∈ inheritedKeys) then LvlNaN
  else Lvl 0.

(** [a < b] and [a >= b]: false as soon as one side is [NaN]. *)
Definition levelLt (a b : Level) : bool :=
  match a, b with
  | Lvl x, Lvl y => (x <? y)%nat
  | _, _ => false
  end.

Definition levelGe (a b : Level) : bool :=
  match a, b with
  | Lvl x, Lvl y => (y <=? x)%nat
  | _, _ => false
  end.

Definition notAuthenticated : Verdict :=
  Answer 401 "No autenticado" "Debes estar autenticado para acceder a este recurso" [].

(** [authorize(...allowedRoles)]; [user] is [req.user]. *)
Definition authorize (allowedRoles : list string) (user : option User) : Verdict :=
  match user with
  | None => notAuthenticated
  | Some u =>
      if negb (bool_decide (roleName (role u) ∈ allowedRoles)) then
        Answer 403 "Sin permisos suficientes"
          ("Se requiere uno de estos roles: " +:+ JS.join ", " allowedRoles
           +:+ ". Tu rol actual: " +:+ roleName (role u)) []
      else Next
  end.

(** [authorizeMinRole(minimumRole)]. *)
Definition authorizeMinRole (minimumRole : string) (user : option User) : Verdict :=
  match user with
  | None => notAuthenticated
  | Some u =>
      let userLevel := roleHierarchy (roleName (role u)) in
      let requiredLevel := roleHierarchy minimumRole in
      if levelLt userLevel requiredLevel then
        Answer 403 "Permisos insuficientes"
          ("Se requiere rol mínimo: " +:+ minimumRole
           +:+ ". Tu rol actual: " +:+ roleName (role u))
          [("required", minimumRole); ("current", roleName (role u))]
      else Next
  end.

(** The method [hasPermission] of [models/User.js], for a user whose
    role is [this]. *)
Definition hasPermission (this : Role) (requiredRole : string) : bool :=
  levelGe (roleHierarchy (roleName this)) (roleHierarchy requiredRole).

(** [authorizeOwnerOrAdmin(resourceModel)]: [coll] is the collection of
    the model and [createdByOf] reads the path [createdBy] of its
    documents.  The second component is [req.resource]. *)
Definition authorizeOwnerOrAdmin {A} (createdByOf : A → option ObjectId)
    (coll : gmap string A) (user : option User) (resourceId : ObjectId)
    : Verdict * option (ObjectId * A) :=
  match user with
  | None => (notAuthenticated, None)
  | Some u =>
      if bool_decide (role u = admin) then (Next, None)
      else
        match findById coll resourceId with
        | None =>
            (Answer 404 "Recurso no encontrado" "El recurso solicitado no existe" [], None)
        | Some resource =>
            match createdByOf resource.2 with
            | None =>
                (* [resource.createdBy.toString()] throws *)
                (Answer 500 "Error interno de autorización"
                        "Error al verificar permisos del recurso" [], None)
            | Some owner =>
                if negb (String.eqb owner (user_id u)) then
                  (Answer 403 "Sin permisos"
                          "Solo puedes modificar recursos que creaste o ser administrador" [],
                   None)
                else (Next, Some resource)
            end
        end
  end.

(** *** [rateLimit] *)

(** The outcome of the limiter: the request goes on with the headers
    [X-RateLimit-Remaining] and [X-RateLimit-Reset] (in milliseconds), or
    it is answered 429 with [retryAfter] ([None] is [NaN]: there is no
    first timestamp).  The texts of the answer are fixed by [maxRequests]
    and [windowMs]. *)
Inductive RateVerdict :=
  | Allowed (remaining reset : Z)
  | TooMany (retryAfter : option Z).

(** [req.user ? req.user._id.toString() : req.ip]. *)
Definition identifierOf (user : option User) (ip : string) : string :=
  match user with
  | Some u => user_id u
  | None => ip
  end.

(** [Math.ceil(a / 1000)] for an integer [a]. *)
Definition ceilSeconds (a : Z) : Z := (- ((- a) / 1000))%Z.

(** One call of the middleware returned by [rateLimit(maxRequests,
    windowMs)]: [requestCounts] is the [Map] of its closure and [now] the
    value of [Date.now()]. *)
Definition rateLimit (maxRequests windowMs : Z) (requestCounts : gmap string (list Z))
    (identifier : string) (now : Z) : RateVerdict * gmap string (list Z) :=
  let windowStart := (now - windowMs)%Z in
  let requestCounts :=
    match requestCounts !! identifier with
    | Some userRequests =>
        <[identifier := filter (λ timestamp, (windowStart < timestamp)%Z) userRequests]>
          requestCounts
    | None => requestCounts
    end in
  let currentRequests := default [] (requestCounts !! identifier) in
  if (maxRequests <=? Z.of_nat (length currentRequests))%Z then
    (TooMany ((λ first, ceilSeconds (first + windowMs - now)) <$> head currentRequests),
     requestCounts)
  else
    let currentRequests := currentRequests ++ [now] in
    (Allowed (maxRequests - Z.of_nat (length currentRequests)) (now + windowMs),
     <[identifier := currentRequests]> requestCounts).

(** ** The remaining controllers *)

(** A JSON response: a success with its body, or an error. *)
Inductive Reply (A : Type) :=
  | Replied (code : nat) (msg : option string) (body : A)
  | Refused (code : nat) (err msg : string).

Arguments Replied {A} code msg body.
Arguments Refused {A} code err msg.

(** *** [deleteTechnique] *)

Record DeletedTechnique := mkDeletedTechnique {
  dt_id : ObjectId;
  dt_name : string;
  dt_mitreid : option string
}.

(** The files unlinked, the response and the collections left. *)
Definition deleteTechnique (db : DB) (user : User) (id : ObjectId)
    : list Event * Reply DeletedTechnique * DB :=
  match techniques db !! id with
  | None =>
      ([], Refused 404 "Técnica no encontrada" "La técnica solicitada no existe", db)
  | Some technique =>
      let isAdmin := bool_decide (role user = admin) in
      (* [technique.createdBy.toString()] throws when there is no creator *)
      if negb isAdmin && bool_decide (Technique.createdBy technique = None) then
        ([], Refused 500 "Error interno del servidor" "Error al eliminar la técnica", db)
      else if negb isAdmin
              && negb (bool_decide (Technique.createdBy technique = Some (user_id user)))
      then
        ([], Refused 403 "Sin permisos"
                     "Solo puedes eliminar técnicas que creaste o ser administrador", db)
      else
        ((if JS.falsy (Technique.image technique) then []
          else deleteFile (Technique.image technique))
         ++ (if JS.falsy (Technique.fileLocation technique) then []
             else deleteFile (Technique.fileLocation technique)),
         Replied 200 (Some "Técnica eliminada exitosamente")
                 (mkDeletedTechnique id (Technique.name technique)
                                     (Technique.mitreid technique)),
         mkDB (categories db) (delete id (techniques db)))
  end.

(** *** [getTechniqueById] *)

Definition getTechniqueById (db : DB) (id : IdText) : Reply (ObjectId * Technique.t) :=
  match id with
  | Castable id =>
      match findById (techniques db) id with
      | None => Refused 404 "Técnica no encontrada" "La técnica solicitada no existe"
      | Some technique => Replied 200 None technique
      end
  | Uncastable _ =>
      (* the [CastError] of [findById] has the kind 'ObjectId' *)
      Refused 400 "ID inválido" "El ID de técnica proporcionado no es válido"
  end.

(** *** Pagination *)

(** [Math.ceil(total / limit)]: a number, [Infinity] or [NaN]. *)
Inductive PageCount := Pages (n : nat) | InfinitePages | NaNPages.

Definition ceilDiv (total limit : nat) : PageCount :=
  match limit with
  | O => if (total =? 0)%nat then NaNPages else InfinitePages
  | S _ => Pages ((total + limit - 1) / limit)
  end.

(** [page < pages]. *)
Definition pageBelow (page : nat) (pages : PageCount) : bool :=
  match pages with
  | Pages n => (page <? n)%nat
  | InfinitePages => true
  | NaNPages => false
  end.

(** [.skip(skip).limit(limit)] on the sorted result; MongoDB reads a
    limit of 0 as no limit. *)
Definition skipLimit {A} (skip limit : nat) (l : list A) : list A :=
  match limit with
  | O => drop skip l
  | S _ => take limit (drop skip l)
  end.

Record Pagination := mkPagination {
  currentPage : nat;
  totalPages : PageCount;
  totalItems : nat;
  itemsPerPage : nat
}.

(** *** [getTechniquesByCategory] and [exportTechniques] *)

(** [sort({ name: 1 })]. *)
Definition techniqueNameLe (a b : ObjectId * Technique.t) : Prop :=
  String.le (Technique.name a.2) (Technique.name b.2).

#[global] Instance techniqueNameLe_dec : RelDecision techniqueNameLe.
Proof. intros a b. unfold techniqueNameLe. apply _. Defined.

Record CategorySummary := mkCategorySummary {
  cs_id : ObjectId;
  cs_name : string;
  cs_description : string
}.

Record TechniquesOfCategory := mkTechniquesOfCategory {
  tc_category : CategorySummary;
  tc_techniques : list (ObjectId * Technique.t);
  tc_pagination : Pagination
}.

(** The query values [page] and [limit] are the numbers that their
    decimal texts denote; MongoDB rejects a negative [skip], which the
    [catch] block turns into the answer 500. *)
Definition getTechniquesByCategory (db : DB) (categoryId : ObjectId)
    (page limit : option nat) : Reply TechniquesOfCategory :=
  let page := default 1 page in
  let limit := default 20 limit in
  match findById (categories db) categoryId with
  | None => Refused 404 "Categoría no encontrada" "La categoría especificada no existe"
  | Some category =>
      if (page =? 0)%nat && (0 <? limit)%nat then
        Refused 500 "Error interno del servidor" "Error al obtener técnicas de la categoría"
      else
        let skip := (page - 1) * limit in
        let found :=
          merge_sort techniqueNameLe
            (filter (λ d, Technique.category d.2 = Some categoryId
                          ∧ Technique.isActive d.2 = true)
                    (map_to_list (techniques db))) in
        let totalTechniques := length found in
        Replied 200 None
          (mkTechniquesOfCategory
             (mkCategorySummary category.1 (Category.name category.2)
                                (Category.description category.2))
             (skipLimit skip limit found)
             (mkPagination page (ceilDiv totalTechniques limit) totalTechniques limit))
  end.

(** [sort({ mitreid: 1 })]: a document without the path comes first. *)
Definition mitreidLe (a b : ObjectId * Technique.t) : Prop :=
  match Technique.mitreid a.2, Technique.mitreid b.2 with
  | None, _ => True
  | Some _, None => False
  | Some x, Some y => String.le x y
  end.

#[global] Instance mitreidLe_dec : RelDecision mitreidLe.
Proof.
  intros a b. unfold mitreidLe.
  destruct (Technique.mitreid a.2), (Technique.mitreid b.2); apply _.
Defined.

(** One entry of the export; [category] is the name of the populated
    category, [undefined] when the reference does not resolve. *)
Record ExportedTechnique := mkExportedTechnique {
  ex_id : ObjectId;
  ex_name : string;
  ex_mitreid : option string;
  ex_description : string;
  ex_category : option string;
  ex_platforms : list string;
  ex_tactics : list string;
  ex_tags : list string;
  ex_references : list Reference;
  ex_createdAt : nat
}.

Definition exportOne (db : DB) (d : ObjectId * Technique.t) : ExportedTechnique :=
  mkExportedTechnique d.1 (Technique.name d.2) (Technique.mitreid d.2)
    (Technique.description d.2)
    (Technique.category d.2 ≫= λ c, Category.name <$> categories db !! c)
    (Technique.platforms d.2) (Technique.tactics d.2) (Technique.tags d.2)
    (Technique.references d.2) (Technique.createdAt d.2).

Record Export := mkExport {
  exportDate : nat;
  totalCount : nat;
  exported : list ExportedTechnique
}.

(** [now] is the date of the call.  The two headers that a JSON export
    sets are fixed texts. *)
Definition exportTechniques (db : DB) (now : nat) (format categoryId : option string)
    : Reply Export :=
  let format := default "json" format in
  let techniques :=
    merge_sort mitreidLe
      (filter (λ d, Technique.isActive d.2 = true
                    ∧ (JS.falsy categoryId = true ∨ Technique.category d.2 = categoryId))
              (map_to_list (techniques db))) in
  if String.eqb format "json" then
    Replied 200 None (mkExport now (length techniques) (map (exportOne db) techniques))
  else Refused 400 "Formato no soportado" "Solo se soporta el formato JSON actualmente".

(** *** [getAllCategories], [getCategoryHierarchy], [getCategoryById] *)

(** The query string of [GET /api/categories]: every value is absent or
    a string; [page] and [limit] are the numbers that their decimal texts
    denote. *)
Record CategoryQuery := mkCategoryQuery {
  cq_page : option nat;
  cq_limit : option nat;
  cq_search : option string;
  cq_parentCategory : option string;
  cq_includeInactive : option string
}.

Record CategoryList := mkCategoryList {
  cl_categories : list (ObjectId * Category.t);
  cl_pagination : Pagination;
  cl_hasNextPage : bool;
  cl_hasPrevPage : bool
}.

(** The filter on [parentCategory]: the text ['null'] selects the
    categories without parent. *)
Definition parentFilter (parentCategory : option string) (c : Category.t) : bool :=
  if JS.falsy parentCategory then true
  else if bool_decide (parentCategory = Some "null")
       then bool_decide (Category.parentCategory c = None)
       else bool_decide (Category.parentCategory c = parentCategory).

Section listing.

(** MongoDB's [$regex] with option [i]: [regexCompile pattern] is the
    test that the pattern denotes, [None] when the pattern is not a
    regular expression (the query then fails). *)
Variable regexCompile : string → option (string → bool).

Definition getAllCategories (cats : Categories) (q : CategoryQuery) : Reply CategoryList :=
  let page := default 1 (cq_page q) in
  let limit := default 50 (cq_limit q) in
  let serverError :=
    Refused 500 "Error interno del servidor" "Error al obtener las categorías" in
  let activeFilter (c : Category.t) : bool :=
    if JS.falsy (cq_includeInactive q) then Category.isActive c else true in
  let searchFilter : option (Category.t → bool) :=
    if JS.falsy (cq_search q) then Some (λ _, true)
    else
      (λ test (c : Category.t), test (Category.name c) || test (Category.description c))
      <$> regexCompile (default "" (cq_search q)) in
  match searchFilter with
  | None => serverError
  | Some searchFilter =>
      if (page =? 0)%nat && (0 <? limit)%nat then serverError
      else
        let skip := (page - 1) * limit in
        let found :=
          merge_sort orderNameLe
            (filter (λ d, activeFilter d.2 && parentFilter (cq_parentCategory q) d.2
                          && searchFilter d.2 = true)
                    (map_to_list cats)) in
        let totalCategories := length found in
        Replied 200 None
          (mkCategoryList
             (skipLimit skip limit found)
             (mkPagination page (ceilDiv totalCategories limit) totalCategories limit)
             (pageBelow page (ceilDiv totalCategories limit))
             (1 <? page)%nat)
  end.

End listing.

Definition getCategoryHierarchy (cats : Categories)
    : Reply (gmap string HNode * list ObjectId) :=
  Replied 200 (Some "Jerarquía de categorías obtenida exitosamente") (getHierarchy cats).

(** The body of [getCategoryById]: the document with its populated
    virtuals [subcategories] and [techniquesCount], and [fullPath]. *)
Record CategoryDetails := mkCategoryDetails {
  cd_id : ObjectId;
  cd_category : Category.t;
  cd_subcategories : list (ObjectId * Category.t);
  cd_techniquesCount : nat;
  cd_fullPath : string
}.

(** [None] stands for a request that is never answered: the loop of
    [getFullPath] has not ended after [fuel] turns. *)
Definition getCategoryById (db : DB) (fuel : nat) (id : IdText)
    : option (Reply CategoryDetails) :=
  match id with
  | Castable id =>
      match findById (categories db) id with
      | None =>
          Some (Refused 404 "Categoría no encontrada" "La categoría solicitada no existe")
      | Some category =>
          (λ fullPath,
             Replied 200 None
               (mkCategoryDetails category.1 category.2
                  (filter (λ d, Category.parentCategory d.2 = Some id)
                          (map_to_list (categories db)))
                  (countTechniques (techniques db) id)
                  fullPath))
          <$> getFullPath (categories db) fuel category.2
      end
  | Uncastable _ =>
      (* the [CastError] of [findById] has the kind 'ObjectId' *)
      Some (Refused 400 "ID inválido" "El ID de categoría proporcionado no es válido")
  end.

(** ** More of [middleware/upload.js] *)

(** [destination] of the disk storage: the folder for a field name. *)
Definition destination (fieldname : string) : string :=
  if String.eqb fieldname "image" then "uploads/images"
  else if String.eqb fieldname "file" || String.eqb fieldname "document" then "uploads/files"
  else "uploads".

(** The character class [[a-zA-Z0-9.-]]. *)
Definition keptInName (c : ascii) : bool :=
  let n := nat_of_ascii c in
  ((97 <=? n)%nat && (n <=? 122)%nat) || ((65 <=? n)%nat && (n <=? 90)%nat)
  || ((48 <=? n)%nat && (n <=? 57)%nat) || Ascii.eqb c "." || Ascii.eqb c "-".

(** [s.replace(/[^a-zA-Z0-9.-]/g, '_')]. *)
Fixpoint replaceUnsafe (s : string) : string :=
  match s with
  | "" => ""
  | String c r => String (if keptInName c then c else "_"%char) (replaceUnsafe r)
  end.

Definition cleanName (originalname : string) : string :=
  JS.toLowerCase (replaceUnsafe originalname).

(** The name cut at its last dot: what comes before the dot, and the
    rest from the dot on; [None] when there is no dot. *)
Fixpoint splitLastDot (s : string) : option (string * string) :=
  match s with
  | "" => None
  | String c r =>
      match splitLastDot r with
      | Some (pre, ext) => Some (String c pre, ext)
      | None => if Ascii.eqb c "." then Some ("", s) else None
      end
  end.

(** [path.extname] on a name without slash: the part from the last dot
    on, unless that dot opens the name or the name is ['..']. *)
Definition extname (name : string) : string :=
  match splitLastDot name with
  | Some (pre, ext) =>
      if String.eqb pre "" || String.eqb name ".." then "" else ext
  | None => ""
  end.

(** [path.basename(name, ext)] on a name without slash, for an [ext]
    that is empty or a proper suffix of the name. *)
Definition basename (name ext : string) : string :=
  substring 0 (String.length name - String.length ext) name.

(** [filename] of the disk storage; [now] is [Date.now()] and [random]
    the value of [Math.round(Math.random() * 1E9)]. *)
Definition filename (originalname : string) (now random : nat) : string :=
  let cleanName := cleanName originalname in
  let uniqueSuffix := JS.natToString now +:+ "-" +:+ JS.natToString random in
  let extension := extname cleanName in
  let baseName := basename cleanName extension in
  baseName +:+ "-" +:+ uniqueSuffix +:+ extension.

(** A test of the form [/\.(e1|e2|...)$/i]. *)
Definition testExtension (extensions : list string) (name : string) : bool :=
  existsb (λ e, JSText.endsWith ("." +:+ e) (JS.toLowerCase name)) extensions.

(** [cb(null, true)] or [cb(new Error(msg), false)]. *)
Inductive FilterResult := Accept | Reject (msg : string).

Definition imageFilter (file : File.t) : FilterResult :=
  let allowedImageTypes :=
    ["image/jpeg"; "image/jpg"; "image/png"; "image/gif"; "image/webp"] in
  let allowedImageExtensions := ["jpeg"; "jpg"; "png"; "gif"; "webp"] in
  if bool_decide (File.mimetype file ∈ allowedImageTypes)
     && testExtension allowedImageExtensions (File.originalname file)
  then Accept
  else Reject "Solo se permiten archivos de imagen (JPEG, PNG, GIF, WebP)".

Definition documentFilter (file : File.t) : FilterResult :=
  let allowedDocTypes :=
    ["application/pdf"; "application/msword";
     "application/vnd.openxmlformats-officedocument.wordprocessingml.document";
     "text/plain"; "text/markdown"; "application/json"; "text/csv"] in
  let allowedDocExtensions := ["pdf"; "doc"; "docx"; "txt"; "md"; "json"; "csv"] in
  if bool_decide (File.mimetype file ∈ allowedDocTypes)
     && testExtension allowedDocExtensions (File.originalname file)
  then Accept
  else Reject ("Tipo de documento no permitido. "
               +:+ "Formatos permitidos: PDF, DOC, DOCX, TXT, MD, JSON, CSV").

Definition anyFileFilter (file : File.t) : FilterResult :=
  let allowedTypes :=
    ["image/jpeg"; "image/jpg"; "image/png"; "image/gif"; "image/webp";
     "application/pdf"; "application/msword";
     "application/vnd.openxmlformats-officedocument.wordprocessingml.document";
     "text/plain"; "text/markdown"; "application/json"; "text/csv"] in
  let allowedExtensions :=
    ["jpeg"; "jpg"; "png"; "gif"; "webp"; "pdf"; "doc"; "docx"; "txt"; "md"; "json"; "csv"] in
  if bool_decide (File.mimetype file ∈ allowedTypes)
     && testExtension allowedExtensions (File.originalname file)
  then Accept
  else Reject "Tipo de archivo no permitido".

(** The error that reaches [handleUploadError]: a [MulterError] with its
    code, or another [Error]. *)
Inductive UploadError :=
  | MulterError (code msg : string)
  | OtherError (msg : string).

Definition handleUploadError (error : UploadError) : Verdict :=
  match error with
  | MulterError code msg =>
      if String.eqb code "LIMIT_FILE_SIZE" then
        Answer 400 "Archivo muy grande" "El archivo excede el tamaño máximo permitido"
               [("maxSize", "10MB")]
      else if String.eqb code "LIMIT_FILE_COUNT" then
        Answer 400 "Demasiados archivos"
               "Se excedió el número máximo de archivos permitidos" []
      else if String.eqb code "LIMIT_UNEXPECTED_FILE" then
        Answer 400 "Campo de archivo inesperado" "El campo del archivo no está permitido" []
      else Answer 400 "Error de subida" msg []
  | OtherError msg =>
      if JSText.includes "Solo se permiten" msg
         || JSText.includes "Tipo de archivo no permitido" msg
      then Answer 400 "Tipo de archivo no válido" msg []
      else NextError msg
  end.

(** ** [models/User.js] and [login] of [controllers/authController.js] *)

Module Account.

(** A stored user; [password] is the hash, the dates are in
    milliseconds.  A path that has been [$unset] reads as its default. *)
Record t := mk {
  username : string;
  email : string;
  password : string;
  role : Role;
  avatar : option string;
  isActive : bool;
  lastLogin : option Z;
  loginAttempts : nat;
  lockUntil : option Z
}.

End Account.

(** The virtual [isLocked]; [now] is [Date.now()]. *)
Definition isLocked (now : Z) (this : Account.t) : bool :=
  match Account.lockUntil this with
  | Some lockUntil => (now <? lockUntil)%Z
  | None => false
  end.

(** The document that [incLoginAttempts] leaves in the collection. *)
Definition incLoginAttempts (now : Z) (this : Account.t) : Account.t :=
  let expired :=
    match Account.lockUntil this with
    | Some lockUntil => (lockUntil <? now)%Z
    | None => false
    end in
  if expired then
    Account.mk (Account.username this) (Account.email this) (Account.password this)
      (Account.role this) (Account.avatar this) (Account.isActive this)
      (Account.lastLogin this) 0 None
  else
    Account.mk (Account.username this) (Account.email this) (Account.password this)
      (Account.role this) (Account.avatar this) (Account.isActive this)
      (Account.lastLogin this) (Account.loginAttempts this + 1)
      (if (5 <=? Account.loginAttempts this + 1)%nat && negb (isLocked now this)
       then Some (now + 2 * 60 * 60 * 1000)%Z
       else Account.lockUntil this).

Definition resetLoginAttempts (now : Z) (this : Account.t) : Account.t :=
  Account.mk (Account.username this) (Account.email this) (Account.password this)
    (Account.role this) (Account.avatar this) (Account.isActive this)
    (Some now) 0 None.

(** The answers of [login]: the user logged in (the token is signed
    from its id, name, email and role), or an error, which carries
    [lockUntil] when the account is locked. *)
Inductive LoginReply :=
  | LoggedIn (id : ObjectId) (user : Account.t)
  | LoginRefused (code : nat) (err msg : string) (lockUntil : option Z).

(** [User.findOne({ $or: [{ email: key }, { username: key }] })]: the
    first match in the order in which the collection is read. *)
Definition findByEmailOrUsername (users : gmap string Account.t) (key : string)
    : option (ObjectId * Account.t) :=
  snd <$> list_find (λ d, Account.email d.2 = key ∨ Account.username d.2 = key)
                    (map_to_list users).

Section authentication.

(** [bcrypt.compare(candidate, hash)]. *)
Variable comparePassword : string → string → bool.

Definition login (users : gmap string Account.t) (email password : option string) (now : Z)
    : LoginReply * gmap string Account.t :=
  if JS.falsy email || JS.falsy password then
    (LoginRefused 400 "Datos incompletos" "Email y password son requeridos" None, users)
  else
    match findByEmailOrUsername users (JS.toLowerCase (default "" email)) with
    | None =>
        (LoginRefused 401 "Credenciales inválidas"
                      "Email/usuario o contraseña incorrectos" None, users)
    | Some user =>
        if isLocked now user.2 then
          (LoginRefused 423 "Cuenta bloqueada"
             "Tu cuenta está temporalmente bloqueada debido a múltiples intentos fallidos"
             (Account.lockUntil user.2), users)
        else if negb (Account.isActive user.2) then
          (LoginRefused 401 "Cuenta desactivada"
             "Tu cuenta ha sido desactivada. Contacta al administrador" None, users)
        else if negb (comparePassword (default "" password) (Account.password user.2)) then
          (LoginRefused 401 "Credenciales inválidas"
                        "Email/usuario o contraseña incorrectos" None,
           <[user.1 := incLoginAttempts now user.2]> users)
        else
          (LoggedIn user.1 user.2, <[user.1 := resetLoginAttempts now user.2]> users)
    end.

End authentication.

(** ** Vocabulary of the statements *)

(** [parentOf cats a b]: the stored category [a] names [b] as its parent. *)
Definition parentOf (cats : Categories) (a b : ObjectId) : Prop :=
  ∃ c, cats !! a = Some c ∧ Category.parentCategory c = Some b.

(** No category is its own ancestor. *)
Definition acyclic (cats : Categories) : Prop :=
  ∀ a, ¬ tc (parentOf cats) a a.

(** Every parent reference resolves. *)
Definition parentsResolve (cats : Categories) : Prop :=
  ∀ a b, parentOf cats a b → is_Some (cats !! b).

(** The document that the walk of [validateParent] holds after [n] turns,
    and the ids it meets. *)
Definition nextDoc (cats : Categories) (current : option (ObjectId * Category.t))
    : option (ObjectId * Category.t) :=
  current ≫= λ d, Category.parentCategory d.2 ≫= findById cats.

Fixpoint docAt (cats : Categories) (current : option (ObjectId * Category.t)) (n : nat)
    : option (ObjectId * Category.t) :=
  match n with
  | O => current
  | S n' => docAt cats (nextDoc cats current) n'
  end.

Definition walkAt (cats : Categories) (p : ObjectId) (n : nat) : option ObjectId :=
  fst <$> docAt cats (findById cats p) n.

(** The document held by the walk is the stored one. *)
Definition docsResolve (cats : Categories) (current : option (ObjectId * Category.t)) : Prop :=
  ∀ cid c, current = Some (cid, c) → cats !! cid = Some c.

(** The walk from [current] meets an id of [visited], or an id it met
    earlier. *)
Definition revisits (cats : Categories) (visited : gset string)
    (current : option (ObjectId * Category.t)) : Prop :=
  ∃ n x, fst <$> docAt cats current n = Some x
         ∧ (x ∈ visited ∨ ∃ m, m < n ∧ fst <$> docAt cats current m = Some x).

(** The names of the first [k] documents of the walk that starts at
    [current], nearest first. *)
Definition chainNames (cats : Categories) (current : option (ObjectId * Category.t))
    (k : nat) : list string :=
  omap (λ i, (λ d : ObjectId * Category.t, Category.name d.2) <$> docAt cats current i)
       (seq 0 k).

(** The walk from [p] comes back to [self] or to an id it has already
    met. *)
Definition walkRevisits (cats : Categories) (self p : ObjectId) : Prop :=
  ∃ n x, walkAt cats p n = Some x ∧ (x = self ∨ ∃ m, m < n ∧ walkAt cats p m = Some x).

(** The requests that change the category collection. *)
Inductive CategoryOp :=
  | Create (now : nat) (user : User) (body : CategoryBody)
  | Update (now : nat) (user : User) (id : ObjectId) (body : CategoryBody)
  | Delete (user : User) (id : ObjectId).

Definition stepCategory (db : DB) (op : CategoryOp) : DB :=
  match op with
  | Create now user body =>
      mkDB (createCategory (categories db) now user body).2 (techniques db)
  | Update now user id body =>
      mkDB (updateCategory (categories db) now user id body).2 (techniques db)
  | Delete user id => (deleteCategory db user id).2
  end.

Definition runCategoryOps (db : DB) (ops : list CategoryOp) : DB :=
  foldl stepCategory db ops.

(** The candidates of the slug probe: the base slug, then the base slug
    with [-1], [-2], ... *)
Definition slugCandidate (baseSlug : string) (k : nat) : string :=
  match k with
  | O => baseSlug
  | S _ => baseSlug +:+ "-" +:+ JS.natToString k
  end.

(** The shape of a base slug: lower-case letters, digits and dashes, no
    two dashes in a row, no dash at either end. *)
Definition isDash (c : ascii) : bool := Ascii.eqb c "-".

Definition startsWithDash (s : string) : bool :=
  match s with
  | String c _ => isDash c
  | "" => false
  end.

Fixpoint endsWithDash (s : string) : bool :=
  match s with
  | "" => false
  | String c r =>
      match r with
      | "" => isDash c
      | _ => endsWithDash r
      end
  end.

Fixpoint noDashPair (s : string) : bool :=
  match s with
  | "" => true
  | String c r => negb (isDash c && startsWithDash r) && noDashPair r
  end.

Fixpoint slugChars (s : string) : bool :=
  match s with
  | "" => true
  | String c r => (JS.isSlugChar c || isDash c) && slugChars r
  end.

Definition slugShaped (s : string) : bool :=
  slugChars s && noDashPair s && negb (startsWithDash s) && negb (endsWithDash s).

(** The decimal text of a version component. *)
Definition showN (n : N) : string := JS.numberToString (JS.Num n).

(** The dotted-increment rule of the specification, on the versions that
    are written [major.minor] or [major] in decimal digits: [next] has
    the minor component of [version] plus one, a missing minor component
    counting as 0.  The components stay below 2^53, where [Number],
    [++] and the conversion back to text are exact in JavaScript. *)
Definition incremented (version next : string) : Prop :=
  ∃ major minor : N,
    (major < 2 ^ 53)%N ∧ (minor + 1 < 2 ^ 53)%N
    ∧ (version = showN major +:+ "." +:+ showN minor
       ∨ version = showN major ∧ minor = 0%N)
    ∧ next = showN major +:+ "." +:+ showN (minor + 1).

Fixpoint noDot (s : string) : bool :=
  match s with
  | "" => true
  | String c r => negb (Ascii.eqb c ".") && noDot r
  end.

(** The ids that occur in the forest returned by [getHierarchy]. *)
Definition forestIds (h : gmap string HNode * list ObjectId) (depth : nat) : list ObjectId :=
  flat_map treeIds (unfoldForest h depth).

(** The collections that the category requests keep: every parent
    reference resolves and no category is its own ancestor. *)
Definition wellFormed (cats : Categories) : Prop :=
  parentsResolve cats ∧ acyclic cats.

(** No two stored categories share a slug. *)
Definition slugsUnique (cats : Categories) : Prop :=
  ∀ x y cx cy,
    cats !! x = Some cx → cats !! y = Some cy →
    Category.slug cx = Category.slug cy → x = y.

(** The parent assignment of [updateCategory], when it goes through. *)
Definition assignParent (body : CategoryBody) (c : Category.t) : Category.t :=
  match b_parentCategory body with
  | None => c
  | Some p => Category.set_parentCategory (truthyRef (Some p)) c
  end.

(** The document written by an update that carries a new description. *)
Definition redescribed (now : nat) (uid : ObjectId) (d : string) (t : Technique.t)
    : Technique.t :=
  Technique.set_timestamps (Technique.createdAt t) now
    (addRevision now
       (changeLine "description" (Technique.description t) d) (Some uid)
       (Technique.set_lastModifiedBy (Some uid) (Technique.set_description d t))).

(** The first test of [createTechnique]. *)
Definition requiredMissing (body : TechniqueBody) : bool :=
  JS.falsy (tb_name body) || JS.falsy (tb_description body)
  || JS.falsy (idText <$> tb_category body).

(** ** Sample data *)

Definition someUser : User := mkUser "u1" editor.

Definition adminUser : User := mkUser "root" admin.

Definition namedBody (name : string) (parent : option (option string)) : CategoryBody :=
  mkCategoryBody (Some name) (Some "d") None None parent None None None.

Definition reparentBody (parent : option (option string)) : CategoryBody :=
  mkCategoryBody None None None None parent None None None.

Definition plainCategory (name : string) (parent : option ObjectId) : Category.t :=
  Category.mk name (baseSlugOf name) "d" "#3498db" "folder" parent 0 true
              (mkMetadata [] [] []) "u1" 0 0.

(** Two categories created through the API, the second under the first. *)
Definition twoLevels : DB :=
  runCategoryOps (mkDB ∅ ∅)
    [Create 1 someUser (namedBody "Root" None);
     Create 2 someUser (namedBody "Leaf" (Some (Some "0")))].

(** A category named 'a 1', then two categories named 'a'. *)
Definition threeCreations : DB :=
  runCategoryOps (mkDB ∅ ∅)
    [Create 1 someUser (namedBody "a 1" None);
     Create 2 someUser (namedBody "a" None);
     Create 3 someUser (namedBody "a" None)].

(** Two categories that name each other as parent: what two concurrent
    reparentings, each validated against the state before the other was
    written, leave behind. *)
Definition catA : Category.t := plainCategory "A" (Some "b").

Definition catB : Category.t := plainCategory "B" (Some "a").

Definition cyclicStore : gmap string Category.t := <["a" := catA]> (<["b" := catB]> ∅).

(** An active category under a parent that has been switched off, next to
    an ordinary root with one child. *)
Definition withOrphan : gmap string Category.t :=
  <["r" := plainCategory "Root" None]>
  (<["k" := plainCategory "Kid" (Some "r")]>
  (<["p" := Category.set_isActive false (plainCategory "Parked" None)]>
  (<["o" := plainCategory "Orphan" (Some "p")]> ∅))).

(** The end-to-end scenario of the specification: the category 'Initial
    Access' and the technique 'Phishing', T1566, that refers to it. *)
Definition phishing : Technique.t :=
  Technique.mk "Phishing" (Some "T1566") "Spearphishing and friends" (Some "c1")
    None None [] [] [] (mkMitigation "" []) (mkDetection "" []) [] [] [] []
    true "1.0" (Some "u1") None None "Medium" "Draft" 5 5.

Definition catalogue : DB :=
  mkDB {["c1" := plainCategory "Initial Access" None]} {["t1" := phishing]}.

(** 'Phishing' after four revisions, switched off. *)
Definition revisedPhishing : Technique.t :=
  Technique.set_isActive false (Technique.set_version "1.4" phishing).

Definition revisedCatalogue : DB :=
  mkDB (categories catalogue) {["t1" := revisedPhishing]}.

(** The owner, an editor, renames the category, gives it a tactic and
    tries to switch it off. *)
Definition renameAndDisable : CategoryBody :=
  mkCategoryBody (Some " Entry points ") None None None None (Some 3%Z)
                 (Some (mkMetadataPatch (Some ["TA0001"]) None None)) (Some false).

(** Create requests: without a category, with a category that is not
    stored, with a category that is no [ObjectId], and one that reuses
    the reference code of 'Phishing', with spaces around it. *)
Definition noCategoryBody : TechniqueBody :=
  mkTechniqueBody (Some "Phishing") (Some "Spearphishing and friends") None None
                  None None None None None None None None.

Definition unknownCategoryBody : TechniqueBody :=
  mkTechniqueBody (Some "Phishing") (Some "Spearphishing and friends")
                  (Some (Castable "64b7f0c2a1d3e4f5a6b7c8d9")) None
                  None None None None None None None None.

Definition uncastableCategoryBody : TechniqueBody :=
  mkTechniqueBody (Some "Phishing") (Some "Spearphishing and friends")
                  (Some (Uncastable "zz")) (Some "T1566")
                  None None None None None None None None.

Definition spacedPhishing : TechniqueBody :=
  mkTechniqueBody (Some "Phishing again") (Some "Same code") (Some (Castable "c1"))
                  (Some " T1566 ")
                  None None None None None None None None.

Definition screenshot : File.t :=
  File.mk "image" "shot.png" "shot-1.png" "uploads/images/shot-1.png" 1024 "image/png".

(** ** Vocabulary of the further properties *)

(** The order of the roles: viewer, then editor, then admin. *)
Definition roleLe (a b : Role) : bool :=
  match a, b with
  | viewer, _ => true
  | editor, editor => true
  | editor, admin => true
  | admin, admin => true
  | _, _ => false
  end.

(** The routes of [routes/categories.js] and [routes/techniques.js] that
    write, each with the arguments of its controller. *)
Inductive Route :=
  | POST_categories (now : nat) (body : CategoryBody)
  | PUT_categories (now : nat) (id : ObjectId) (body : CategoryBody)
  | DELETE_categories (id : ObjectId)
  | POST_techniques (now : nat) (uploads : option (list (string * list File.t)))
      (body : TechniqueBody)
  | PUT_techniques (now : nat) (uploads : option (list (string * list File.t)))
      (id : ObjectId) (updateData : list Field)
  | POST_techniques_duplicate (now : nat) (id : ObjectId)
  | DELETE_techniques (id : ObjectId).

(** The role check that the route runs after [authenticateToken]. *)
Definition guard (r : Route) : option User → Verdict :=
  match r with
  | DELETE_categories _ => authorize ["admin"]
  | _ => authorizeMinRole "editor"
  end.

(** The collections that the controller of the route leaves. *)
Definition handle (db : DB) (user : User) (r : Route) : DB :=
  match r with
  | POST_categories now body =>
      mkDB (createCategory (categories db) now user body).2 (techniques db)
  | PUT_categories now id body =>
      mkDB (updateCategory (categories db) now user id body).2 (techniques db)
  | DELETE_categories id => (deleteCategory db user id).2
  | POST_techniques now uploads body => db' (postTechnique db now user uploads body)
  | PUT_techniques now uploads id updateData =>
      db' (putTechnique db now user uploads id updateData)
  | POST_techniques_duplicate now id => db' (duplicateTechnique plainSend db now user id)
  | DELETE_techniques id => (deleteTechnique db user id).2
  end.

(** A request through its route: the controller runs when the role check
    hands the request on. *)
Definition serve (db : DB) (rq : option User * Route) : DB :=
  match rq.1, guard rq.2 rq.1 with
  | Some u, Next => handle db u rq.2
  | _, _ => db
  end.

Definition serveAll (db : DB) (rqs : list (option User * Route)) : DB :=
  foldl serve db rqs.

(** Requests that pass through one limiter, each with its identifier and
    the time of its arrival: the counts left and the requests let through. *)
Definition rateStep (maxRequests windowMs : Z)
    (st : gmap string (list Z) * list (string * Z)) (r : string * Z)
    : gmap string (list Z) * list (string * Z) :=
  let out := rateLimit maxRequests windowMs st.1 r.1 r.2 in
  (out.2, match out.1 with
          | Allowed _ _ => st.2 ++ [r]
          | TooMany _ => st.2
          end).

Definition rateRun (maxRequests windowMs : Z) (reqs : list (string * Z))
    : gmap string (list Z) * list (string * Z) :=
  foldl (rateStep maxRequests windowMs) (∅, []) reqs.

(** The requests of [id] let through that arrived after [since]. *)
Definition allowedSince (id : string) (since : Z) (log : list (string * Z))
    : list (string * Z) :=
  filter (λ r, r.1 = id ∧ (since < r.2)%Z) log.

(** Every technique that names a category names a stored one. *)
Definition categoriesResolve (db : DB) : Prop :=
  ∀ x t c,
    techniques db !! x = Some t → Technique.category t = Some c →
    is_Some (categories db !! c).

(** The body of a [PUT /api/techniques/:id], an object, holds each key
    once. *)
Definition keysOnce (r : Route) : Prop :=
  match r with
  | PUT_techniques _ _ _ updateData => NoDup (fieldKey <$> updateData)
  | _ => True
  end.

(** A create request for a second technique of the category 'Initial
    Access'. *)
Definition vishingBody : TechniqueBody :=
  mkTechniqueBody (Some "Vishing") (Some "Voice phishing") (Some (Castable "c1")) None
                  None None None None None None None None.

(** The catalogue with an image attached to 'Phishing'. *)
Definition withImage : DB :=
  mkDB (categories catalogue)
       {["t1" := Technique.set_image (Some "uploads/images/old.png") phishing]}.

(** The query [q] for another page, or with another limit. *)
Definition atPage (q : CategoryQuery) (page : nat) : CategoryQuery :=
  mkCategoryQuery (Some page) (cq_limit q) (cq_search q) (cq_parentCategory q)
                  (cq_includeInactive q).

Definition withLimit (q : CategoryQuery) (limit : nat) : CategoryQuery :=
  mkCategoryQuery (cq_page q) (Some limit) (cq_search q) (cq_parentCategory q)
                  (cq_includeInactive q).

(** The categories of a listing; none when the request failed. *)
Definition listed (r : Reply CategoryList) : list (ObjectId * Category.t) :=
  match r with
  | Replied _ _ b => cl_categories b
  | Refused _ _ _ => []
  end.

(** [x] is stored and active, and so are its ancestors, [k] of them, up
    to one that has no parent. *)
Fixpoint activeAncestors (cats : Categories) (x : ObjectId) (k : nat) : Prop :=
  ∃ c, cats !! x = Some c ∧ Category.isActive c = true
       ∧ match k with
         | O => Category.parentCategory c = None
         | S k' => ∃ p, Category.parentCategory c = Some p ∧ activeAncestors cats p k'
         end.

(** The characters of a stored file name: lower-case letters, digits,
    dot, dash and underscore. *)
Definition isNameChar (c : ascii) : bool :=
  JS.isSlugChar c || Ascii.eqb c "." || Ascii.eqb c "-" || Ascii.eqb c "_".

Fixpoint nameChars (s : string) : bool :=
  match s with
  | "" => true
  | String c r => isNameChar c && nameChars r
  end.

(** The account [u], stored under [id], is the one that logs in with
    [key]: it has [key] as email or user name and no other account
    has. *)
Definition logsInAs (users : gmap string Account.t) (key : string)
    (id : ObjectId) (u : Account.t) : Prop :=
  users !! id = Some u
  ∧ (Account.email u = key ∨ Account.username u = key)
  ∧ ∀ id' u', users !! id' = Some u' →
              Account.email u' = key ∨ Account.username u' = key → id' = id.

Section attempts.

Variable comparePassword : string → string → bool.

(** The collection after logins in a row with the same credentials, at
    the given times. *)
Definition loginsAt (users : gmap string Account.t) (email password : string)
    (times : list Z) : gmap string Account.t :=
  foldl (λ us t, (login comparePassword us (Some email) (Some password) t).2) users times.

End attempts.

Definition alice : Account.t :=
  Account.mk "alice" "alice@example.org" "hash" editor None true None 0 None.

(** The check that accepts the password ['secret'] only. *)
Definition onlySecret (candidate hash : string) : bool := String.eqb candidate "secret".

(** The same account after a lock that ran until the time 100. *)
Definition lockedAlice : Account.t :=
  Account.mk "alice" "alice@example.org" "hash" editor None true None 5 (Some 100%Z).

(** The catalogue after 'Phishing' has been switched off. *)
Definition retired : DB :=
  mkDB (categories catalogue) {["t1" := Technique.set_isActive false phishing]}.

(** * Properties *)

(** ** JavaScript primitives *)

Example trim_example : JS.trim "  Initial Access  " = "Initial Access".
Proof. reflexivity. Qed.

Example baseSlug_example : baseSlugOf "  Initial  Access (v2)! " = "initial-access-v2".
Proof. reflexivity. Qed.

Example split_example : JS.split "." "1.10.3" = ["1"; "10"; "3"].
Proof. reflexivity. Qed.

Example nextVersion_examples :
  nextVersion "1.0" = "1.1" ∧ nextVersion "1.9" = "1.10" ∧ nextVersion "2" = "2.1"
  ∧ nextVersion "" = "1.1" ∧ nextVersion "1.0.3" = "1.1.3".
Proof. repeat split; reflexivity. Qed.

(** ** Identifiers *)

Lemma fresh_id_unused {A} (coll : gmap string A) : coll !! fresh (dom coll) = None.
Proof. apply not_elem_of_dom. apply is_fresh. Qed.

(** ** The walk of [validateParent] *)

Section walk.
Context (cats : gmap string Category.t).

Lemma findById_resolves p : docsResolve cats (findById cats p).
Proof.
  intros cid c. unfold findById. destruct (cats !! p) as [d|] eqn:E; simpl; [|done].
  intros [= <- <-]. done.
Qed.

Lemma nextDoc_resolves current : docsResolve cats (nextDoc cats current).
Proof.
  destruct current as [[cid c]|]; simpl; [|done].
  destruct (Category.parentCategory c) as [p|]; simpl; [|done].
  apply findById_resolves.
Qed.

Lemma docAt_None n : docAt cats None n = None.
Proof. induction n; simpl; auto. Qed.

Lemma revisits_step visited cid c :
  cid ∉ visited →
  revisits cats visited (Some (cid, c))
  ↔ revisits cats ({[cid]} ∪ visited) (nextDoc cats (Some (cid, c))).
Proof.
  intros Hfresh. split.
  - intros (n & x & Hn & Hx). destruct n as [|n].
    + simpl in Hn. injection Hn as <-. destruct Hx as [Hx | (m & Hm & _)]; [done | lia].
    + exists n, x. split; [exact Hn|].
      destruct Hx as [Hx | (m & Hm & Hx)]; [left; set_solver|].
      destruct m as [|m].
      * simpl in Hx. injection Hx as <-. left. set_solver.
      * right. exists m. split; [lia | exact Hx].
  - intros (n & x & Hn & Hx). exists (S n), x. split; [exact Hn|].
    destruct Hx as [Hx | (m & Hm & Hx)].
    + apply elem_of_union in Hx as [Hx | Hx]; [|by left].
      apply elem_of_singleton in Hx as ->. right. exists 0. split; [lia | done].
    + right. exists (S m). split; [lia | exact Hx].
Qed.

(** With one unit of fuel for every stored id not yet visited, the loop
    ends, and it throws exactly when the walk revisits. *)
Lemma validateParentLoop_spec fuel :
  ∀ visited current,
    size (dom cats ∖ visited) ≤ fuel →
    docsResolve cats current →
    ∃ r, validateParentLoop cats fuel visited current = Some r
         ∧ (r = inl CircularReference ∨ r = inr true)
         ∧ (r = inl CircularReference ↔ revisits cats visited current).
Proof.
  induction fuel as [|fuel IH]; intros visited current Hsize Hres.
  - destruct current as [[cid c]|]; simpl.
    + destruct (decide (cid ∈ visited)) as [Hin|Hout].
      * exists (inl CircularReference). split; [done|]. split; [by left|].
        split; [|done]. intros _. exists 0, cid. split; [done | by left].
      * exfalso. assert (cid ∈ dom cats ∖ visited) as Hc.
        { apply elem_of_difference. split; [|done].
          apply elem_of_dom. rewrite (Hres cid c eq_refl). eauto. }
        assert (size (dom cats ∖ visited) ≠ 0) as Hne.
        { intros H0. apply size_empty_inv in H0. set_solver. }
        lia.
    + exists (inr true). split; [done|]. split; [by right|]. split; [done|].
      intros (n & x & Hn & _). by rewrite docAt_None in Hn.
  - destruct current as [[cid c]|]; simpl.
    + destruct (decide (cid ∈ visited)) as [Hin|Hout].
      * exists (inl CircularReference). split; [done|]. split; [by left|].
        split; [|done]. intros _. exists 0, cid. split; [done | by left].
      * assert (cid ∈ dom cats) as Hdom.
        { apply elem_of_dom. rewrite (Hres cid c eq_refl). eauto. }
        destruct (IH ({[cid]} ∪ visited) (nextDoc cats (Some (cid, c))))
          as (r & Hr & Hshape & Hiff).
        { assert (dom cats ∖ ({[cid]} ∪ visited) ⊂ dom cats ∖ visited) as Hsub
            by set_solver.
          apply subset_size in Hsub. lia. }
        { apply nextDoc_resolves. }
        exists r. split; [exact Hr|]. split; [exact Hshape|].
        rewrite Hiff. symmetry. by apply revisits_step.
    + exists (inr true). split; [done|]. split; [by right|]. split; [done|].
      intros (n & x & Hn & _). by rewrite docAt_None in Hn.
Qed.

Lemma validateParentLoop_total self p :
  is_Some (validateParentLoop cats (size cats) {[self]} (findById cats p)).
Proof.
  destruct (validateParentLoop_spec (size cats) {[self]} (findById cats p))
    as (r & Hr & _).
  - rewrite <- size_dom.
    apply subseteq_size. set_solver.
  - apply findById_resolves.
  - rewrite Hr. eauto.
Qed.

Lemma revisits_walkRevisits self p :
  revisits cats {[self]} (findById cats p) ↔ walkRevisits cats self p.
Proof.
  unfold revisits, walkRevisits, walkAt.
  split; intros (n & x & Hn & Hx); exists n, x; (split; [exact Hn|]);
    (destruct Hx as [Hx|Hx]; [left; set_solver | by right]).
Qed.

Lemma validateParent_throws self this :
  validateParent cats self this = inl CircularReference
  ↔ ∃ p, Category.parentCategory this = Some p ∧ walkRevisits cats self p.
Proof.
  unfold validateParent. destruct (Category.parentCategory this) as [p|].
  - destruct (validateParentLoop_spec (size cats) {[self]} (findById cats p))
      as (r & Hr & _ & Hiff).
    + rewrite <- size_dom. apply subseteq_size. set_solver.
    + apply findById_resolves.
    + rewrite Hr. simpl. rewrite Hiff, revisits_walkRevisits.
      split; [intros H; eauto | intros (q & [= <-] & H); exact H].
  - split; [done | intros (q & ? & _); done].
Qed.

Lemma validateParent_cases self this :
  validateParent cats self this = inl CircularReference
  ∨ validateParent cats self this = inr true.
Proof.
  unfold validateParent. destruct (Category.parentCategory this) as [p|]; [|by right].
  destruct (validateParentLoop_spec (size cats) {[self]} (findById cats p))
    as (r & Hr & Hshape & _).
  - rewrite <- size_dom. apply subseteq_size. set_solver.
  - apply findById_resolves.
  - rewrite Hr. simpl. destruct Hshape as [-> | ->]; auto.
Qed.

Lemma docAt_resolves n :
  ∀ current, docsResolve cats current → docsResolve cats (docAt cats current n).
Proof.
  induction n as [|n IH]; intros current Hres; [done|].
  simpl. apply IH, nextDoc_resolves.
Qed.

Lemma docAt_add m :
  ∀ current k, docAt cats current (m + k) = docAt cats (docAt cats current m) k.
Proof. induction m as [|m IH]; intros current k; simpl; [done|]. apply IH. Qed.

(** Later documents of a walk are ancestors of earlier ones. *)
Lemma docAt_tc k :
  ∀ x c y c',
    cats !! x = Some c →
    docAt cats (Some (x, c)) (S k) = Some (y, c') →
    tc (parentOf cats) x y.
Proof.
  induction k as [|k IH]; intros x c y c' Hx Hy.
  - simpl in Hy. destruct (Category.parentCategory c) as [p|] eqn:Hp; [|done].
    simpl in Hy. apply tc_once. exists c. split; [done|].
    unfold findById in Hy. destruct (cats !! p); simpl in Hy; [|done].
    injection Hy as -> _. done.
  - change (docAt cats (Some (x, c)) (S (S k)))
      with (docAt cats (nextDoc cats (Some (x, c))) (S k)) in Hy.
    destruct (nextDoc cats (Some (x, c))) as [[z cz]|] eqn:Hnext.
    2:{ by rewrite docAt_None in Hy. }
    assert (cats !! z = Some cz) as Hz.
    { apply (nextDoc_resolves (Some (x, c))). exact Hnext. }
    eapply tc_l; [|eapply IH; eauto].
    simpl in Hnext. destruct (Category.parentCategory c) as [p|] eqn:Hp; [|done].
    simpl in Hnext. unfold findById in Hnext.
    destruct (cats !! p); simpl in Hnext; [|done]. injection Hnext as -> _.
    exists c. done.
Qed.

(** On an acyclic collection the walk of a document that is not stored
    yet never revisits. *)
Lemma validateParent_new_document self this :
  acyclic cats → cats !! self = None →
  validateParent cats self this = inr true.
Proof.
  intros Hacyc Hself.
  destruct (validateParent_cases self this) as [Hthrow|Hok]; [|done].
  apply validateParent_throws in Hthrow as (p & _ & n & x & Hn & Hx). exfalso.
  unfold walkAt in Hn.
  destruct (docAt cats (findById cats p) n) as [[x' cn]|] eqn:Hdn; [|done].
  simpl in Hn. injection Hn as ->.
  assert (cats !! x = Some cn) as Hxs.
  { apply (docAt_resolves n (findById cats p)); [apply findById_resolves | done]. }
  destruct Hx as [-> | (m & Hm & Hxm)]; [congruence|].
  unfold walkAt in Hxm.
  destruct (docAt cats (findById cats p) m) as [[x' cm]|] eqn:Hdm; [|done].
  simpl in Hxm. injection Hxm as ->.
  assert (cats !! x = Some cm) as Hxm
    by (apply (docAt_resolves m (findById cats p)); [apply findById_resolves | done]).
  apply (Hacyc x). replace n with (m + S (n - m - 1)) in Hdn by lia.
  rewrite docAt_add, Hdm in Hdn. eapply docAt_tc; eauto.
Qed.

End walk.

(** ** The parent relation under insertion and deletion *)

Lemma tc_mono {A} (R1 R2 : relation A) x y :
  (∀ a b, R1 a b → R2 a b) → tc R1 x y → tc R2 x y.
Proof.
  intros Hsub. induction 1 as [a b H|a b c H _ IH].
  - apply tc_once. auto.
  - eapply tc_l; eauto.
Qed.

Section insertion.
Context (cats : gmap string Category.t) (self : ObjectId) (doc : Category.t).

Lemma parentOf_insert x y :
  parentOf (<[self := doc]> cats) x y
  ↔ (x = self ∧ Category.parentCategory doc = Some y) ∨ (x ≠ self ∧ parentOf cats x y).
Proof.
  unfold parentOf. destruct (decide (x = self)) as [->|Hne].
  - rewrite lookup_insert_eq. split.
    + intros (c & [= <-] & Hp). by left.
    + intros [[_ Hp] | [Hne _]]; [eauto | done].
  - rewrite lookup_insert_ne by done. split.
    + intros H. by right.
    + intros [[Heq _] | [_ H]]; [done | exact H].
Qed.

(** A path of the new store, cut where it first leaves [self], is a path
    of the old one. *)
Lemma rtc_insert_back x y :
  rtc (parentOf (<[self := doc]> cats)) x y →
  rtc (parentOf cats) x y ∨ rtc (parentOf cats) x self.
Proof.
  induction 1 as [x|x z y Hstep _ IH].
  - left. constructor.
  - apply parentOf_insert in Hstep as [[-> _] | [_ Hold]].
    + right. constructor.
    + destruct IH as [IH|IH]; [left | right]; eapply rtc_l; eauto.
Qed.

Lemma tc_insert_split x y :
  tc (parentOf (<[self := doc]> cats)) x y →
  tc (parentOf cats) x y
  ∨ (rtc (parentOf (<[self := doc]> cats)) x self
     ∧ tc (parentOf (<[self := doc]> cats)) self y).
Proof.
  induction 1 as [x y Hstep|x z y Hstep Htc IH].
  - pose proof Hstep as Hnew.
    apply parentOf_insert in Hstep as [[-> _] | [_ Hold]].
    + right. split; [constructor | by apply tc_once].
    + left. by apply tc_once.
  - pose proof Hstep as Hnew.
    apply parentOf_insert in Hstep as [[-> _] | [_ Hold]].
    + right. split; [constructor | eapply tc_l; eauto].
    + destruct IH as [IH | [Hto Hfrom]].
      * left. eapply tc_l; eauto.
      * right. split; [eapply rtc_l; eauto | exact Hfrom].
Qed.

(** Writing [doc] under [self] keeps the store acyclic as soon as [self]
    is not reachable from the parent that [doc] names. *)
Lemma acyclic_insert :
  acyclic cats →
  (∀ p, Category.parentCategory doc = Some p → ¬ rtc (parentOf cats) p self) →
  acyclic (<[self := doc]> cats).
Proof.
  intros Hacyc Hsafe a Hloop.
  apply tc_insert_split in Hloop as [Hold | [Hto Hfrom]].
  - by apply (Hacyc a).
  - assert (tc (parentOf (<[self := doc]> cats)) self self) as Hself
      by (eapply tc_rtc_r; eauto).
    clear Hto Hfrom.
    assert (∃ p, Category.parentCategory doc = Some p
                 ∧ rtc (parentOf (<[self := doc]> cats)) p self) as (p & Hp & Hback).
    { inversion Hself as [? ? Hstep|? z ? Hstep Hrest]; subst.
      - apply parentOf_insert in Hstep as [[_ Hp] | [Hne _]]; [|done].
        exists self. split; [exact Hp | constructor].
      - apply parentOf_insert in Hstep as [[_ Hp] | [Hne _]]; [|done].
        exists z. split; [exact Hp | by apply tc_rtc]. }
    apply (Hsafe p Hp).
    by destruct (rtc_insert_back _ _ Hback).
Qed.

Lemma parentsResolve_insert :
  parentsResolve cats →
  (∀ p, Category.parentCategory doc = Some p → is_Some (cats !! p)) →
  parentsResolve (<[self := doc]> cats).
Proof.
  intros Hres Hdoc a b Hab.
  assert (is_Some (cats !! b)) as [c Hc].
  { apply parentOf_insert in Hab as [[_ Hp] | [_ Hold]]; eauto. }
  destruct (decide (b = self)) as [->|Hne].
  - rewrite lookup_insert_eq. eauto.
  - rewrite lookup_insert_ne by done. eauto.
Qed.

End insertion.

Section reachability.
Context (cats : gmap string Category.t).

Lemma rtc_parentOf_stored p x :
  parentsResolve cats → is_Some (cats !! p) →
  rtc (parentOf cats) p x → is_Some (cats !! x).
Proof.
  intros Hres Hp Hrtc. induction Hrtc as [|a b c Hab _ IH]; [done|].
  apply IH. eapply Hres; eauto.
Qed.

(** A stored id reachable from [p] is met by the walk from [p]. *)
Lemma rtc_parentOf_walkAt p x :
  rtc (parentOf cats) p x → is_Some (cats !! x) →
  ∃ n, walkAt cats p n = Some x.
Proof.
  induction 1 as [a|a b c Hab Hbc IH]; intros Hx.
  - exists 0. unfold walkAt, findById. simpl. destruct Hx as [d ->]. done.
  - destruct (IH Hx) as (n & Hn). exists (S n).
    destruct Hab as (ca & Ha & Hpa).
    unfold walkAt in *. simpl. unfold findById at 1. rewrite Ha. simpl.
    rewrite Hpa. simpl. exact Hn.
Qed.

Lemma validateParent_safe self this p :
  validateParent cats self this = inr true →
  Category.parentCategory this = Some p →
  is_Some (cats !! self) →
  ¬ rtc (parentOf cats) p self.
Proof.
  intros Hok Hp Hself Hrtc.
  destruct (rtc_parentOf_walkAt _ _ Hrtc Hself) as (n & Hn).
  assert (validateParent cats self this = inl CircularReference) as Hthrow.
  { apply validateParent_throws. exists p. split; [exact Hp|].
    exists n, self. split; [exact Hn | by left]. }
  congruence.
Qed.

Lemma countSubcategories_zero id :
  countSubcategories cats id = 0 → ∀ x, ¬ parentOf cats x id.
Proof.
  unfold countSubcategories. intros Hlen x (c & Hx & Hp).
  apply length_zero_iff_nil in Hlen.
  assert ((x, c) ∈ filter (λ d : string * Category.t, Category.parentCategory d.2 = Some id)
                     (map_to_list cats)) as Hin.
  { apply list_elem_of_filter. split; [exact Hp|]. by apply elem_of_map_to_list. }
  rewrite Hlen in Hin. by apply not_elem_of_nil in Hin.
Qed.

Lemma parentOf_delete id x y :
  parentOf (delete id cats) x y → parentOf cats x y ∧ x ≠ id.
Proof.
  intros (c & Hx & Hp). apply lookup_delete_Some in Hx as [Hne Hx].
  split; [exists c; eauto | done].
Qed.

Lemma acyclic_delete id : acyclic cats → acyclic (delete id cats).
Proof.
  intros Hacyc a Hloop. apply (Hacyc a).
  eapply tc_mono; [|exact Hloop]. intros u v Huv.
  by apply parentOf_delete in Huv as [? _].
Qed.

Lemma parentsResolve_delete id :
  parentsResolve cats → (∀ x, ¬ parentOf cats x id) →
  parentsResolve (delete id cats).
Proof.
  intros Hres Hleaf a b Hab. apply parentOf_delete in Hab as [Hab _].
  destruct (decide (b = id)) as [->|Hne]; [by destruct (Hleaf a)|].
  rewrite lookup_delete_ne by done. eauto.
Qed.

End reachability.

(** ** [save] of a category *)

Lemma slugHook_parent cats self old doc :
  Category.parentCategory (slugHook cats self old doc) = Category.parentCategory doc.
Proof. unfold slugHook. by destruct (nameModified old doc). Qed.

Lemma validateParent_parent cats self a b :
  Category.parentCategory a = Category.parentCategory b →
  validateParent cats self a = validateParent cats self b.
Proof. unfold validateParent. by intros ->. Qed.

Lemma parentModified_parent old a b :
  Category.parentCategory a = Category.parentCategory b →
  parentModified old a = parentModified old b.
Proof. unfold parentModified. by intros ->. Qed.

(** A document that fails a validator is rejected with the messages of
    all the validators that failed. *)
Lemma categorySave_invalid cats now self doc :
  categoryValidate doc ≠ [] →
  categorySave cats now self doc = inl (ValidationError (categoryValidate doc)).
Proof. unfold categorySave. by destruct (categoryValidate doc). Qed.

Lemma categorySave_inr cats now self doc d cats' :
  categorySave cats now self doc = inr (d, cats') →
  categoryValidate doc = []
  ∧ d = Category.set_updatedAt now (slugHook cats self (cats !! self) doc)
  ∧ cats' = <[self := d]> cats
  ∧ (parentModified (cats !! self) doc = true → validateParent cats self doc = inr true).
Proof.
  unfold categorySave. destruct (categoryValidate doc) as [|e es]; [|done].
  unfold parentHook.
  rewrite (parentModified_parent _ _ doc) by apply slugHook_parent.
  rewrite (validateParent_parent _ _ _ doc) by apply slugHook_parent.
  destruct (parentModified (cats !! self) doc) eqn:Hmod.
  - destruct (validateParent_cases cats self doc) as [-> | Hok]; [done|].
    rewrite Hok. intros [= <- <-]. done.
  - intros [= <- <-]. done.
Qed.

Lemma categorySave_ok cats now self doc :
  categoryValidate doc = [] →
  (parentModified (cats !! self) doc = true → validateParent cats self doc = inr true) →
  let d := Category.set_updatedAt now (slugHook cats self (cats !! self) doc) in
  categorySave cats now self doc = inr (d, <[self := d]> cats).
Proof.
  intros Hval Hpar. unfold categorySave. rewrite Hval. unfold parentHook.
  rewrite (parentModified_parent _ _ doc) by apply slugHook_parent.
  rewrite (validateParent_parent _ _ _ doc) by apply slugHook_parent.
  destruct (parentModified (cats !! self) doc); [|done].
  by rewrite Hpar.
Qed.

(** A rejected parent assignment makes [save] fail with the error of
    [validateParent]. *)
Lemma categorySave_circular cats now self doc :
  categoryValidate doc = [] →
  parentModified (cats !! self) doc = true →
  validateParent cats self doc = inl CircularReference →
  categorySave cats now self doc = inl CircularReference.
Proof.
  intros Hval Hmod Hthrow. unfold categorySave. rewrite Hval. unfold parentHook.
  rewrite (parentModified_parent _ _ doc) by apply slugHook_parent.
  rewrite (validateParent_parent _ _ _ doc) by apply slugHook_parent.
  by rewrite Hmod, Hthrow.
Qed.

Lemma wellFormed_empty : wellFormed ∅.
Proof.
  split.
  - intros a b (c & Hc & _). by rewrite lookup_empty in Hc.
  - intros a Hloop.
    inversion Hloop as [? ? (c & Hc & _)|? ? ? (c & Hc & _) _]; subst;
      by rewrite lookup_empty in Hc.
Qed.

Lemma categorySave_wellFormed cats now self doc d cats' :
  wellFormed cats →
  (∀ p, Category.parentCategory doc = Some p → is_Some (cats !! p)) →
  categorySave cats now self doc = inr (d, cats') →
  wellFormed cats'.
Proof.
  intros [Hres Hacyc] Hparent Hsave.
  apply categorySave_inr in Hsave as (_ & -> & -> & Hcheck).
  set (d := Category.set_updatedAt now (slugHook cats self (cats !! self) doc)).
  assert (Category.parentCategory d = Category.parentCategory doc) as Hd
    by apply slugHook_parent.
  split.
  - apply parentsResolve_insert; [done|]. intros p Hp. apply Hparent. congruence.
  - apply acyclic_insert; [done|]. intros p Hp Hback. rewrite Hd in Hp.
    destruct (cats !! self) as [old|] eqn:Hold.
    + destruct (parentModified (Some old) doc) eqn:Hmod.
      * eapply validateParent_safe; eauto.
      * unfold parentModified in Hmod. apply negb_false_iff, bool_decide_eq_true in Hmod.
        apply (Hacyc self). eapply tc_rtc_r; [|exact Hback].
        apply tc_once. exists old. split; [done | congruence].
    + assert (is_Some (cats !! self)) as [? Hs]; [|congruence].
      eapply rtc_parentOf_stored; eauto.
Qed.

Lemma createCategory_wellFormed cats now user body :
  wellFormed cats → wellFormed (createCategory cats now user body).2.
Proof.
  intros Hwf. unfold createCategory.
  destruct (JS.falsy (b_name body) || JS.falsy (b_description body)); [done|].
  destruct (truthyRef (b_parentCategory body)) as [p|] eqn:Hp.
  - destruct (bool_decide (findById cats p = None)) eqn:Hfind; [done|].
    apply bool_decide_eq_false in Hfind.
    match goal with |- context [categorySave ?c ?n ?i ?d] =>
      destruct (categorySave c n i d) as [[|errors]|[d' cats']] eqn:Hsave end; try done.
    simpl. eapply categorySave_wellFormed; [exact Hwf| |exact Hsave].
    simpl. intros q [= <-]. unfold findById in Hfind.
    destruct (cats !! p); [eauto | done].
  - match goal with |- context [categorySave ?c ?n ?i ?d] =>
      destruct (categorySave c n i d) as [[|errors]|[d' cats']] eqn:Hsave end; try done.
    simpl. eapply categorySave_wellFormed; [exact Hwf| |exact Hsave].
    simpl. intros q [=].
Qed.

Lemma applyCategoryPatch_parent user body c :
  Category.parentCategory (applyCategoryPatch user body c) = Category.parentCategory c.
Proof.
  unfold applyCategoryPatch.
  destruct (b_name body), (b_description body), (b_color body), (b_icon body),
    (b_order body), (b_metadata body), (b_isActive body) as [[]|],
    (bool_decide (role user = admin)); reflexivity.
Qed.

Lemma updateCategory_wellFormed cats now user id body :
  wellFormed cats → wellFormed (updateCategory cats now user id body).2.
Proof.
  intros Hwf. unfold updateCategory.
  destruct (cats !! id) as [category|] eqn:Hid; [|done].
  destruct (negb (bool_decide (role user = admin))
            && negb (String.eqb (Category.createdBy category) (user_id user))); [done|].
  assert (∀ doc, (∀ p, Category.parentCategory doc = Some p → is_Some (cats !! p)) →
            wellFormed
              (match categorySave cats now id doc with
               | inr (category, cats') =>
                   (mkResponse 200 None (Some "Categoría actualizada exitosamente")
                      (CategoryPayload id category), cats')
               | inl CircularReference =>
                   (failure 400 "Referencia circular"
                      "No se puede crear una referencia circular en las categorías", cats)
               | inl (ValidationError errors) =>
                   (mkResponse 400 (Some "Error de validación") None (Details errors), cats)
               end).2) as Hfinish.
  { intros doc Hdoc.
    destruct (categorySave cats now id doc) as [[|errors]|[d' cats']] eqn:Hsave; try done.
    simpl. eapply categorySave_wellFormed; eauto. }
  destruct (b_parentCategory body) as [[s|]|].
  - destruct (String.eqb s "") eqn:Hs.
    + apply Hfinish. simpl. intros p [=].
    + destruct (bool_decide (findById cats s = None)) eqn:Hfind; [done|].
      apply bool_decide_eq_false in Hfind.
      apply Hfinish. simpl. intros p [= <-]. unfold findById in Hfind.
      destruct (cats !! s); [eauto | done].
  - apply Hfinish. simpl. intros p [=].
  - apply Hfinish. rewrite applyCategoryPatch_parent. intros p Hp.
    destruct Hwf as [Hres _]. apply (Hres id p). exists category. done.
Qed.

Lemma deleteCategory_wellFormed db user id :
  wellFormed (categories db) → wellFormed (categories (deleteCategory db user id).2).
Proof.
  intros [Hres Hacyc]. unfold deleteCategory.
  destruct (categories db !! id) as [category|]; [|done].
  destruct (negb (bool_decide (role user = admin))); [done|].
  destruct (0 <? countSubcategories (categories db) id) eqn:Hsub; [done|].
  destruct (0 <? countTechniques (techniques db) id); [done|].
  simpl. apply Nat.ltb_ge in Hsub.
  assert (countSubcategories (categories db) id = 0) as Hzero by lia.
  split.
  - apply parentsResolve_delete; [done|]. by apply countSubcategories_zero.
  - by apply acyclic_delete.
Qed.

Lemma stepCategory_wellFormed db op :
  wellFormed (categories db) → wellFormed (categories (stepCategory db op)).
Proof.
  intros Hwf. destruct op as [now user body|now user id body|user id]; simpl.
  - by apply createCategory_wellFormed.
  - by apply updateCategory_wellFormed.
  - by apply deleteCategory_wellFormed.
Qed.

Lemma runCategoryOps_wellFormed ops :
  ∀ db, wellFormed (categories db) → wellFormed (categories (runCategoryOps db ops)).
Proof.
  induction ops as [|op ops IH]; intros db Hwf; [done|].
  simpl. apply IH. by apply stepCategory_wellFormed.
Qed.

(** ** Cycle detection and the forest invariant *)

(** On a well-formed collection [createCategory] never meets the error of
    [validateParent]: its 500 answer is out of reach. *)
Lemma createCategory_never_500 (cats : gmap string Category.t) now user body :
  acyclic cats → status (createCategory cats now user body).1 ≠ 500.
Proof.
  intros Hacyc. unfold createCategory.
  destruct (JS.falsy (b_name body) || JS.falsy (b_description body)); [simpl; lia|].
  destruct (match truthyRef (b_parentCategory body) with
            | Some p => bool_decide (findById cats p = None)
            | None => false
            end); [simpl; lia|].
  match goal with |- context [categorySave ?c ?n ?i ?d] =>
    destruct (categorySave c n i d) as [[|errors]|[d' cats'']] eqn:Hsave end;
    [|simpl; lia|simpl; lia].
  exfalso. revert Hsave. unfold categorySave.
  destruct (categoryValidate _); [|done].
  unfold parentHook. destruct (parentModified _ _); [|done].
  rewrite validateParent_new_document; [done|done|apply fresh_id_unused].
Qed.

(** A reparenting whose walk revisits is answered with the 400
    'Referencia circular' and writes nothing. *)
Lemma updateCategory_circular (cats : gmap string Category.t) now user id body old s :
  cats !! id = Some old →
  role user = admin ∨ Category.createdBy old = user_id user →
  b_parentCategory body = Some (Some s) → s ≠ "" →
  is_Some (cats !! s) →
  Category.parentCategory old ≠ Some s →
  categoryValidate (applyCategoryPatch user body old) = [] →
  walkRevisits cats id s →
  updateCategory cats now user id body
  = (failure 400 "Referencia circular"
       "No se puede crear una referencia circular en las categorías", cats).
Proof.
  intros Hid Hperm Hbody Hs [ps Hps] Hchange Hval Hwalk.
  unfold updateCategory. rewrite Hid, Hbody.
  assert (negb (bool_decide (role user = admin))
          && negb (String.eqb (Category.createdBy old) (user_id user)) = false) as ->.
  { destruct Hperm as [Hr|Hc].
    - by rewrite (bool_decide_eq_true_2 _ Hr).
    - rewrite Hc, String.eqb_refl. apply andb_false_r. }
  destruct (String.eqb_spec s "") as [|_]; [done|].
  rewrite (bool_decide_eq_false_2 (findById cats s = None)).
  2:{ unfold findById. by rewrite Hps. }
  rewrite categorySave_circular; [done| | |].
  - rewrite <- Hval. unfold categoryValidate. reflexivity.
  - rewrite Hid. unfold parentModified. simpl.
    by rewrite (bool_decide_eq_false_2 _ Hchange).
  - apply validateParent_throws. exists s. done.
Qed.

Example reparent_under_descendant_refused :
  dom (categories twoLevels) = {["0"; "1"]}
  ∧ (Category.parentCategory <$> categories twoLevels !! "1") = Some (Some "0")
  ∧ updateCategory (categories twoLevels) 3 someUser "0" (reparentBody (Some (Some "1")))
    = (failure 400 "Referencia circular"
         "No se puede crear una referencia circular en las categorías",
       categories twoLevels).
Proof. vm_compute. done. Qed.

(** C1.  Every parent assignment is checked by a walk up the parent chain
    from the proposed parent: the walk always ends, it fails with the
    circular-reference error exactly when it comes back to the category
    being saved or to an id it has already met, [save] passes that
    failure on, and [updateCategory] answers it with the 400 'Referencia
    circular' without writing; the walk of a new category on an acyclic
    collection never revisits.  Consequently, after any sequence of
    create, update and delete requests on an empty collection, no
    category is its own ancestor. *)
Theorem C1_parent_chain_never_cyclic :
  (∀ (cats : gmap string Category.t) (self : ObjectId) (this : Category.t),
     (∀ p, is_Some (validateParentLoop cats (size cats) {[self]} (findById cats p)))
     ∧ (validateParent cats self this = inl CircularReference
        ∨ validateParent cats self this = inr true)
     ∧ (validateParent cats self this = inl CircularReference
        ↔ ∃ p, Category.parentCategory this = Some p ∧ walkRevisits cats self p))
  ∧ (∀ (cats : gmap string Category.t) now self doc,
       categoryValidate doc = [] →
       parentModified (cats !! self) doc = true →
       validateParent cats self doc = inl CircularReference →
       categorySave cats now self doc = inl CircularReference)
  ∧ (∀ (cats : gmap string Category.t) now user id body old s,
       cats !! id = Some old →
       role user = admin ∨ Category.createdBy old = user_id user →
       b_parentCategory body = Some (Some s) → s ≠ "" →
       is_Some (cats !! s) →
       Category.parentCategory old ≠ Some s →
       categoryValidate (applyCategoryPatch user body old) = [] →
       walkRevisits cats id s →
       updateCategory cats now user id body
       = (failure 400 "Referencia circular"
            "No se puede crear una referencia circular en las categorías", cats))
  ∧ (∀ (cats : gmap string Category.t) now user body,
       acyclic cats → status (createCategory cats now user body).1 ≠ 500)
  ∧ (∀ techs ops a,
       ¬ tc (parentOf (categories (runCategoryOps (mkDB ∅ techs) ops))) a a).
Proof.
  split; [|split; [|split; [|split]]].
  - intros cats self this. split; [|split].
    + intros p. apply validateParentLoop_total.
    + apply validateParent_cases.
    + apply validateParent_throws.
  - intros cats now self doc. apply categorySave_circular.
  - apply updateCategory_circular.
  - apply createCategory_never_500.
  - intros techs ops.
    destruct (runCategoryOps_wellFormed ops (mkDB ∅ techs)) as [_ Hacyc].
    + apply wellFormed_empty.
    + exact Hacyc.
Qed.

Lemma C1_witness :
  validateParent (categories twoLevels) "0" (plainCategory "Root" (Some "1"))
  = inl CircularReference
  ∧ ¬ tc (parentOf (categories twoLevels)) "1" "1".
Proof.
  split.
  - apply (proj2 (proj2 (proj1 C1_parent_chain_never_cyclic (categories twoLevels) "0"
                           (plainCategory "Root" (Some "1"))))).
    exists "1". split; [reflexivity|].
    exists 1, "0". split; [vm_compute; reflexivity | by left].
  - apply (proj2 (proj2 (proj2 (proj2 C1_parent_chain_never_cyclic))) ∅
             [Create 1 someUser (namedBody "Root" None);
              Create 2 someUser (namedBody "Leaf" (Some (Some "0")))] "1").
Defined.

(** ** [getFullPath] *)

Example getFullPath_two_levels :
  (categories twoLevels !! "1" ≫= getFullPath (categories twoLevels) 1)
  = Some "Root > Leaf".
Proof. vm_compute. done. Qed.

Lemma cyclicStore_lookups :
  findById cyclicStore "a" = Some ("a", catA) ∧ findById cyclicStore "b" = Some ("b", catB).
Proof. split; vm_compute; done. Qed.

Lemma getFullPathLoop_cyclicStore fuel :
  ∀ path, getFullPathLoop cyclicStore fuel path catA = None
          ∧ getFullPathLoop cyclicStore fuel path catB = None.
Proof.
  destruct cyclicStore_lookups as [Ha Hb].
  induction fuel as [|fuel IH]; intros path; [done|].
  split; simpl.
  - rewrite Hb. apply IH.
  - rewrite Ha. apply IH.
Qed.

Lemma chainNames_cons (cats : gmap string Category.t) d k :
  chainNames cats (Some d) (S k)
  = Category.name d.2 :: chainNames cats (nextDoc cats (Some d)) k.
Proof.
  unfold chainNames. rewrite <- cons_seq. simpl. f_equal.
  rewrite <- fmap_S_seq. generalize (seq 0 k). intros l.
  induction l as [|i l IH]; [done|].
  rewrite fmap_cons. simpl. by rewrite IH.
Qed.

(** When the loop returns, it has prepended the names of the documents of
    the parent chain, up to the first category without a parent or with a
    parent that is not stored. *)
Lemma getFullPathLoop_value (cats : gmap string Category.t) fuel :
  ∀ c path out,
    getFullPathLoop cats fuel path c = Some out →
    let start := Category.parentCategory c ≫= findById cats in
    ∃ k, docAt cats start k = None
         ∧ (∀ i, i < k → is_Some (docAt cats start i))
         ∧ out = rev (chainNames cats start k) ++ path.
Proof.
  induction fuel as [|fuel IH]; intros c path out; simpl.
  - destruct (Category.parentCategory c) as [p|]; [done|].
    intros [= <-]. exists 0. split; [done|]. split; [intros; lia | done].
  - destruct (Category.parentCategory c) as [p|]; simpl.
    2:{ intros [= <-]. exists 0. split; [done|]. split; [intros; lia | done]. }
    destruct (findById cats p) as [[q c']|] eqn:Hp.
    2:{ intros [= <-]. exists 0. split; [done|]. split; [intros; lia | done]. }
    intros Hrun. apply IH in Hrun as (k & Hend & Hall & ->).
    exists (S k). split; [exact Hend|]. split.
    + intros i Hi. destruct i as [|i]; [simpl; eauto|]. apply Hall. lia.
    + rewrite chainNames_cons. simpl. by rewrite <- app_assoc.
Qed.

(** On an acyclic store the loop ends: the ids walked so far all lead to
    the current one, so the next parent is a new id. *)
Lemma getFullPathLoop_returns (cats : gmap string Category.t) fuel :
  acyclic cats →
  ∀ (visited : gset string) cid c path,
    cats !! cid = Some c →
    (∀ x, x ∈ visited → rtc (parentOf cats) x cid) →
    size (dom cats ∖ visited) < fuel →
    is_Some (getFullPathLoop cats fuel path c).
Proof.
  intros Hacyc. induction fuel as [|fuel IH]; intros visited cid c path Hc Hvis Hsize; [lia|].
  simpl. destruct (Category.parentCategory c) as [p|] eqn:Hp; [|eauto].
  unfold findById. destruct (cats !! p) as [c'|] eqn:Hc'; simpl; [|eauto].
  assert (p ∉ visited) as Hnew.
  { intros Hin. apply (Hacyc cid). eapply tc_rtc_r; [|apply (Hvis p Hin)].
    apply tc_once. exists c. done. }
  apply (IH ({[p]} ∪ visited) p); [done| |].
  - intros x Hx. apply elem_of_union in Hx as [Hx|Hx].
    + apply elem_of_singleton in Hx as ->. constructor.
    + eapply rtc_r; [apply (Hvis x Hx)|]. exists c. done.
  - assert (dom cats ∖ ({[p]} ∪ visited) ⊂ dom cats ∖ visited) as Hsub.
    { assert (p ∈ dom cats) by (apply elem_of_dom; eauto). set_solver. }
    apply subset_size in Hsub. lia.
Qed.

Lemma getFullPath_returns_when_acyclic (cats : gmap string Category.t) id this :
  acyclic cats → cats !! id = Some this →
  is_Some (getFullPath cats (size cats) this).
Proof.
  intros Hacyc Hid. unfold getFullPath.
  destruct (getFullPathLoop_returns cats (size cats) Hacyc {[id]} id this
              [Category.name this] Hid) as [out ->]; [| |by eexists].
  - intros x Hx. apply elem_of_singleton in Hx as ->. constructor.
  - rewrite <- size_dom.
    assert (dom cats ∖ {[id]} ⊂ dom cats) as Hsub.
    { assert (id ∈ dom cats) by (apply elem_of_dom; eauto). set_solver. }
    apply subset_size in Hsub. lia.
Qed.

(** C3.  On a store whose parent chain has a cycle, [getFullPath] has not
    returned after any number of turns of its loop: it keeps no record of
    the ids it has visited.  ([validateParent], in the same model, does.) *)
Theorem C3_getFullPath_never_returns_on_cycle :
  ∀ fuel, getFullPath cyclicStore fuel catA = None.
Proof.
  intros fuel. unfold getFullPath.
  destruct (getFullPathLoop_cyclicStore fuel [Category.name catA]) as [-> _]. done.
Qed.

(** ** Deleting a category *)

Lemma countSubcategories_pos cats id x c :
  cats !! x = Some c → Category.parentCategory c = Some id →
  0 < countSubcategories cats id.
Proof.
  intros Hx Hp. destruct (countSubcategories cats id) eqn:Hcount; [|lia].
  destruct (countSubcategories_zero cats id Hcount x). exists c. done.
Qed.

Lemma countTechniques_pos (techs : gmap string Technique.t) id x t :
  techs !! x = Some t → Technique.category t = Some id →
  0 < countTechniques techs id.
Proof.
  intros Hx Hc. unfold countTechniques.
  assert ((x, t) ∈ filter (λ d : string * Technique.t, Technique.category d.2 = Some id)
                     (map_to_list techs)) as Hin.
  { apply list_elem_of_filter. split; [exact Hc|]. by apply elem_of_map_to_list. }
  destruct (filter _ _); [by apply not_elem_of_nil in Hin | simpl; lia].
Qed.

Example delete_referenced_category :
  deleteCategory catalogue adminUser "c1"
  = (mkResponse 400 (Some "Categoría con dependencias")
       (Some "No se puede eliminar. Hay 1 técnicas asociadas")
       (Dependencies None (Some 1)), catalogue).
Proof. vm_compute. done. Qed.

(** C5.  Deleting a stored category that has a child category or a
    technique referring to it changes nothing, whoever asks; for an
    administrator the answer is the 400 dependency error, with the count
    of subcategories when there are some and the count of techniques
    otherwise.  The [pre('remove')] hook of the model refuses as well. *)
Theorem C5_delete_with_dependents_is_refused :
  ∀ (db : DB) (user : User) (id : ObjectId) (category : Category.t),
    categories db !! id = Some category →
    (∃ x c, categories db !! x = Some c ∧ Category.parentCategory c = Some id)
    ∨ (∃ x t, techniques db !! x = Some t ∧ Technique.category t = Some id) →
    let subcategories := countSubcategories (categories db) id in
    let referring := countTechniques (techniques db) id in
    (deleteCategory db user id).2 = db
    ∧ (0 < subcategories ∨ 0 < referring)
    ∧ (role user = admin →
       (deleteCategory db user id).1
       = mkResponse 400 (Some "Categoría con dependencias")
           (Some (if 0 <? subcategories
                  then "No se puede eliminar. Hay " +:+ JS.natToString subcategories
                       +:+ " subcategorías asociadas"
                  else "No se puede eliminar. Hay " +:+ JS.natToString referring
                       +:+ " técnicas asociadas"))
           (if 0 <? subcategories
            then Dependencies (Some subcategories) None
            else Dependencies None (Some referring)))
    ∧ (∃ errors, categoryPreRemove db id = inl (ValidationError errors)).
Proof.
  intros db user id category Hid Hdeps subcategories referring.
  assert (0 < subcategories ∨ 0 < referring) as Hpos.
  { destruct Hdeps as [(x & c & Hx & Hp) | (x & t & Hx & Hc)].
    - left. eapply countSubcategories_pos; eauto.
    - right. eapply countTechniques_pos; eauto. }
  assert ((0 <? subcategories) = true ∨
          ((0 <? subcategories) = false ∧ (0 <? referring) = true)) as Hcase.
  { destruct (0 <? subcategories) eqn:Hs; [by left|right]. split; [done|].
    apply Nat.ltb_ge in Hs. apply Nat.ltb_lt. lia. }
  unfold deleteCategory, categoryPreRemove. rewrite Hid.
  fold subcategories referring.
  split; [|split; [exact Hpos|split]].
  - destruct (negb (bool_decide (role user = admin))); [done|].
    destruct Hcase as [-> | [-> ->]]; done.
  - intros Hadmin. rewrite bool_decide_eq_true_2 by done. simpl.
    destruct Hcase as [-> | [-> ->]]; done.
  - destruct Hcase as [-> | [-> ->]]; eauto.
Qed.

Lemma C5_witness :
  (deleteCategory catalogue adminUser "c1").2 = catalogue
  ∧ status (deleteCategory catalogue adminUser "c1").1 = 400.
Proof.
  destruct (C5_delete_with_dependents_is_refused catalogue adminUser "c1"
              (plainCategory "Initial Access" None)) as (Hsame & _ & Hresp & _).
  - vm_compute. reflexivity.
  - right. exists "t1", phishing. split; vm_compute; reflexivity.
  - split; [exact Hsame|]. rewrite Hresp; [reflexivity|]. reflexivity.
Defined.

(** ** Updating a category *)

(** Every answer of [updateCategory] other than 200 leaves the collection
    as it was; a 200 writes the patched document under the same id. *)
Lemma updateCategory_inv cats now user id body r cats' :
  updateCategory cats now user id body = (r, cats') →
  (status r ≠ 200 ∧ cats' = cats)
  ∨ (∃ old d,
       cats !! id = Some old
       ∧ d = Category.set_updatedAt now
               (slugHook cats id (Some old)
                  (assignParent body (applyCategoryPatch user body old)))
       ∧ r = mkResponse 200 None (Some "Categoría actualizada exitosamente")
               (CategoryPayload id d)
       ∧ cats' = <[id := d]> cats
       ∧ categorySave cats now id (assignParent body (applyCategoryPatch user body old))
         = inr (d, cats')).
Proof.
  unfold updateCategory. destruct (cats !! id) as [old|] eqn:Hid.
  2:{ intros [= <- <-]. left. split; [simpl; lia | done]. }
  destruct (negb (bool_decide (role user = admin))
            && negb (String.eqb (Category.createdBy old) (user_id user))).
  { intros [= <- <-]. left. split; [simpl; lia | done]. }
  assert (∀ doc,
    match categorySave cats now id doc with
    | inr (category, cats') =>
        (mkResponse 200 None (Some "Categoría actualizada exitosamente")
           (CategoryPayload id category), cats')
    | inl CircularReference =>
        (failure 400 "Referencia circular"
           "No se puede crear una referencia circular en las categorías", cats)
    | inl (ValidationError errors) =>
        (mkResponse 400 (Some "Error de validación") None (Details errors), cats)
    end = (r, cats') →
    (status r ≠ 200 ∧ cats' = cats)
    ∨ (∃ d, d = Category.set_updatedAt now (slugHook cats id (Some old) doc)
         ∧ r = mkResponse 200 None (Some "Categoría actualizada exitosamente")
                 (CategoryPayload id d)
         ∧ cats' = <[id := d]> cats
         ∧ categorySave cats now id doc = inr (d, cats'))) as Hfinish.
  { intros doc Hrun.
    destruct (categorySave cats now id doc) as [[|errors]|[d cats'']] eqn:Hsave.
    - injection Hrun as <- <-. left. split; [simpl; lia | done].
    - injection Hrun as <- <-. left. split; [simpl; lia | done].
    - injection Hrun as <- <-. right.
      apply categorySave_inr in Hsave as (_ & Hd & Hc & _).
      rewrite Hid in Hd. exists d. done. }
  unfold assignParent, truthyRef.
  destruct (b_parentCategory body) as [[s|]|].
  - destruct (String.eqb s "") eqn:Hs.
    + intros Hrun. destruct (Hfinish _ Hrun) as [H | (d & Hd & Hr & Hc & Hsave)]; [by left|].
      right. exists old, d. done.
    + destruct (bool_decide (findById cats s = None)).
      * intros [= <- <-]. left. split; [simpl; lia | done].
      * intros Hrun.
        destruct (Hfinish _ Hrun) as [H | (d & Hd & Hr & Hc & Hsave)]; [by left|].
        right. exists old, d. done.
  - intros Hrun. destruct (Hfinish _ Hrun) as [H | (d & Hd & Hr & Hc & Hsave)]; [by left|].
    right. exists old, d. done.
  - intros Hrun. destruct (Hfinish _ Hrun) as [H | (d & Hd & Hr & Hc & Hsave)]; [by left|].
    right. exists old, d. done.
Qed.

Lemma applyCategoryPatch_fields user body c :
  let c' := applyCategoryPatch user body c in
  Category.name c' = from_option JS.trim (Category.name c) (b_name body)
  ∧ Category.description c' = from_option JS.trim (Category.description c) (b_description body)
  ∧ Category.color c' = default (Category.color c) (b_color body)
  ∧ Category.icon c' = from_option JS.trim (Category.icon c) (b_icon body)
  ∧ Category.order c' = default (Category.order c) (b_order body)
  ∧ Category.metadata c'
    = from_option (mergeMetadata (Category.metadata c)) (Category.metadata c) (b_metadata body)
  ∧ Category.isActive c'
    = (if bool_decide (role user = admin)
       then default (Category.isActive c) (b_isActive body)
       else Category.isActive c)
  ∧ Category.slug c' = Category.slug c
  ∧ Category.createdBy c' = Category.createdBy c.
Proof.
  unfold applyCategoryPatch.
  destruct (b_name body), (b_description body), (b_color body), (b_icon body),
    (b_order body), (b_metadata body), (b_isActive body) as [[]|],
    (bool_decide (role user = admin)); simpl; repeat split; reflexivity.
Qed.

(** The stored fields after a successful update, as functions of the
    patch. *)
Lemma updateCategory_200_fields cats now user id body r cats' :
  updateCategory cats now user id body = (r, cats') →
  status r = 200 →
  ∃ old new,
    cats !! id = Some old ∧ cats' = <[id := new]> cats
    ∧ Category.name new = from_option JS.trim (Category.name old) (b_name body)
    ∧ Category.description new
      = from_option JS.trim (Category.description old) (b_description body)
    ∧ Category.color new = default (Category.color old) (b_color body)
    ∧ Category.icon new = from_option JS.trim (Category.icon old) (b_icon body)
    ∧ Category.order new = default (Category.order old) (b_order body)
    ∧ Category.metadata new
      = from_option (mergeMetadata (Category.metadata old)) (Category.metadata old)
          (b_metadata body)
    ∧ Category.parentCategory new
      = from_option (λ p, truthyRef (Some p)) (Category.parentCategory old)
          (b_parentCategory body)
    ∧ Category.isActive new
      = (if bool_decide (role user = admin)
         then default (Category.isActive old) (b_isActive body)
         else Category.isActive old).
Proof.
  intros Hrun Hok.
  apply updateCategory_inv in Hrun as [[Hne _] | (old & d & Hid & Hd & _ & Hc & _)]; [done|].
  exists old, d. split; [exact Hid|]. split; [exact Hc|].
  destruct (applyCategoryPatch_fields user body old)
    as (Hn & Hde & Hco & Hi & Ho & Hm & Ha & _ & _).
  pose proof (applyCategoryPatch_parent user body old) as Hp.
  subst d. unfold slugHook, assignParent.
  destruct (nameModified _ _), (b_parentCategory body); simpl;
    rewrite ?Hn, ?Hde, ?Hco, ?Hi, ?Ho, ?Hm, ?Ha, ?Hp; repeat split; reflexivity.
Qed.

(** C9.  In [updateCategory], for an actor who is not an administrator
    the [isActive] key of the patch is ignored: no stored flag changes,
    whatever the outcome, while on success every other key supplied
    (name, description, colour, icon, order, each list of the metadata,
    parent) is written, and a key that is not supplied leaves its field
    as it was.  For an administrator the flag takes the value of the
    patch. *)
Theorem C9_only_admin_sets_isActive :
  ∀ (cats : gmap string Category.t) now user id body r cats',
    updateCategory cats now user id body = (r, cats') →
    (role user ≠ admin →
     ∀ x, Category.isActive <$> cats' !! x = Category.isActive <$> cats !! x)
    ∧ (status r = 200 →
       ∃ old new,
         cats !! id = Some old ∧ cats' !! id = Some new
         ∧ (role user ≠ admin → Category.isActive new = Category.isActive old)
         ∧ (role user = admin →
            ∀ b, b_isActive body = Some b → Category.isActive new = b)
         ∧ (∀ s, b_name body = Some s → Category.name new = JS.trim s)
         ∧ (∀ s, b_description body = Some s → Category.description new = JS.trim s)
         ∧ (∀ s, b_color body = Some s → Category.color new = s)
         ∧ (∀ s, b_icon body = Some s → Category.icon new = JS.trim s)
         ∧ (∀ o, b_order body = Some o → Category.order new = o)
         ∧ (∀ m, b_metadata body = Some m →
              (∀ v, mp_tactics m = Some v → tactics (Category.metadata new) = v)
              ∧ (∀ v, mp_platforms m = Some v → platforms (Category.metadata new) = v)
              ∧ (∀ v, mp_killChainPhases m = Some v
                      → killChainPhases (Category.metadata new) = v)
              ∧ (mp_tactics m = None
                 → tactics (Category.metadata new) = tactics (Category.metadata old))
              ∧ (mp_platforms m = None
                 → platforms (Category.metadata new) = platforms (Category.metadata old))
              ∧ (mp_killChainPhases m = None
                 → killChainPhases (Category.metadata new)
                   = killChainPhases (Category.metadata old)))
         ∧ (∀ p, b_parentCategory body = Some p
                 → Category.parentCategory new = truthyRef (Some p))
         ∧ (b_name body = None → Category.name new = Category.name old)
         ∧ (b_description body = None
            → Category.description new = Category.description old)
         ∧ (b_color body = None → Category.color new = Category.color old)
         ∧ (b_icon body = None → Category.icon new = Category.icon old)
         ∧ (b_order body = None → Category.order new = Category.order old)
         ∧ (b_metadata body = None → Category.metadata new = Category.metadata old)
         ∧ (b_parentCategory body = None
            → Category.parentCategory new = Category.parentCategory old)).
Proof.
  intros cats now user id body r cats' Hrun. split.
  - intros Hrole x.
    destruct (updateCategory_inv _ _ _ _ _ _ _ Hrun)
      as [[_ ->] | (old & d & Hid & _ & Hr & _ & _)]; [done|].
    destruct (updateCategory_200_fields _ _ _ _ _ _ _ Hrun)
      as (old' & new & Hid' & -> & _ & _ & _ & _ & _ & _ & _ & Hact).
    { by rewrite Hr. }
    rewrite bool_decide_eq_false_2 in Hact by done.
    destruct (decide (x = id)) as [->|Hne].
    + rewrite lookup_insert_eq, Hid'. simpl. by rewrite Hact.
    + by rewrite lookup_insert_ne.
  - intros Hok.
    destruct (updateCategory_200_fields _ _ _ _ _ _ _ Hrun Hok)
      as (old & new & Hid & -> & Hn & Hde & Hco & Hi & Ho & Hm & Hp & Hact).
    exists old, new. split; [exact Hid|]. split; [apply lookup_insert_eq|].
    split; [|split; [|split; [|split; [|split; [|split; [|split; [|split; [|split]]]]]]]].
    + intros Hrole. by rewrite bool_decide_eq_false_2 in Hact.
    + intros Hrole b Hb. rewrite bool_decide_eq_true_2 in Hact by done.
      by rewrite Hb in Hact.
    + intros s Hs. by rewrite Hs in Hn.
    + intros s Hs. by rewrite Hs in Hde.
    + intros s Hs. by rewrite Hs in Hco.
    + intros s Hs. by rewrite Hs in Hi.
    + intros o Hs. by rewrite Hs in Ho.
    + intros m Hs. rewrite Hs in Hm. simpl in Hm. rewrite Hm. unfold mergeMetadata. simpl.
      repeat split; intros; subst; try done;
        match goal with H : _ = _ |- _ => by rewrite H end.
    + intros p Hs. by rewrite Hs in Hp.
    + repeat split; intros Hs;
        rewrite Hs in *; assumption.
Qed.

Lemma C9_witness :
  ∃ new,
    (updateCategory (categories catalogue) 9 someUser "c1" renameAndDisable).2 !! "c1"
    = Some new
    ∧ Category.isActive new = true
    ∧ Category.name new = "Entry points"
    ∧ Category.order new = 3%Z
    ∧ tactics (Category.metadata new) = ["TA0001"]
    ∧ platforms (Category.metadata new) = [].
Proof.
  destruct (updateCategory (categories catalogue) 9 someUser "c1" renameAndDisable)
    as [r cats'] eqn:Hrun.
  destruct (C9_only_admin_sets_isActive _ _ _ _ _ _ _ Hrun) as [_ Hfields].
  destruct Hfields
    as (old & new & Hold & Hnew & Hact & _ & Hname & _ & _ & _ & Hord & Hmeta & _).
  { revert Hrun. vm_compute. intros [= <- _]. reflexivity. }
  destruct (Hmeta (mkMetadataPatch (Some ["TA0001"]) None None) eq_refl)
    as (Htac & _ & _ & _ & Hplat & _).
  exists new. split; [exact Hnew|]. split; [|split; [|split; [|split]]].
  - rewrite Hact by discriminate.
    revert Hold. vm_compute. intros [= <-]. reflexivity.
  - rewrite (Hname " Entry points " eq_refl). reflexivity.
  - apply (Hord 3%Z eq_refl).
  - apply (Htac ["TA0001"] eq_refl).
  - rewrite (Hplat eq_refl).
    revert Hold. vm_compute. intros [= <-]. reflexivity.
Defined.

(** ** [getHierarchy] *)

Lemma findActiveSorted_elem cats x c :
  (x, c) ∈ findActiveSorted cats ↔ cats !! x = Some c ∧ Category.isActive c = true.
Proof.
  unfold findActiveSorted. rewrite merge_sort_Permutation.
  rewrite list_elem_of_filter, elem_of_map_to_list. simpl. tauto.
Qed.

Lemma firstPass_fold (l : list (ObjectId * Category.t)) :
  ∀ (m : gmap string HNode) k n,
    foldl (λ m d, <[d.1 := mkHNode d.2 []]> m) m l !! k = Some n →
    m !! k = Some n ∨ (children n = [] ∧ ∃ c, (k, c) ∈ l).
Proof.
  induction l as [|[x c] l IH]; intros m k n; simpl; [by left|].
  intros H. apply IH in H as [H | (Hn & c' & Hin)].
  - destruct (decide (x = k)) as [->|Hne].
    + rewrite lookup_insert_eq in H. injection H as <-.
      right. split; [done|]. exists c. left.
    + rewrite lookup_insert_ne in H by done. by left.
  - right. split; [done|]. exists c'. by right.
Qed.

Lemma firstPass_lookup l k n :
  firstPass l !! k = Some n → children n = [] ∧ ∃ c, (k, c) ∈ l.
Proof.
  intros H. apply firstPass_fold in H as [H|H]; [|done].
  by rewrite lookup_empty in H.
Qed.

(** What the second pass can add: a root has no parent, and a child sits
    under the entry that its own parent reference names. *)
Lemma secondPass_fold (l : list (ObjectId * Category.t)) :
  ∀ (st : gmap string HNode * list ObjectId),
    let st' := foldl secondPassStep st l in
    (∀ x, x ∈ st'.2 → x ∈ st.2 ∨ ∃ c, (x, c) ∈ l ∧ Category.parentCategory c = None)
    ∧ (∀ k n y, st'.1 !! k = Some n → y ∈ children n →
         ∃ n0, st.1 !! k = Some n0
               ∧ (y ∈ children n0 ∨ ∃ c, (y, c) ∈ l ∧ Category.parentCategory c = Some k)).
Proof.
  induction l as [|[x c] l IH]; intros st; simpl.
  - split; [by left | eauto].
  - destruct (IH (secondPassStep st (x, c))) as [IHr IHc]. split.
    + intros y Hy. apply IHr in Hy as [Hy | (c' & Hin & Hp)].
      * unfold secondPassStep in Hy. simpl in Hy.
        destruct (Category.parentCategory c) as [p|] eqn:Hp.
        -- destruct (st.1 !! p); by left.
        -- simpl in Hy. apply elem_of_app in Hy as [Hy|Hy]; [by left|].
           apply list_elem_of_singleton in Hy as ->.
           right. exists c. split; [left | done].
      * right. exists c'. split; [by right | done].
    + intros k n y Hk Hy.
      destruct (IHc k n y Hk Hy) as (n1 & Hn1 & Hcase).
      unfold secondPassStep in Hn1, Hcase. simpl in Hn1, Hcase.
      destruct (Category.parentCategory c) as [p|] eqn:Hp.
      * destruct (st.1 !! p) as [np|] eqn:Hnp.
        -- simpl in Hn1. destruct (decide (p = k)) as [->|Hne].
           ++ rewrite lookup_alter_eq, Hnp in Hn1. simpl in Hn1. injection Hn1 as <-.
              exists np. split; [done|].
              destruct Hcase as [Hold | (c' & Hin & Hp')].
              ** simpl in Hold. apply elem_of_app in Hold as [Hold|Hold]; [by left|].
                 apply list_elem_of_singleton in Hold as ->.
                 right. exists c. split; [left | done].
              ** right. exists c'. split; [by right | done].
           ++ rewrite lookup_alter_ne in Hn1 by done.
              exists n1. split; [done|].
              destruct Hcase as [Hold | (c' & Hin & Hp')]; [by left|].
              right. exists c'. split; [by right | done].
        -- exists n1. split; [done|].
           destruct Hcase as [Hold | (c' & Hin & Hp')]; [by left|].
           right. exists c'. split; [by right | done].
      * simpl in Hn1. exists n1. split; [done|].
        destruct Hcase as [Hold | (c' & Hin & Hp')]; [by left|].
        right. exists c'. split; [by right | done].
Qed.

Lemma unfoldNode_ids (heap : gmap string HNode) depth :
  ∀ r x, x ∈ flat_map treeIds (unfoldNode heap depth r) →
         x = r ∨ ∃ k n, heap !! k = Some n ∧ x ∈ children n.
Proof.
  induction depth as [|depth IH]; intros r x; simpl.
  - intros H. by apply not_elem_of_nil in H.
  - destruct (heap !! r) as [n|] eqn:Hr; simpl.
    2:{ intros H. by apply not_elem_of_nil in H. }
    rewrite app_nil_r. intros H. apply elem_of_cons in H as [-> | H]; [by left|].
    right. apply list_elem_of_In, in_flat_map in H as (t & Ht & Hx).
    apply in_flat_map in Ht as (child & Hchild & Ht).
    assert (x ∈ flat_map treeIds (unfoldNode heap depth child)) as Hin.
    { apply list_elem_of_In, in_flat_map. eauto. }
    apply IH in Hin as [-> | Hdeeper]; [|exact Hdeeper].
    exists r, n. split; [done|]. by apply list_elem_of_In.
Qed.

Lemma forestIds_elem h depth x :
  x ∈ forestIds h depth →
  x ∈ h.2 ∨ ∃ k n, h.1 !! k = Some n ∧ x ∈ children n.
Proof.
  unfold forestIds, unfoldForest. intros H.
  apply list_elem_of_In, in_flat_map in H as (t & Ht & Hx).
  apply in_flat_map in Ht as (r & Hr & Ht).
  assert (x ∈ flat_map treeIds (unfoldNode h.1 depth r)) as Hin.
  { apply list_elem_of_In, in_flat_map. eauto. }
  apply unfoldNode_ids in Hin as [-> | Hdeeper]; [|by right].
  left. by apply list_elem_of_In.
Qed.

(** C10.  An active category whose parent reference names a category that
    is inactive or not stored is fetched by [getHierarchy] but is in no
    array of the result: neither among the roots nor in any [children]
    list, hence nowhere in the forest that is returned. *)
Theorem C10_active_orphan_left_out_of_hierarchy :
  ∀ (cats : gmap string Category.t) (o p : ObjectId) (c : Category.t),
    cats !! o = Some c →
    Category.isActive c = true →
    Category.parentCategory c = Some p →
    (∀ pc, cats !! p = Some pc → Category.isActive pc = false) →
    (o, c) ∈ findActiveSorted cats
    ∧ (o ∉ snd (getHierarchy cats))
    ∧ (∀ k n, fst (getHierarchy cats) !! k = Some n → o ∉ children n)
    ∧ (∀ depth, o ∉ forestIds (getHierarchy cats) depth).
Proof.
  intros cats o p c Ho Hact Hparent Horphan.
  assert ((o, c) ∈ findActiveSorted cats) as Hfetched
    by (apply findActiveSorted_elem; done).
  destruct (secondPass_fold (findActiveSorted cats)
              (firstPass (findActiveSorted cats), [])) as [Hroots Hchildren].
  fold (getHierarchy cats) in Hroots, Hchildren. simpl in Hroots, Hchildren.
  assert (o ∉ (getHierarchy cats).2) as Hnotroot.
  { intros Hin. apply Hroots in Hin as [Hin | (c' & Hin & Hp)].
    - by apply not_elem_of_nil in Hin.
    - apply findActiveSorted_elem in Hin as [Ho' _]. congruence. }
  assert (∀ k n, (getHierarchy cats).1 !! k = Some n → o ∉ children n) as Hnotchild.
  { intros k n Hk Hin.
    destruct (Hchildren k n o Hk Hin) as (n0 & Hn0 & Hcase).
    apply firstPass_lookup in Hn0 as [Hempty (pc & Hpc)].
    destruct Hcase as [Hold | (c' & Hin' & Hp)].
    - rewrite Hempty in Hold. by apply not_elem_of_nil in Hold.
    - apply findActiveSorted_elem in Hin' as [Ho' _].
      assert (c' = c) as -> by congruence.
      assert (k = p) as -> by congruence.
      apply findActiveSorted_elem in Hpc as [Hp' Hpact].
      rewrite (Horphan pc Hp') in Hpact. done. }
  split; [exact Hfetched|]. split; [exact Hnotroot|]. split; [exact Hnotchild|].
  intros depth Hin. apply forestIds_elem in Hin as [Hin | (k & n & Hk & Hin)].
  - by apply Hnotroot.
  - by apply (Hnotchild k n Hk).
Qed.

Example getHierarchy_withOrphan :
  snd (getHierarchy withOrphan) = ["r"]
  ∧ (children <$> fst (getHierarchy withOrphan) !! "r") = Some ["k"]
  ∧ (children <$> fst (getHierarchy withOrphan) !! "o") = Some []
  ∧ forestIds (getHierarchy withOrphan) 4 = ["r"; "k"].
Proof. vm_compute. done. Qed.

Lemma C10_witness :
  ("o", plainCategory "Orphan" (Some "p")) ∈ findActiveSorted withOrphan
  ∧ "o" ∉ forestIds (getHierarchy withOrphan) 4.
Proof.
  destruct (C10_active_orphan_left_out_of_hierarchy withOrphan "o" "p"
              (plainCategory "Orphan" (Some "p"))) as (Hfetched & _ & _ & Hout).
  - vm_compute. reflexivity.
  - reflexivity.
  - reflexivity.
  - intros pc. vm_compute. intros [= <-]. reflexivity.
  - split; [exact Hfetched | apply Hout].
Defined.

(** ** Duplicating a technique *)

Lemma duplicate_ok (techs : gmap string Technique.t) now this userId :
  techniqueValidate (duplicateDoc this userId) = [] →
  let newId := fresh (dom techs) in
  let copy := Technique.set_timestamps now now (duplicateDoc this userId) in
  duplicate techs now this userId = inr (newId, copy, <[newId := copy]> techs).
Proof.
  intros Hval. unfold duplicate, techniqueSave. rewrite Hval.
  rewrite (bool_decide_eq_true_2 _ (fresh_id_unused techs)).
  unfold techniquePreSave. rewrite andb_false_r. reflexivity.
Qed.

(** C6, as stated, fails: of 'Phishing' at version 1.4 and switched
    off, the copy keeps neither the reference code, nor the version, nor
    the flag, none of which the claim lists among the exceptions. *)
Lemma C6_copy_drops_reference_code_and_version :
  ∃ newId copy,
    duplicateTechnique plainSend revisedCatalogue 7 someUser "t1"
    = mkOutcome
        [Send (mkResponse 201 None (Some "Técnica duplicada exitosamente")
                 (DuplicatedTechnique newId copy "t1"))]
        (mkDB (categories revisedCatalogue)
              (<[newId := copy]> (techniques revisedCatalogue)))
    ∧ Technique.mitreid revisedPhishing = Some "T1566"
    ∧ Technique.mitreid copy = None
    ∧ Technique.version revisedPhishing = "1.4"
    ∧ Technique.version copy = "1.0"
    ∧ Technique.isActive revisedPhishing = false
    ∧ Technique.isActive copy = true.
Proof.
  exists (fresh (dom (techniques revisedCatalogue))),
         (Technique.set_timestamps 7 7 (duplicateDoc revisedPhishing (Some "u1"))).
  split; [|repeat split; reflexivity].
  unfold duplicateTechnique.
  assert (techniques revisedCatalogue !! "t1" = Some revisedPhishing) as ->
    by apply lookup_singleton_eq.
  rewrite duplicate_ok by (vm_compute; reflexivity). reflexivity.
Qed.

(** C6, amended.  When the schema accepts the copy, [duplicateTechnique]
    stores, under an identifier that was not in use, a copy stamped with
    the time of the call whose revision history is empty, whose status
    is 'Draft', which has no image and no file location, whose name is
    the original's followed by ' (Copia)' and whose creator is the actor;
    description, category, tags, platforms, data sources, mitigation,
    detection, references, tactics, kill-chain phases, ISO reference and
    risk level are the original's.  The reference code is not copied, the
    version restarts at '1.0', the copy is active and has no last
    modifier.  When the schema refuses the copy (its name has grown by 8
    characters), the answer is the 500 and nothing is stored. *)
Theorem C6_duplicate_copies_content_and_resets_the_rest :
  ∀ (db : DB) now (user : User) (id : ObjectId) (this : Technique.t),
    techniques db !! id = Some this →
    (techniqueValidate (duplicateDoc this (Some (user_id user))) = [] →
     ∃ newId copy,
       duplicateTechnique plainSend db now user id
       = mkOutcome
           [Send (mkResponse 201 None (Some "Técnica duplicada exitosamente")
                    (DuplicatedTechnique newId copy id))]
           (mkDB (categories db) (<[newId := copy]> (techniques db)))
       ∧ techniques db !! newId = None
       ∧ Technique.createdAt copy = now ∧ Technique.updatedAt copy = now
       ∧ Technique.revisionHistory copy = []
       ∧ Technique.status copy = "Draft"
       ∧ Technique.image copy = None ∧ Technique.fileLocation copy = None
       ∧ Technique.name copy = Technique.name this +:+ " (Copia)"
       ∧ Technique.createdBy copy = Some (user_id user)
       ∧ Technique.description copy = Technique.description this
       ∧ Technique.category copy = Technique.category this
       ∧ Technique.tags copy = Technique.tags this
       ∧ Technique.platforms copy = Technique.platforms this
       ∧ Technique.datasources copy = Technique.datasources this
       ∧ Technique.mitigation copy = Technique.mitigation this
       ∧ Technique.detection copy = Technique.detection this
       ∧ Technique.references copy = Technique.references this
       ∧ Technique.tactics copy = Technique.tactics this
       ∧ Technique.killChainPhases copy = Technique.killChainPhases this
       ∧ Technique.iso27001Reference copy = Technique.iso27001Reference this
       ∧ Technique.riskLevel copy = Technique.riskLevel this
       ∧ Technique.mitreid copy = None
       ∧ Technique.version copy = "1.0"
       ∧ Technique.isActive copy = true
       ∧ Technique.lastModifiedBy copy = None)
    ∧ (techniqueValidate (duplicateDoc this (Some (user_id user))) ≠ [] →
       duplicateTechnique plainSend db now user id
       = mkOutcome
           [Send (failure 500 "Error interno del servidor" "Error al duplicar la técnica")]
           db).
Proof.
  intros db now user id this Hid. split.
  - intros Hval.
    exists (fresh (dom (techniques db))),
           (Technique.set_timestamps now now (duplicateDoc this (Some (user_id user)))).
    split.
    + unfold duplicateTechnique. rewrite Hid.
      rewrite (duplicate_ok (techniques db) now this (Some (user_id user)) Hval).
      reflexivity.
    + split; [apply fresh_id_unused|]. repeat split; reflexivity.
  - intros Hval. unfold duplicateTechnique, duplicate, techniqueSave. rewrite Hid.
    by destruct (techniqueValidate (duplicateDoc this (Some (user_id user)))).
Qed.

Lemma C6_witness :
  ∃ newId copy,
    db' (duplicateTechnique plainSend catalogue 7 someUser "t1")
    = mkDB (categories catalogue) (<[newId := copy]> (techniques catalogue))
    ∧ newId ≠ "t1"
    ∧ Technique.name copy = "Phishing (Copia)"
    ∧ Technique.revisionHistory copy = [].
Proof.
  destruct (proj1 (C6_duplicate_copies_content_and_resets_the_rest catalogue 7 someUser "t1"
                     phishing eq_refl))
    as (newId & copy & Hrun & Hnew & _ & _ & Hrev & _ & _ & _ & Hname & _).
  - vm_compute. reflexivity.
  - exists newId, copy. split; [by rewrite Hrun|]. split; [|split].
    + intros ->. revert Hnew. vm_compute. discriminate.
    + rewrite Hname. reflexivity.
    + exact Hrev.
Defined.

(** ** Version numbers *)

Lemma rev_app_append a : ∀ b r, String.rev_app a b +:+ r = String.rev_app a (b +:+ r).
Proof. induction a as [|c a IH]; intros b r; simpl; [done|]. by rewrite IH. Qed.

Lemma rev_cons_append c cur r :
  String.rev (String c cur) +:+ r = String.rev cur +:+ String c r.
Proof. unfold String.rev. simpl. by rewrite !rev_app_append. Qed.

Lemma splitGo_piece s :
  ∀ cur rest, noDot s = true →
    JS.splitGo "." cur (s +:+ String "." rest)
    = (String.rev cur +:+ s) :: JS.splitGo "." "" rest.
Proof.
  induction s as [|c s IH]; intros cur rest Hs; simpl.
  - unfold String.app. simpl. f_equal.
    unfold String.rev. rewrite rev_app_append. done.
  - simpl in Hs. apply andb_true_iff in Hs as [Hc Hs].
    apply negb_true_iff in Hc.
    change (String c s +:+ String "." rest) with (String c (s +:+ String "." rest)).
    simpl. rewrite Hc. rewrite IH by done. by rewrite rev_cons_append.
Qed.

Lemma splitGo_last s :
  ∀ cur, noDot s = true → JS.splitGo "." cur s = [String.rev cur +:+ s].
Proof.
  induction s as [|c s IH]; intros cur Hs; simpl.
  - unfold String.rev. rewrite rev_app_append. done.
  - simpl in Hs. apply andb_true_iff in Hs as [Hc Hs].
    apply negb_true_iff in Hc. rewrite Hc, IH by done.
    by rewrite rev_cons_append.
Qed.

Lemma split_two a b :
  noDot a = true → noDot b = true →
  JS.split "." (a +:+ "." +:+ b) = [a; b].
Proof.
  intros Ha Hb. unfold JS.split.
  change (a +:+ "." +:+ b) with (a +:+ String "." b).
  rewrite splitGo_piece by done. rewrite splitGo_last by done. done.
Qed.

Lemma split_one a : noDot a = true → JS.split "." a = [a].
Proof. intros Ha. unfold JS.split. by rewrite splitGo_last. Qed.

Lemma allDigits_noDot s : JS.allDigits s = true → noDot s = true.
Proof.
  induction s as [|c s IH]; simpl; [done|].
  intros H. apply andb_true_iff in H as [Hc Hs]. rewrite IH by done.
  rewrite andb_true_r. apply negb_true_iff.
  destruct (Ascii.eqb_spec c ".") as [->|]; [|done]. discriminate.
Qed.

Lemma allDigits_string_of_uint d : JS.allDigits (NilEmpty.string_of_uint d) = true.
Proof. induction d; simpl; auto. Qed.

Lemma Number_showN n : JS.Number (showN n) = JS.Num n.
Proof.
  unfold showN, JS.Number. simpl.
  rewrite allDigits_string_of_uint, NilEmpty.usu.
  by rewrite DecimalN.Unsigned.of_to.
Qed.

Lemma showN_noDot n : noDot (showN n) = true.
Proof. apply allDigits_noDot, allDigits_string_of_uint. Qed.

Lemma append_dot_nonempty a b : String.eqb (a +:+ "." +:+ b) "" = false.
Proof. by destruct a. Qed.

(** The dotted-increment rule on a version with two numeric components. *)
Lemma nextVersion_two (major minor : N) :
  nextVersion (showN major +:+ "." +:+ showN minor)
  = showN major +:+ "." +:+ showN (minor + 1).
Proof.
  unfold nextVersion. rewrite append_dot_nonempty.
  rewrite split_two by apply showN_noDot.
  simpl. by rewrite !Number_showN.
Qed.

Lemma showN_allDigits n : JS.allDigits (showN n) = true.
Proof. apply allDigits_string_of_uint. Qed.

(** A version of digits without a dot gets the component 0, which is
    then incremented. *)
Lemma nextVersion_one s :
  s ≠ "" → JS.allDigits s = true →
  nextVersion s = JS.numberToString (JS.Number s) +:+ ".1".
Proof.
  intros Hne Hs. unfold nextVersion.
  destruct (String.eqb_spec s "") as [->|_]; [done|].
  rewrite split_one by (by apply allDigits_noDot). reflexivity.
Qed.

(** ** Updating the description of a technique *)

(** The validators read the name, the description, the risk level and the
    status only. *)
Lemma techniqueValidate_ext (a b : Technique.t) :
  Technique.name a = Technique.name b →
  Technique.description a = Technique.description b →
  Technique.riskLevel a = Technique.riskLevel b →
  Technique.status a = Technique.status b →
  techniqueValidate a = techniqueValidate b.
Proof. unfold techniqueValidate. by intros -> -> -> ->. Qed.

Lemma changeLine_nonempty key old new : String.eqb (changeLine key old new) "" = false.
Proof.
  unfold changeLine. destruct key; [|done].
  change ("" +:+ ": " +:+ old +:+ " → " +:+ new)
    with (String ":" (" " +:+ old +:+ " → " +:+ new)). done.
Qed.

Lemma putTechnique_description (db : DB) now user id t d :
  techniques db !! id = Some t →
  role user = admin ∨ Technique.createdBy t = Some (user_id user) →
  d ≠ Technique.description t →
  techniqueValidate (Technique.set_description d t) = [] →
  (∀ m, Technique.mitreid t = Some m → mitreidUsed (techniques db) (Some id) m = false) →
  putTechnique db now user None id [FDescription d]
  = mkOutcome
      [Send (mkResponse 200 None (Some "Técnica actualizada exitosamente")
               (UpdatedTechnique id (redescribed now (user_id user) d t) 1))]
      (mkDB (categories db) (<[id := redescribed now (user_id user) d t]> (techniques db))).
Proof.
  intros Hid Hperm Hd Hval Hindex.
  unfold putTechnique, updateTechnique. simpl multerFields.
  simpl processUploadedFiles. rewrite Hid.
  assert (negb (bool_decide (role user = admin))
          && bool_decide (Technique.createdBy t = None) = false) as ->.
  { destruct Hperm as [Hr|Hc].
    - by rewrite (bool_decide_eq_true_2 _ Hr).
    - rewrite (bool_decide_eq_false_2 (Technique.createdBy t = None)) by congruence.
      apply andb_false_r. }
  assert (negb (bool_decide (role user = admin))
          && negb (bool_decide (Technique.createdBy t = Some (user_id user))) = false) as ->.
  { destruct Hperm as [Hr|Hc].
    - by rewrite (bool_decide_eq_true_2 _ Hr).
    - rewrite (bool_decide_eq_true_2 _ Hc). apply andb_false_r. }
  change (lookupCategory [FDescription d]) with (@None string).
  change (lookupMitreid [FDescription d]) with (@None string).
  simpl JS.falsy. simpl negb. simpl andb. simpl processedField.
  cbn [flat_map changeOf foldl assignField app].
  destruct (String.eqb_spec (Technique.description t) d) as [Heq|_]; [congruence|].
  cbn [app JS.join length].
  assert (techniqueSave (techniques db) now id false None
            (addRevision now (changeLine "description" (Technique.description t) d)
               (Some (user_id user))
               (Technique.set_lastModifiedBy (Some (user_id user))
                  (Technique.set_description d t)))
          = inr (redescribed now (user_id user) d t,
                 <[id := redescribed now (user_id user) d t]> (techniques db))) as ->.
  { unfold techniqueSave.
    rewrite (techniqueValidate_ext _ (Technique.set_description d t)) by reflexivity.
    rewrite Hval.
    rewrite (bool_decide_eq_false_2 (techniques db !! id = None)) by congruence.
    unfold techniquePreSave. rewrite !andb_false_r.
    unfold redescribed.
    destruct (Technique.mitreid t) as [m|] eqn:Hm.
    - cbn [Technique.mitreid Technique.set_timestamps addRevision
           Technique.set_lastModifiedBy Technique.set_version
           Technique.set_revisionHistory Technique.set_description].
      rewrite Hm, (Hindex m eq_refl). reflexivity.
    - cbn [Technique.mitreid Technique.set_timestamps addRevision
           Technique.set_lastModifiedBy Technique.set_version
           Technique.set_revisionHistory Technique.set_description].
      rewrite Hm. reflexivity. }
  reflexivity.
Qed.

Lemma showN_nonempty n : showN n ≠ "".
Proof.
  intros H. pose proof (Number_showN n) as Hn. rewrite H in Hn.
  injection Hn as <-. discriminate H.
Qed.

(** On the versions of [incremented] the version computed by
    [addRevision] is the one that the dotted-increment rule gives. *)
Lemma incremented_nextVersion version next :
  incremented version next → nextVersion version = next.
Proof.
  intros (major & minor & _ & _ & [->|[-> ->]] & ->).
  - apply nextVersion_two.
  - rewrite nextVersion_one; [|apply showN_nonempty|apply showN_allDigits].
    by rewrite Number_showN.
Qed.

(** C2.  An update whose body holds only a new description, sent by the
    creator or an administrator and accepted by the schema, answers 200
    with one change, appends exactly one revision entry, whose text is
    'description: old → new', and moves the version to the next one; the
    other content is untouched.  The next version adds one to the second
    dotted component: '1.0' gives '1.1', '1.9' gives '1.10', and a version
    without a second component is read as having 0 there.  All of it is
    stated for versions written in decimal digits with components below
    2^53, where the numbers of JavaScript are exact. *)
Theorem C2_description_update_adds_one_revision :
  (∀ (db : DB) now user id t d next,
     techniques db !! id = Some t →
     role user = admin ∨ Technique.createdBy t = Some (user_id user) →
     d ≠ Technique.description t →
     techniqueValidate (Technique.set_description d t) = [] →
     (∀ m, Technique.mitreid t = Some m → mitreidUsed (techniques db) (Some id) m = false) →
     incremented (Technique.version t) next →
     ∃ t',
       putTechnique db now user None id [FDescription d]
       = mkOutcome
           [Send (mkResponse 200 None (Some "Técnica actualizada exitosamente")
                    (UpdatedTechnique id t' 1))]
           (mkDB (categories db) (<[id := t']> (techniques db)))
       ∧ Technique.revisionHistory t'
         = Technique.revisionHistory t
           ++ [mkRevision next
                 ("description: " +:+ Technique.description t +:+ " → " +:+ d)
                 (Some (user_id user)) now]
       ∧ Technique.version t' = next
       ∧ Technique.description t' = d
       ∧ Technique.name t' = Technique.name t
       ∧ Technique.mitreid t' = Technique.mitreid t
       ∧ Technique.category t' = Technique.category t
       ∧ Technique.tags t' = Technique.tags t
       ∧ Technique.status t' = Technique.status t
       ∧ Technique.platforms t' = Technique.platforms t
       ∧ Technique.tactics t' = Technique.tactics t
       ∧ Technique.riskLevel t' = Technique.riskLevel t
       ∧ Technique.image t' = Technique.image t
       ∧ Technique.fileLocation t' = Technique.fileLocation t
       ∧ Technique.isActive t' = Technique.isActive t
       ∧ Technique.createdBy t' = Technique.createdBy t)
  ∧ nextVersion "1.0" = "1.1"
  ∧ nextVersion "1.9" = "1.10"
  ∧ (∀ major minor : N,
       (major < 2 ^ 53)%N → (minor + 1 < 2 ^ 53)%N →
       nextVersion (showN major +:+ "." +:+ showN minor)
       = showN major +:+ "." +:+ showN (minor + 1))
  ∧ (∀ major : N,
       (major < 2 ^ 53)%N →
       nextVersion (showN major) = showN major +:+ "." +:+ showN 1)
  ∧ (∀ (s : string) (n : N),
       s ≠ "" → JS.allDigits s = true → JS.Number s = JS.Num n → (n < 2 ^ 53)%N →
       nextVersion s = showN n +:+ "." +:+ showN 1).
Proof.
  split; [|split; [reflexivity|split; [reflexivity|split; [|split]]]].
  - intros db now user id t d next Hid Hperm Hd Hval Hindex Hnext.
    exists (redescribed now (user_id user) d t). split.
    + by apply putTechnique_description.
    + apply incremented_nextVersion in Hnext.
      unfold redescribed, addRevision. rewrite changeLine_nonempty.
      cbn [Technique.version Technique.set_lastModifiedBy Technique.set_description].
      rewrite Hnext. repeat split; reflexivity.
  - intros major minor _ _. apply nextVersion_two.
  - intros major _. rewrite nextVersion_one.
    + by rewrite Number_showN.
    + apply showN_nonempty.
    + apply showN_allDigits.
  - intros s n Hne Hs Hn _. rewrite nextVersion_one.
    + by rewrite Hn.
    + done.
    + done.
Qed.

Lemma C2_witness :
  ∃ t',
    techniques (db' (putTechnique catalogue 8 someUser None "t1"
                       [FDescription "Mail with a malicious link"])) !! "t1" = Some t'
    ∧ Technique.version t' = "1.1"
    ∧ length (Technique.revisionHistory t') = 1.
Proof.
  destruct (proj1 C2_description_update_adds_one_revision catalogue 8 someUser "t1"
              phishing "Mail with a malicious link" "1.1")
    as (t' & Hrun & Hrev & Hver & _).
  - vm_compute. reflexivity.
  - right. reflexivity.
  - discriminate.
  - vm_compute. reflexivity.
  - intros m [= <-]. vm_compute. reflexivity.
  - exists 1%N, 0%N. split; [reflexivity|]. split; [reflexivity|].
    split; [left|]; reflexivity.
  - exists t'. rewrite Hrun. simpl. split; [apply lookup_insert_eq|].
    split; [exact Hver | rewrite Hrev; reflexivity].
Defined.

(** ** Creating a technique *)

Lemma responseOf_pre_send pre files r db :
  responseOf (mkOutcome (pre ++ cleanupSend files r) db) = Some r.
Proof.
  unfold responseOf, cleanupSend. simpl.
  rewrite app_assoc, last_snoc. done.
Qed.

Lemma responseOf_send files r db :
  responseOf (mkOutcome (cleanupSend files r) db) = Some r.
Proof. apply (responseOf_pre_send []). Qed.

Lemma findById_None {A} (coll : gmap string A) id :
  findById coll id = None ↔ coll !! id = None.
Proof. unfold findById. destruct (coll !! id); simpl; split; congruence. Qed.

(** The answers of [createTechnique], branch by branch. *)
Lemma postTechnique_error (db : DB) now user uploads body :
  let o := postTechnique db now user uploads body in
  if requiredMissing body then
    responseOf o = Some (failure 400 "Datos incompletos"
                           "Nombre, descripción y categoría son requeridos")
    ∧ db' o = db
  else
    match tb_category body with
    | Some (Castable category) =>
        if bool_decide (categories db !! category = None) then
          responseOf o = Some (failure 400 "Categoría no encontrada"
                                 "La categoría especificada no existe")
          ∧ db' o = db
        else if negb (JS.falsy (tb_mitreid body))
                && mitreidUsed (techniques db) None (JS.trim (default "" (tb_mitreid body)))
        then
          responseOf o = Some (failure 400 "MITRE ID duplicado"
                                 "Ya existe una técnica con ese MITRE ID")
          ∧ db' o = db
        else
          responseError o = None
          ∨ responseError o = Some "Error de validación"
          ∨ responseError o = Some "Error interno del servidor"
    | _ =>
        responseOf o = Some (failure 500 "Error interno del servidor"
                               "Error al crear la técnica")
        ∧ db' o = db
    end.
Proof.
  unfold postTechnique, createTechnique, requiredMissing. simpl.
  destruct (JS.falsy (tb_name body) || JS.falsy (tb_description body)
            || JS.falsy (idText <$> tb_category body)).
  { split; [apply responseOf_send | done]. }
  destruct (tb_category body) as [[category|text]|].
  2,3: split; [apply responseOf_pre_send | done].
  rewrite (bool_decide_ext _ _ (findById_None (categories db) _)).
  destruct (bool_decide (categories db !! category = None)).
  { split; [apply responseOf_send | done]. }
  destruct (negb (JS.falsy (tb_mitreid body))
            && mitreidUsed (techniques db) None (JS.trim (default "" (tb_mitreid body)))).
  { split; [apply responseOf_send | done]. }
  match goal with |- context [techniqueSave ?a ?b ?c ?d ?e ?f] =>
    destruct (techniqueSave a b c d e f) as [[errors| |]|[technique techs']] end;
    unfold responseError.
  - right. left. by rewrite responseOf_pre_send.
  - right. right. by rewrite responseOf_pre_send.
  - right. right. by rewrite responseOf_pre_send.
  - left. by rewrite responseOf_send.
Qed.

(** The failing input of C7: a create that supplies a name and a
    description but no category is answered with the 400 'Datos
    incompletos', and nothing is stored. *)
Lemma C7_category_is_required :
  JS.falsy (tb_name noCategoryBody) = false
  ∧ JS.falsy (tb_description noCategoryBody) = false
  ∧ tb_category noCategoryBody = None
  ∧ responseOf (postTechnique catalogue 6 someUser None noCategoryBody)
    = Some (failure 400 "Datos incompletos"
              "Nombre, descripción y categoría son requeridos")
  ∧ db' (postTechnique catalogue 6 someUser None noCategoryBody) = catalogue.
Proof. repeat split; vm_compute; reflexivity. Qed.

(** C7.  [createTechnique] requires the category, which the schema
    declares optional: it answers with the 400 'Datos incompletos'
    exactly when the name, the description or the category is missing or
    empty; in particular a create with a name and a description and no
    category is refused.  When the three are supplied and the category is
    the text of an [ObjectId], the answer is the 400 'Categoría no
    encontrada' exactly when no such category is stored; when it is any
    other text, [findById] throws and the answer is the 500.  None of
    these answers stores anything. *)
Theorem C7_create_requires_name_description_category :
  ∀ (db : DB) now user uploads body,
    let o := postTechnique db now user uploads body in
    (responseError o = Some "Datos incompletos"
     ↔ JS.falsy (tb_name body) = true ∨ JS.falsy (tb_description body) = true
       ∨ JS.falsy (idText <$> tb_category body) = true)
    ∧ (responseError o = Some "Datos incompletos" → db' o = db)
    ∧ (JS.falsy (tb_name body) = false → JS.falsy (tb_description body) = false →
       (tb_category body = None →
        responseOf o = Some (failure 400 "Datos incompletos"
                               "Nombre, descripción y categoría son requeridos")
        ∧ db' o = db)
       ∧ (∀ c, tb_category body = Some (Castable c) → c ≠ "" →
            (responseError o = Some "Categoría no encontrada" ↔ categories db !! c = None)
            ∧ (responseError o = Some "Categoría no encontrada" → db' o = db))
       ∧ (∀ text, tb_category body = Some (Uncastable text) → text ≠ "" →
            responseOf o = Some (failure 500 "Error interno del servidor"
                                   "Error al crear la técnica")
            ∧ db' o = db)).
Proof.
  intros db now user uploads body o.
  pose proof (postTechnique_error db now user uploads body) as H. fold o in H.
  unfold requiredMissing in H. unfold responseError in *.
  destruct (JS.falsy (tb_name body)) eqn:Hn; simpl in H.
  { destruct H as [-> ->]. simpl. repeat split; auto; intros; done. }
  destruct (JS.falsy (tb_description body)) eqn:Hd; simpl in H.
  { destruct H as [-> ->]. simpl. repeat split; auto; intros; done. }
  destruct (tb_category body) as [[c|text]|] eqn:Hcat; simpl in H.
  - destruct c as [|ch c]; simpl in H.
    { destruct H as [-> ->]. simpl. split; [split; auto|]. split; [done|].
      intros _ _. split; [done|]. split; [|done]. intros c' [= <-] ?. done. }
    set (c0 := String ch c) in *.
    destruct (bool_decide (categories db !! c0 = None)) eqn:Hfind.
    { destruct H as [-> ->]. simpl. apply bool_decide_eq_true in Hfind.
      split; [split; [done | intros [?|[?|?]]; done]|]. split; [done|].
      intros _ _. split; [done|]. split; [|done]. intros c' [= <-] _. done. }
    apply bool_decide_eq_false in Hfind.
    destruct (negb (JS.falsy (tb_mitreid body)) && _).
    { destruct H as [-> ->]. simpl.
      split; [split; [done | intros [?|[?|?]]; done]|]. split; [done|].
      intros _ _. split; [done|]. split; [|done]. intros c' [= <-] _.
      split; [split; [done | intros ?; done] | done]. }
    split; [split; [|intros [?|[?|?]]; done]|split].
    + intros He. destruct H as [H|[H|H]]; rewrite H in He; done.
    + intros He. destruct H as [H|[H|H]]; rewrite H in He; done.
    + intros _ _. split; [done|]. split; [|done]. intros c' [= <-] _.
      split; [split|].
      * intros He. destruct H as [H|[H|H]]; rewrite H in He; done.
      * intros ?. done.
      * intros He. destruct H as [H|[H|H]]; rewrite H in He; done.
  - destruct text as [|ch text]; simpl in H.
    { destruct H as [-> ->]. simpl. split; [split; auto|]. split; [done|].
      intros _ _. split; [done|]. split; [done|]. intros t' [= <-] ?. done. }
    destruct H as [-> ->]. simpl.
    split; [split; [done | intros [?|[?|?]]; done]|]. split; [done|].
    intros _ _. split; [done|]. split; [done|]. intros t' [= <-] _. done.
  - destruct H as [-> ->]. simpl. split; [split; auto|]. split; [done|].
    intros _ _. split; [done|]. split; done.
Qed.

Lemma C7_witness :
  responseError (postTechnique catalogue 6 someUser None noCategoryBody)
  = Some "Datos incompletos"
  ∧ responseError (postTechnique catalogue 6 someUser None unknownCategoryBody)
    = Some "Categoría no encontrada"
  ∧ status <$> responseOf (postTechnique catalogue 6 someUser None uncastableCategoryBody)
    = Some 500.
Proof.
  split; [|split].
  - apply (proj1 (C7_create_requires_name_description_category
                    catalogue 6 someUser None noCategoryBody)).
    right. right. reflexivity.
  - apply (proj1 (proj1 (proj2 (proj2 (proj2 (C7_create_requires_name_description_category
                                  catalogue 6 someUser None unknownCategoryBody))
                   eq_refl eq_refl))
                   "64b7f0c2a1d3e4f5a6b7c8d9" eq_refl ltac:(discriminate))).
    vm_compute. reflexivity.
  - rewrite (proj1 (proj2 (proj2 (proj2 (proj2 (C7_create_requires_name_description_category
                                  catalogue 6 someUser None uncastableCategoryBody))
                   eq_refl eq_refl))
                   "zz" eq_refl ltac:(discriminate))).
    reflexivity.
Defined.

(** ** A duplicate reference code *)

Lemma mitreidUsed_any (techs : gmap string Technique.t) x t m :
  techs !! x = Some t → Technique.mitreid t = Some m →
  mitreidUsed techs None m = true.
Proof.
  intros Hx Hm. unfold mitreidUsed. apply existsb_exists.
  exists (x, t). split.
  - apply list_elem_of_In. by apply elem_of_map_to_list.
  - simpl. rewrite (bool_decide_eq_true_2 _ Hm). reflexivity.
Qed.

Lemma filesToDelete_multerFields (l : list (string * list File.t)) :
  flat_map (λ kv : string * FieldFiles,
              match kv.2 with
              | Many fs => map File.path fs
              | One _ => []
              end)
           (map (λ kv : string * list File.t, (kv.1, Many kv.2)) l)
  = flat_map (λ kv : string * list File.t, map File.path kv.2) l.
Proof. induction l as [|[k fs] l IH]; simpl; [done|]. by rewrite IH. Qed.

(** On an error status the wrapper of [cleanupOnError] unlinks every
    stored upload, then sends. *)
Lemma cleanupSend_error uploads r :
  400 ≤ status r →
  cleanupSend (multerFields uploads) r = map Unlink (uploadedPaths uploads) ++ [Send r].
Proof.
  intros Hs. unfold cleanupSend. apply Nat.leb_le in Hs. rewrite Hs.
  destruct uploads as [l|]; simpl; [|done].
  by rewrite filesToDelete_multerFields.
Qed.

Lemma runEvents_stays_out p events :
  ∀ store, p ∉ store → p ∉ runEvents store events.
Proof.
  induction events as [|e events IH]; intros store Hp; simpl; [done|].
  apply IH. destruct e; simpl; set_solver.
Qed.

Lemma runEvents_unlinked p paths rest :
  ∀ store, p ∈ paths → p ∉ runEvents store (map Unlink paths ++ rest).
Proof.
  induction paths as [|q paths IH]; intros store Hp.
  - by apply not_elem_of_nil in Hp.
  - simpl. destruct (decide (p = q)) as [->|Hne].
    + apply runEvents_stays_out. set_solver.
    + apply IH. apply elem_of_cons in Hp as [?|?]; done.
Qed.

Lemma runEvents_app store a b : runEvents store (a ++ b) = runEvents (runEvents store a) b.
Proof. unfold runEvents. by rewrite foldl_app. Qed.

(** C8.  A create whose reference code, trimmed as the schema trims it,
    is already carried by a stored technique is refused: nothing is
    stored, and every file uploaded with the request is unlinked before
    the response is sent, so that none of them is left in the blob store.
    The answer has status 400; only a category that is no [ObjectId]
    makes [findById] throw before the reference code is looked at, which
    gives the 500 of the catch block, after that block has unlinked the
    files a first time.  When the name, the description and an existing
    category are supplied, the answer is the 'MITRE ID duplicado'
    error. *)
Theorem C8_duplicate_reference_code_leaves_nothing_behind :
  ∀ (db : DB) now user uploads body m x t (store : gset string),
    tb_mitreid body = Some m → m ≠ "" →
    techniques db !! x = Some t → Technique.mitreid t = Some (JS.trim m) →
    let o := postTechnique db now user uploads body in
    ∃ pre r,
      events o = pre ++ map Unlink (uploadedPaths uploads) ++ [Send r]
      ∧ db' o = db
      ∧ (∀ p, p ∈ uploadedPaths uploads → p ∉ runEvents store (events o))
      ∧ (status r = 400 ∧ pre = []
         ∨ status r = 500
           ∧ pre = cleanupProcessed (processUploadedFiles (multerFields uploads))
           ∧ requiredMissing body = false
           ∧ ∃ text, tb_category body = Some (Uncastable text))
      ∧ (requiredMissing body = false →
         ∀ c, tb_category body = Some (Castable c) → is_Some (categories db !! c) →
              r = failure 400 "MITRE ID duplicado" "Ya existe una técnica con ese MITRE ID").
Proof.
  intros db now user uploads body m x t store Hm Hne Hx Ht o.
  assert (negb (JS.falsy (tb_mitreid body))
          && mitreidUsed (techniques db) None (JS.trim (default "" (tb_mitreid body)))
          = true) as Hdup.
  { rewrite Hm. simpl. rewrite (mitreidUsed_any _ _ _ _ Hx Ht).
    destruct m; [done | reflexivity]. }
  assert (∃ pre r,
            o = mkOutcome (pre ++ cleanupSend (multerFields uploads) r) db
            ∧ 400 ≤ status r
            ∧ (status r = 400 ∧ pre = []
               ∨ status r = 500
                 ∧ pre = cleanupProcessed (processUploadedFiles (multerFields uploads))
                 ∧ requiredMissing body = false
                 ∧ ∃ text, tb_category body = Some (Uncastable text))
            ∧ (requiredMissing body = false →
               ∀ c, tb_category body = Some (Castable c) → is_Some (categories db !! c) →
                    r = failure 400 "MITRE ID duplicado"
                          "Ya existe una técnica con ese MITRE ID"))
    as (pre & r & Ho & Hs & Hcase & Hr).
  { subst o. unfold postTechnique, createTechnique, requiredMissing.
    destruct (JS.falsy (tb_name body) || JS.falsy (tb_description body)
              || JS.falsy (idText <$> tb_category body)) eqn:Hreq.
    { exists [], (failure 400 "Datos incompletos"
                    "Nombre, descripción y categoría son requeridos").
      split; [reflexivity|]. split; [simpl; lia|]. split; [by left | done]. }
    destruct (tb_category body) as [[category|text]|] eqn:Hcat.
    - rewrite (bool_decide_ext _ _ (findById_None (categories db) _)).
      destruct (bool_decide (categories db !! category = None)) eqn:Hfind.
      { exists [], (failure 400 "Categoría no encontrada"
                      "La categoría especificada no existe").
        split; [reflexivity|]. split; [simpl; lia|]. split; [by left|].
        apply bool_decide_eq_true in Hfind. intros _ c [= <-] [d Hd]. congruence. }
      rewrite Hdup.
      exists [], (failure 400 "MITRE ID duplicado" "Ya existe una técnica con ese MITRE ID").
      split; [reflexivity|]. split; [simpl; lia|]. split; [by left | done].
    - eexists _, _. split; [reflexivity|]. split; [simpl; lia|].
      split; [|done]. right. split; [reflexivity|]. split; [reflexivity|].
      split; [reflexivity | by exists text].
    - eexists _, _. split; [reflexivity|]. split; [simpl; lia|].
      split; [|done]. simpl in Hreq. by rewrite !orb_true_r in Hreq. }
  exists pre, r. rewrite Ho. simpl. rewrite cleanupSend_error by lia.
  split; [done|]. split; [done|]. split; [|done].
  intros p Hp. rewrite runEvents_app. by apply runEvents_unlinked.
Qed.

Lemma C8_witness :
  events (postTechnique catalogue 6 someUser (Some [("image", [screenshot])]) spacedPhishing)
  = [Unlink "uploads/images/shot-1.png";
     Send (failure 400 "MITRE ID duplicado" "Ya existe una técnica con ese MITRE ID")]
  ∧ "uploads/images/shot-1.png"
    ∉ runEvents {["uploads/images/shot-1.png"]}
        (events (postTechnique catalogue 6 someUser (Some [("image", [screenshot])])
                   spacedPhishing)).
Proof.
  destruct (C8_duplicate_reference_code_leaves_nothing_behind catalogue 6 someUser
              (Some [("image", [screenshot])]) spacedPhishing " T1566 " "t1" phishing
              {["uploads/images/shot-1.png"]})
    as (pre & r & Hev & _ & Hgone & Hcase & Hr).
  - reflexivity.
  - discriminate.
  - vm_compute. reflexivity.
  - reflexivity.
  - split.
    + destruct Hcase as [[_ ->] | (_ & _ & _ & text & Htext)]; [|discriminate Htext].
      rewrite Hev, (Hr eq_refl "c1" eq_refl); [reflexivity|]. vm_compute. eauto.
    + apply Hgone. simpl. left.
Defined.

(** ** Slugs *)

Lemma isSlugChar_not_dash c : JS.isSlugChar c = true → isDash c = false.
Proof.
  unfold isDash. destruct (Ascii.eqb_spec c "-") as [->|]; [|done]. discriminate.
Qed.

Lemma replaceRuns_shape s :
  ∀ inRun,
    slugChars (JS.replaceRuns inRun s) = true
    ∧ noDashPair (JS.replaceRuns inRun s) = true
    ∧ (inRun = true → startsWithDash (JS.replaceRuns inRun s) = false).
Proof.
  induction s as [|c s IH]; intros inRun; simpl; [done|].
  destruct (JS.isSlugChar c) eqn:Hc.
  - destruct (IH false) as (H1 & H2 & _). simpl.
    rewrite Hc, H1, H2, (isSlugChar_not_dash c Hc). done.
  - destruct (IH true) as (H1 & H2 & H3). destruct inRun; [done|].
    assert (JS.isSlugChar "-" || isDash "-" = true) as Hdash by reflexivity.
    cbn [slugChars noDashPair startsWithDash].
    rewrite Hdash, H1, H2, (H3 eq_refl), andb_false_r. done.
Qed.

Lemma dropLeadingDash_shape s :
  slugChars s = true → noDashPair s = true →
  slugChars (JS.dropLeadingDash s) = true
  ∧ noDashPair (JS.dropLeadingDash s) = true
  ∧ startsWithDash (JS.dropLeadingDash s) = false.
Proof.
  destruct s as [|c r]; simpl; [done|]. intros Hchars Hpair.
  apply andb_true_iff in Hchars as [Hc Hchars].
  apply andb_true_iff in Hpair as [Hcp Hpair].
  fold (isDash c). destruct (isDash c) eqn:Hd.
  - simpl in Hcp. apply negb_true_iff in Hcp. done.
  - simpl. rewrite Hd, Hc, Hchars, Hpair. done.
Qed.

Lemma dropTrailingDash_empty s :
  JS.dropTrailingDash s = "" → s = "" ∨ startsWithDash s = true.
Proof.
  destruct s as [|c [|d r]]; simpl; [by left| |done].
  fold (isDash c). destruct (isDash c); [by right | done].
Qed.

Lemma dropTrailingDash_start s :
  startsWithDash (JS.dropTrailingDash s) = true → startsWithDash s = true.
Proof.
  destruct s as [|c [|d r]]; simpl; [done| |done].
  fold (isDash c). by destruct (isDash c) eqn:Hc; simpl; rewrite ?Hc.
Qed.

Lemma dropTrailingDash_chars s :
  slugChars s = true → slugChars (JS.dropTrailingDash s) = true.
Proof.
  induction s as [|c r IH]; [done|]. intros H. simpl in H.
  apply andb_true_iff in H as [Hc Hr]. destruct r as [|d r'].
  - simpl. destruct (Ascii.eqb c "-"); [done|]. simpl. by rewrite Hc.
  - change (JS.dropTrailingDash (String c (String d r')))
      with (String c (JS.dropTrailingDash (String d r'))).
    cbn [slugChars]. by rewrite Hc, IH.
Qed.

Lemma dropTrailingDash_pairs s :
  noDashPair s = true → noDashPair (JS.dropTrailingDash s) = true.
Proof.
  induction s as [|c r IH]; [done|]. intros H. simpl in H.
  apply andb_true_iff in H as [Hc Hr]. destruct r as [|d r'].
  - simpl. destruct (Ascii.eqb c "-"); [done|]. simpl. by rewrite andb_false_r.
  - change (JS.dropTrailingDash (String c (String d r')))
      with (String c (JS.dropTrailingDash (String d r'))).
    cbn [noDashPair]. rewrite IH by done. rewrite andb_true_r.
    apply negb_true_iff. apply negb_true_iff in Hc.
    destruct (isDash c); [|done]. simpl in *.
    destruct (startsWithDash (JS.dropTrailingDash (String d r'))) eqn:Hs; [|done].
    apply dropTrailingDash_start in Hs. simpl in Hs. congruence.
Qed.

Lemma dropTrailingDash_end s :
  noDashPair s = true → endsWithDash (JS.dropTrailingDash s) = false.
Proof.
  induction s as [|c r IH]; [done|]. intros H. simpl in H.
  apply andb_true_iff in H as [Hc Hr]. destruct r as [|d r'].
  - simpl. fold (isDash c). destruct (isDash c) eqn:Hd; [done|]. simpl. done.
  - change (JS.dropTrailingDash (String c (String d r')))
      with (String c (JS.dropTrailingDash (String d r'))).
    specialize (IH Hr).
    destruct (JS.dropTrailingDash (String d r')) as [|e t] eqn:Hrest.
    + simpl. apply dropTrailingDash_empty in Hrest as [?|Hs]; [done|].
      rewrite Hs, andb_true_r in Hc. by apply negb_true_iff in Hc.
    + exact IH.
Qed.

(** The base slug has the shape of a slug. *)
Lemma baseSlugOf_shaped name : slugShaped (baseSlugOf name) = true.
Proof.
  unfold baseSlugOf, JS.trimDashes, slugShaped.
  destruct (replaceRuns_shape (JS.toLowerCase name) false) as (H1 & H2 & _).
  destruct (dropLeadingDash_shape _ H1 H2) as (H3 & H4 & H5).
  rewrite dropTrailingDash_chars, dropTrailingDash_pairs, dropTrailingDash_end by done.
  destruct (startsWithDash (JS.dropTrailingDash _)) eqn:Hs; [|done].
  apply dropTrailingDash_start in Hs. congruence.
Qed.

Lemma natToString_inj a b : JS.natToString a = JS.natToString b → a = b.
Proof.
  unfold JS.natToString. intros H.
  apply (f_equal NilEmpty.uint_of_string) in H. rewrite !NilEmpty.usu in H.
  injection H as H. by apply DecimalNat.Unsigned.to_uint_inj.
Qed.

Lemma string_app_nil_r s : s +:+ "" = s.
Proof. induction s as [|c s IH]; [done|]. unfold String.app in *. simpl. by rewrite IH. Qed.

#[global] Instance slugCandidate_inj baseSlug : Inj (=) (=) (slugCandidate baseSlug).
Proof.
  intros j k H. destruct j as [|j], k as [|k]; simpl in H; [done| | |].
  - rewrite <- (string_app_nil_r baseSlug) in H at 1.
    apply String.app_inj in H. discriminate H.
  - rewrite <- (string_app_nil_r baseSlug) in H at 2.
    apply String.app_inj in H. discriminate H.
  - apply String.app_inj in H. by apply String.app_inj, natToString_inj in H.
Qed.

(** The loop returns the first candidate, from the one under test on,
    that is not taken; it runs out of fuel only if every candidate it
    could test is taken. *)
Lemma probeSlug_spec taken baseSlug fuel :
  ∀ k,
    match probeSlug taken baseSlug fuel (S k) (slugCandidate baseSlug k) with
    | Some r =>
        ∃ j, k ≤ j ≤ k + fuel ∧ r = slugCandidate baseSlug j
             ∧ taken (slugCandidate baseSlug j) = false
             ∧ ∀ i, k ≤ i < j → taken (slugCandidate baseSlug i) = true
    | None => ∀ i, k ≤ i ≤ k + fuel → taken (slugCandidate baseSlug i) = true
    end.
Proof.
  induction fuel as [|fuel IH]; intros k; simpl.
  - destruct (taken (slugCandidate baseSlug k)) eqn:Hk.
    + intros i Hi. by replace i with k by lia.
    + exists k. repeat split; [lia | lia | done | intros; lia].
  - destruct (taken (slugCandidate baseSlug k)) eqn:Hk.
    + specialize (IH (S k)). simpl slugCandidate in IH at 1.
      destruct (probeSlug taken baseSlug fuel (S (S k))
                  (baseSlug +:+ "-" +:+ JS.natToString (S k))) as [r|].
      * destruct IH as (j & Hj & -> & Hfree & Hbefore).
        exists j. repeat split; [lia | lia | done |].
        intros i Hi. destruct (decide (i = k)) as [->|]; [done|]. apply Hbefore. lia.
      * intros i Hi. destruct (decide (i = k)) as [->|]; [done|]. apply IH. lia.
    + exists k. repeat split; [lia | lia | done | intros; lia].
Qed.

Lemma slugTaken_true (cats : gmap string Category.t) self s :
  slugTaken cats self s = true
  ↔ ∃ x c, cats !! x = Some c ∧ x ≠ self ∧ Category.slug c = s.
Proof.
  unfold slugTaken. rewrite existsb_exists. split.
  - intros ([x c] & Hin & Hb). apply list_elem_of_In, elem_of_map_to_list in Hin.
    simpl in Hb. apply andb_true_iff in Hb as [Hs Hx].
    apply bool_decide_eq_true in Hs. apply negb_true_iff, bool_decide_eq_false in Hx.
    eauto.
  - intros (x & c & Hx & Hne & Hs). exists (x, c). split.
    + apply list_elem_of_In. by apply elem_of_map_to_list.
    + simpl. rewrite (bool_decide_eq_true_2 _ Hs).
      by rewrite (bool_decide_eq_false_2 _ Hne).
Qed.

(** There are more candidates than documents: one of the first
    [size cats + 1] is free. *)
Lemma slugCandidates_not_all_taken (cats : gmap string Category.t) self baseSlug :
  ¬ ∀ i, 0 ≤ i ≤ 0 + size cats → slugTaken cats self (slugCandidate baseSlug i) = true.
Proof.
  intros Hall.
  set (candidates := slugCandidate baseSlug <$> seq 0 (S (size cats))).
  set (stored := (λ d : string * Category.t, Category.slug d.2) <$> map_to_list cats).
  assert (length candidates ≤ length stored) as Hlen.
  { apply NoDup_incl_length.
    - unfold candidates. apply NoDup_ListNoDup.
      apply NoDup_fmap_2; [apply _ | apply NoDup_seq].
    - unfold candidates, stored.
      intros s Hs. apply list_elem_of_In, list_elem_of_fmap in Hs as (i & -> & Hi).
      apply elem_of_seq in Hi.
      destruct (proj1 (slugTaken_true cats self _) (Hall i ltac:(lia)))
        as (x & c & Hx & _ & Hc).
      apply list_elem_of_In, list_elem_of_fmap. exists (x, c). split; [done|].
      by apply elem_of_map_to_list. }
  unfold candidates, stored in Hlen.
  rewrite !length_fmap, length_seq, length_map_to_list in Hlen. lia.
Qed.

Lemma probeSlug_total (cats : gmap string Category.t) self baseSlug :
  is_Some (probeSlug (slugTaken cats self) baseSlug (size cats) 1 baseSlug).
Proof.
  pose proof (probeSlug_spec (slugTaken cats self) baseSlug (size cats) 0) as H.
  simpl slugCandidate in H.
  destruct (probeSlug (slugTaken cats self) baseSlug (size cats) 1 baseSlug); [eauto|].
  by destruct (slugCandidates_not_all_taken cats self baseSlug).
Qed.

(** The slug chosen is the first candidate that no other document uses. *)
Lemma generateSlug_spec (cats : gmap string Category.t) self name :
  ∃ j, generateSlug cats self name = slugCandidate (baseSlugOf name) j
       ∧ slugTaken cats self (slugCandidate (baseSlugOf name) j) = false
       ∧ ∀ i, i < j → slugTaken cats self (slugCandidate (baseSlugOf name) i) = true.
Proof.
  unfold generateSlug.
  pose proof (probeSlug_spec (slugTaken cats self) (baseSlugOf name) (size cats) 0) as H.
  simpl slugCandidate in H.
  destruct (probeSlug (slugTaken cats self) (baseSlugOf name) (size cats) 1 (baseSlugOf name))
    as [r|].
  - destruct H as (j & _ & -> & Hfree & Hbefore). exists j. simpl.
    repeat split; [done|]. intros i Hi. apply Hbefore. lia.
  - by destruct (slugCandidates_not_all_taken cats self (baseSlugOf name)).
Qed.

Lemma generateSlug_eq (cats : gmap string Category.t) self name j :
  slugTaken cats self (slugCandidate (baseSlugOf name) j) = false →
  (∀ i, i < j → slugTaken cats self (slugCandidate (baseSlugOf name) i) = true) →
  generateSlug cats self name = slugCandidate (baseSlugOf name) j.
Proof.
  intros Hfree Hbefore.
  destruct (generateSlug_spec cats self name) as (j' & -> & Hfree' & Hbefore').
  destruct (Nat.lt_trichotomy j j') as [Hlt | [-> | Hgt]]; [|done|].
  - rewrite (Hbefore' j Hlt) in Hfree. discriminate.
  - rewrite (Hbefore j' Hgt) in Hfree'. discriminate.
Qed.

Lemma createCategory_created (cats : gmap string Category.t) now user body r cats' :
  createCategory cats now user body = (r, cats') →
  status r = 201 →
  ∃ d, r = mkResponse 201 None (Some "Categoría creada exitosamente")
             (CategoryPayload (fresh (dom cats)) d)
       ∧ cats' = <[fresh (dom cats) := d]> cats
       ∧ Category.name d = JS.trim (default "" (b_name body))
       ∧ Category.slug d
         = generateSlug cats (fresh (dom cats)) (JS.trim (default "" (b_name body))).
Proof.
  unfold createCategory.
  destruct (JS.falsy (b_name body) || JS.falsy (b_description body)).
  { intros [= <- _] Hs. simpl in Hs. lia. }
  destruct (match truthyRef (b_parentCategory body) with
            | Some p => bool_decide (findById cats p = None)
            | None => false
            end).
  { intros [= <- _] Hs. simpl in Hs. lia. }
  match goal with |- context [categorySave ?c ?n ?i ?d] =>
    destruct (categorySave c n i d) as [[|errors]|[d' cats'']] eqn:Hsave end.
  - intros [= <- _] Hs. simpl in Hs. lia.
  - intros [= <- _] Hs. simpl in Hs. lia.
  - intros [= <- <-] _.
    apply categorySave_inr in Hsave as (_ & Hd & Hc & _).
    rewrite fresh_id_unused in Hd. exists d'. subst d'. split; [done|]. split; [done|].
    split; reflexivity.
Qed.

(** After a successful update the slug is the old one when the name is
    the old one, and is generated afresh otherwise. *)
Lemma updateCategory_slug (cats : gmap string Category.t) now user id body r cats' :
  updateCategory cats now user id body = (r, cats') →
  status r = 200 →
  ∃ old new,
    cats !! id = Some old ∧ cats' !! id = Some new
    ∧ (Category.name new = Category.name old → Category.slug new = Category.slug old)
    ∧ (Category.name new ≠ Category.name old
       → Category.slug new = generateSlug cats id (Category.name new)).
Proof.
  intros Hrun Hok.
  destruct (updateCategory_inv _ _ _ _ _ _ _ Hrun)
    as [[Hne _] | (old & d & Hid & Hd & _ & -> & _)]; [done|].
  exists old, d. split; [done|]. split; [apply lookup_insert_eq|].
  destruct (applyCategoryPatch_fields user body old) as (_ & _ & _ & _ & _ & _ & _ & Hslug & _).
  set (patched := assignParent body (applyCategoryPatch user body old)) in *.
  assert (Category.slug patched = Category.slug old) as Hs.
  { unfold patched, assignParent. by destruct (b_parentCategory body). }
  subst d. unfold slugHook, nameModified.
  destruct (String.eqb_spec (Category.name old) (Category.name patched)) as [Heq|Hne];
    simpl; split; intros H; congruence.
Qed.

(** C4, as stated, fails: the second of two categories created with the
    same name is not always suffixed [-1].  Here 'a-1' is the slug of an
    older category, and the second 'a' gets 'a-2'. *)
Lemma C4_second_slug_is_not_always_suffixed_1 :
  (Category.name <$> categories threeCreations !! "1") = Some "a"
  ∧ (Category.name <$> categories threeCreations !! "2") = Some "a"
  ∧ (Category.slug <$> categories threeCreations !! "0") = Some "a-1"
  ∧ (Category.slug <$> categories threeCreations !! "1") = Some "a"
  ∧ (Category.slug <$> categories threeCreations !! "2") = Some "a-2".
Proof. vm_compute. done. Qed.

(** *** Slugs stay unique *)

Lemma generateSlug_free (cats : gmap string Category.t) self name x c :
  cats !! x = Some c → x ≠ self → Category.slug c ≠ generateSlug cats self name.
Proof.
  intros Hx Hne Heq.
  destruct (generateSlug_spec cats self name) as (j & Hj & Hfree & _).
  assert (slugTaken cats self (slugCandidate (baseSlugOf name) j) = true) as Htaken.
  { apply slugTaken_true. exists x, c. rewrite <- Hj. done. }
  congruence.
Qed.

Lemma categorySave_slugsUnique (cats : gmap string Category.t) now self doc d cats' :
  slugsUnique cats →
  (∀ old, cats !! self = Some old → Category.slug doc = Category.slug old) →
  categorySave cats now self doc = inr (d, cats') →
  slugsUnique cats'.
Proof.
  intros Huniq Hkeep Hsave.
  apply categorySave_inr in Hsave as (_ & -> & -> & _).
  set (d := Category.set_updatedAt now (slugHook cats self (cats !! self) doc)).
  assert (∀ x c, cats !! x = Some c → x ≠ self → Category.slug c ≠ Category.slug d)
    as Hothers.
  { intros x c Hx Hne. unfold d, slugHook.
    destruct (nameModified (cats !! self) doc) eqn:Hmod; simpl.
    - by apply (generateSlug_free cats self _ x c).
    - destruct (cats !! self) as [old|] eqn:Hold; [|done].
      rewrite (Hkeep old eq_refl). intros Heq. apply Hne. eapply Huniq; eauto. }
  intros x y cx cy Hx Hy Heq.
  destruct (decide (x = self)) as [->|Hxs], (decide (y = self)) as [->|Hys]; [done| | |].
  - rewrite lookup_insert_eq in Hx. injection Hx as <-.
    rewrite lookup_insert_ne in Hy by done. by destruct (Hothers y cy Hy).
  - rewrite lookup_insert_eq in Hy. injection Hy as <-.
    rewrite lookup_insert_ne in Hx by done. by destruct (Hothers x cx Hx).
  - rewrite lookup_insert_ne in Hx, Hy by done. eapply Huniq; eauto.
Qed.

Lemma createCategory_slugsUnique cats now user body :
  slugsUnique cats → slugsUnique (createCategory cats now user body).2.
Proof.
  intros Huniq. destruct (createCategory cats now user body) as [r cats'] eqn:Hrun.
  simpl. revert Hrun. unfold createCategory.
  destruct (JS.falsy (b_name body) || JS.falsy (b_description body)); [by intros [= _ <-]|].
  destruct (match truthyRef (b_parentCategory body) with
            | Some p => bool_decide (findById cats p = None)
            | None => false
            end); [by intros [= _ <-]|].
  match goal with |- context [categorySave ?c ?n ?i ?d] =>
    destruct (categorySave c n i d) as [[|errors]|[d' cats'']] eqn:Hsave end;
    intros [= _ <-]; try done.
  eapply categorySave_slugsUnique; [exact Huniq| |exact Hsave].
  intros old Hold. by rewrite fresh_id_unused in Hold.
Qed.

Lemma applyCategoryPatch_slug user body c :
  Category.slug (assignParent body (applyCategoryPatch user body c)) = Category.slug c.
Proof.
  destruct (applyCategoryPatch_fields user body c) as (_ & _ & _ & _ & _ & _ & _ & Hs & _).
  unfold assignParent. by destruct (b_parentCategory body).
Qed.

Lemma updateCategory_slugsUnique cats now user id body :
  slugsUnique cats → slugsUnique (updateCategory cats now user id body).2.
Proof.
  intros Huniq. destruct (updateCategory cats now user id body) as [r cats'] eqn:Hrun.
  simpl. apply updateCategory_inv in Hrun as [[_ ->] | (old & d & Hid & _ & _ & _ & Hsave)];
    [done|].
  eapply categorySave_slugsUnique; [exact Huniq| |exact Hsave].
  intros old' Hold. rewrite Hid in Hold. injection Hold as <-.
  apply applyCategoryPatch_slug.
Qed.

Lemma deleteCategory_slugsUnique db user id :
  slugsUnique (categories db) → slugsUnique (categories (deleteCategory db user id).2).
Proof.
  intros Huniq. unfold deleteCategory.
  destruct (categories db !! id) as [category|]; [|done].
  destruct (negb (bool_decide (role user = admin))); [done|].
  destruct (0 <? countSubcategories (categories db) id); [done|].
  destruct (0 <? countTechniques (techniques db) id); [done|].
  simpl. intros x y cx cy Hx Hy Heq.
  apply lookup_delete_Some in Hx as [_ Hx]. apply lookup_delete_Some in Hy as [_ Hy].
  eapply Huniq; eauto.
Qed.

Lemma runCategoryOps_slugsUnique ops :
  ∀ db, slugsUnique (categories db) → slugsUnique (categories (runCategoryOps db ops)).
Proof.
  induction ops as [|op ops IH]; intros db Huniq; [done|].
  simpl. apply IH. destruct op as [now user body|now user id body|user id]; simpl.
  - by apply createCategory_slugsUnique.
  - by apply updateCategory_slugsUnique.
  - by apply deleteCategory_slugsUnique.
Qed.

(** C4, amended.  The slug that [save] gives to a category whose name is
    new or has changed is the first of base, base-1, base-2, ... that no
    other document uses, base being the name in lower case with every run
    of characters outside a-z and 0-9 replaced by one dash and a dash
    removed at each end (so that base has no dash at either end and no
    two dashes in a row).  Two categories created one after the other with
    the same name get distinct slugs; the second gets base-1 when no
    category used base or base-1 before.  An update that leaves the name
    as it is leaves the slug as it is.  After any sequence of requests on
    an empty collection, two different categories never share a slug. *)
Theorem C4_slug_is_first_unused_candidate :
  (∀ (cats : gmap string Category.t) self name,
     ∃ j, generateSlug cats self name = slugCandidate (baseSlugOf name) j
          ∧ slugTaken cats self (slugCandidate (baseSlugOf name) j) = false
          ∧ ∀ i, i < j → slugTaken cats self (slugCandidate (baseSlugOf name) i) = true)
  ∧ (∀ (cats : gmap string Category.t) now1 user1 body1 r1 cats1 now2 user2 body2 r2 cats2,
       createCategory cats now1 user1 body1 = (r1, cats1) → status r1 = 201 →
       createCategory cats1 now2 user2 body2 = (r2, cats2) → status r2 = 201 →
       b_name body1 = b_name body2 →
       let baseSlug := baseSlugOf (JS.trim (default "" (b_name body1))) in
       ∃ id1 c1 id2 c2,
         payload r1 = CategoryPayload id1 c1 ∧ payload r2 = CategoryPayload id2 c2
         ∧ id1 ≠ id2
         ∧ (Category.slug <$> cats2 !! id1) = Some (Category.slug c1)
         ∧ (Category.slug <$> cats2 !! id2) = Some (Category.slug c2)
         ∧ (∃ j, Category.slug c1 = slugCandidate baseSlug j)
         ∧ (∃ j, Category.slug c2 = slugCandidate baseSlug j)
         ∧ Category.slug c1 ≠ Category.slug c2
         ∧ ((∀ x c, cats !! x = Some c →
                    Category.slug c ≠ baseSlug ∧ Category.slug c ≠ baseSlug +:+ "-1")
            → Category.slug c1 = baseSlug ∧ Category.slug c2 = baseSlug +:+ "-1"))
  ∧ (∀ (cats : gmap string Category.t) now user id body r cats',
       updateCategory cats now user id body = (r, cats') →
       status r = 200 →
       ∃ old new,
         cats !! id = Some old ∧ cats' !! id = Some new
         ∧ (Category.name new = Category.name old → Category.slug new = Category.slug old)
         ∧ (Category.name new ≠ Category.name old
            → Category.slug new = generateSlug cats id (Category.name new)))
  ∧ (∀ techs ops x y cx cy,
       categories (runCategoryOps (mkDB ∅ techs) ops) !! x = Some cx →
       categories (runCategoryOps (mkDB ∅ techs) ops) !! y = Some cy →
       x ≠ y → Category.slug cx ≠ Category.slug cy)
  ∧ (∀ name, slugShaped (baseSlugOf name) = true).
Proof.
  split; [apply generateSlug_spec|].
  split; [|split; [apply updateCategory_slug|split; [|apply baseSlugOf_shaped]]].
  2:{ intros techs ops x y cx cy Hx Hy Hne Heq. apply Hne.
      eapply (runCategoryOps_slugsUnique ops (mkDB ∅ techs)); eauto.
      intros ? ? ? ? H. simpl in H. by rewrite lookup_empty in H. }
  intros cats now1 user1 body1 r1 cats1 now2 user2 body2 r2 cats2
         Hrun1 Hok1 Hrun2 Hok2 Hname baseSlug.
  destruct (createCategory_created _ _ _ _ _ _ Hrun1 Hok1) as (c1 & -> & -> & Hn1 & Hs1).
  destruct (createCategory_created _ _ _ _ _ _ Hrun2 Hok2) as (c2 & -> & -> & Hn2 & Hs2).
  rewrite <- Hname in Hs2. fold baseSlug in Hs1, Hs2.
  set (id1 := fresh (dom cats)) in *.
  set (cats1 := <[id1 := c1]> cats) in *.
  set (id2 := fresh (dom cats1)) in *.
  set (name := JS.trim (default "" (b_name body1))) in *.
  assert (cats !! id1 = None) as Hfresh1 by apply fresh_id_unused.
  assert (cats1 !! id2 = None) as Hfresh2 by apply fresh_id_unused.
  assert (id1 ≠ id2) as Hids.
  { intros Heq. rewrite <- Heq in Hfresh2. unfold cats1 in Hfresh2.
    by rewrite lookup_insert_eq in Hfresh2. }
  destruct (generateSlug_spec cats id1 name) as (j1 & Hj1 & _).
  destruct (generateSlug_spec cats1 id2 name) as (j2 & Hj2 & Hfree2 & _).
  assert (Category.slug c1 ≠ Category.slug c2) as Hdistinct.
  { intros Heq. rewrite Hs2, Hj2 in Heq.
    assert (slugTaken cats1 id2 (slugCandidate (baseSlugOf name) j2) = true) as Htaken.
    { apply slugTaken_true. exists id1, c1. unfold cats1.
      rewrite lookup_insert_eq. done. }
    congruence. }
  subst baseSlug.
  exists id1, c1, id2, c2. split; [done|]. split; [done|]. split; [done|].
  split.
  { rewrite lookup_insert_ne by done. unfold cats1. by rewrite lookup_insert_eq. }
  split; [by rewrite lookup_insert_eq|].
  split; [exists j1; congruence|]. split; [exists j2; congruence|].
  split; [done|]. intros Hunused.
  assert (Category.slug c1 = baseSlugOf name) as Hfirst.
  { rewrite Hs1. apply (generateSlug_eq cats id1 name 0); [|intros; lia].
    destruct (slugTaken cats id1 (slugCandidate (baseSlugOf name) 0)) eqn:Ht; [|done].
    apply slugTaken_true in Ht as (x & c & Hx & _ & Hc).
    by destruct (Hunused x c Hx) as [? _]. }
  split; [done|].
  rewrite Hs2. apply (generateSlug_eq cats1 id2 name 1).
  - destruct (slugTaken cats1 id2 (slugCandidate (baseSlugOf name) 1)) eqn:Ht; [|done].
    apply slugTaken_true in Ht as (x & c & Hx & _ & Hc).
    unfold cats1 in Hx. destruct (decide (x = id1)) as [->|Hne].
    + rewrite lookup_insert_eq in Hx. injection Hx as <-.
      rewrite Hfirst in Hc. apply (inj (slugCandidate (baseSlugOf name)) 0 1) in Hc. lia.
    + rewrite lookup_insert_ne in Hx by done.
      by destruct (Hunused x c Hx) as [_ ?].
  - intros i Hi. replace i with 0 by lia.
    apply slugTaken_true. exists id1, c1. unfold cats1.
    rewrite lookup_insert_eq. done.
Qed.

Lemma C4_witness :
  ∃ id1 c1 id2 c2,
    payload (createCategory ∅ 1 someUser (namedBody "a" None)).1 = CategoryPayload id1 c1
    ∧ payload (createCategory (createCategory ∅ 1 someUser (namedBody "a" None)).2
                 2 someUser (namedBody "a" None)).1
      = CategoryPayload id2 c2
    ∧ Category.slug c1 = "a" ∧ Category.slug c2 = "a-1".
Proof.
  destruct (proj1 (proj2 C4_slug_is_first_unused_candidate)
              ∅ 1 someUser (namedBody "a" None)
              (createCategory ∅ 1 someUser (namedBody "a" None)).1
              (createCategory ∅ 1 someUser (namedBody "a" None)).2
              2 someUser (namedBody "a" None)
              (createCategory (createCategory ∅ 1 someUser (namedBody "a" None)).2
                 2 someUser (namedBody "a" None)).1
              (createCategory (createCategory ∅ 1 someUser (namedBody "a" None)).2
                 2 someUser (namedBody "a" None)).2)
    as (id1 & c1 & id2 & c2 & Hp1 & Hp2 & _ & _ & _ & _ & _ & _ & Hfresh).
  - apply surjective_pairing.
  - vm_compute. reflexivity.
  - apply surjective_pairing.
  - vm_compute. reflexivity.
  - reflexivity.
  - exists id1, c1, id2, c2. split; [exact Hp1|]. split; [exact Hp2|].
    apply Hfresh. intros x c Hx. by rewrite lookup_empty in Hx.
Defined.

(** * Further properties *)

(** ** Role checks *)

(** X1.  [authorizeMinRole] with the name of a role as minimum hands on
    exactly the users whose role is that one or a higher one, and answers
    403 to the others. *)
Theorem X1_authorizeMinRole_follows_the_role_order :
  ∀ (minimum : Role) (u : User),
    (authorizeMinRole (roleName minimum) (Some u) = Next ↔ roleLe minimum (role u) = true)
    ∧ (roleLe minimum (role u) = false →
       ∃ e m more, authorizeMinRole (roleName minimum) (Some u) = Answer 403 e m more).
Proof.
  intros minimum [uid r]. destruct minimum, r; simpl; split;
    try (split; [done | reflexivity]); try (split; [reflexivity | done]);
    try (intros _; by eexists _, _, _); try done.
Qed.

Lemma X1_witness :
  ∃ e m more,
    authorizeMinRole (roleName editor) (Some (mkUser "u7" viewer)) = Answer 403 e m more.
Proof.
  apply (proj2 (X1_authorizeMinRole_follows_the_role_order editor (mkUser "u7" viewer))).
  reflexivity.
Defined.

Lemma roleHierarchy_unknown m :
  m ∉ ["viewer"; "editor"; "admin"] →
  roleHierarchy m = Lvl 0 ∨ roleHierarchy m = LvlNaN.
Proof.
  intros Hm. unfold roleHierarchy.
  destruct (String.eqb_spec m "viewer") as [->|_]; [exfalso; apply Hm; set_solver|].
  destruct (String.eqb_spec m "editor") as [->|_]; [exfalso; apply Hm; set_solver|].
  destruct (String.eqb_spec m "admin") as [->|_]; [exfalso; apply Hm; set_solver|].
  destruct (bool_decide _); auto.
Qed.

Lemma roleHierarchy_roleName r : ∃ n, roleHierarchy (roleName r) = Lvl n ∧ 1 ≤ n.
Proof. destruct r; simpl; eauto. Qed.

(** X2.  A minimum that is not the name of a role (a misspelt one, say)
    closes nothing: every authenticated user is handed on. *)
Theorem X2_authorizeMinRole_unknown_minimum_lets_everyone_through :
  ∀ (minimumRole : string) (u : User),
    minimumRole ∉ ["viewer"; "editor"; "admin"] →
    authorizeMinRole minimumRole (Some u) = Next.
Proof.
  intros m u Hm. unfold authorizeMinRole.
  destruct (roleHierarchy_roleName (role u)) as (n & -> & Hn).
  destruct (roleHierarchy_unknown m Hm) as [-> | ->]; simpl; [|done].
  destruct n; done.
Qed.

Lemma X2_witness : authorizeMinRole "Editor" (Some (mkUser "u9" viewer)) = Next.
Proof.
  apply (X2_authorizeMinRole_unknown_minimum_lets_everyone_through "Editor" (mkUser "u9" viewer)).
  vm_compute. intros H. repeat (apply elem_of_cons in H as [H|H]; [discriminate H|]).
  by apply not_elem_of_nil in H.
Defined.

(** X3.  [User.hasPermission] and [authorizeMinRole] decide alike, except
    on the names that the table [roleHierarchy] inherits from
    [Object.prototype]: there [hasPermission] is false for every user
    while [authorizeMinRole] hands every user on. *)
Theorem X3_hasPermission_agrees_with_authorizeMinRole :
  ∀ (this : Role) (uid : ObjectId) (requiredRole : string),
    (requiredRole ∉ inheritedKeys →
     (hasPermission this requiredRole = true
      ↔ authorizeMinRole requiredRole (Some (mkUser uid this)) = Next))
    ∧ (requiredRole ∈ inheritedKeys →
       hasPermission this requiredRole = false
       ∧ authorizeMinRole requiredRole (Some (mkUser uid this)) = Next).
Proof.
  intros this uid m. unfold hasPermission, authorizeMinRole. simpl.
  split.
  - intros Hm. unfold roleHierarchy at 2 4.
    rewrite (bool_decide_eq_false_2 _ Hm).
    destruct this, (String.eqb m "viewer"), (String.eqb m "editor"), (String.eqb m "admin");
      vm_compute; split; congruence.
  - intros Hm.
    assert (roleHierarchy m = LvlNaN) as ->.
    { unfold inheritedKeys in Hm.
      repeat (apply elem_of_cons in Hm as [->|Hm]; [reflexivity|]).
      by apply not_elem_of_nil in Hm. }
    by destruct this.
Qed.

Lemma X3_witness :
  hasPermission viewer "toString" = false
  ∧ authorizeMinRole "toString" (Some (mkUser "u7" viewer)) = Next.
Proof.
  apply (proj2 (X3_hasPermission_agrees_with_authorizeMinRole viewer "u7" "toString")).
  vm_compute. repeat constructor.
Defined.

(** X4.  The routes that write are closed to viewers, and the deletion of
    categories to editors as well: the role check answers 403 and the
    collections stay as they were. *)
Theorem X4_writing_routes_are_closed_to_viewers :
  ∀ (db : DB) (u : User) (r : Route),
    role u = viewer ∨ (role u = editor ∧ ∃ id, r = DELETE_categories id) →
    (∃ e m more, guard r (Some u) = Answer 403 e m more)
    ∧ serve db (Some u, r) = db.
Proof.
  intros db [uid ro] r [Hrole | [Hrole (id & ->)]]; simpl in Hrole; subst ro.
  - destruct r; (split; [by eexists _, _, _ | reflexivity]).
  - split; [by eexists _, _, _ | reflexivity].
Qed.

Lemma X4_witness :
  serve catalogue (Some (mkUser "u7" viewer), DELETE_techniques "t1") = catalogue.
Proof.
  apply (X4_writing_routes_are_closed_to_viewers catalogue (mkUser "u7" viewer)
           (DELETE_techniques "t1")).
  left. reflexivity.
Defined.

(** ** The rate limiter *)

Section limiter.

Variables maxRequests windowMs : Z.

Lemma rateLimit_other counts id now id' :
  id' ≠ id → (rateLimit maxRequests windowMs counts id now).2 !! id' = counts !! id'.
Proof.
  intros Hne. unfold rateLimit.
  destruct (counts !! id) as [l|] eqn:Hl; simpl.
  - rewrite lookup_insert_eq. simpl.
    destruct (_ <=? _)%Z; simpl; rewrite ?lookup_insert_ne by done;
      rewrite ?lookup_insert_ne by done; done.
  - rewrite Hl. simpl.
    destruct (_ <=? _)%Z; simpl; rewrite ?lookup_insert_ne by done; done.
Qed.

(** The list that the limiter holds for [id] once it has run: the
    timestamps of the window, with [now] at the end if the request went
    on. *)
Lemma rateLimit_self counts id now :
  let window := filter (λ t, (now - windowMs < t)%Z) (default [] (counts !! id)) in
  let out := rateLimit maxRequests windowMs counts id now in
  (maxRequests <= Z.of_nat (length window) →
   out.1 = TooMany ((λ first, ceilSeconds (first + windowMs - now)) <$> head window)
   ∧ default [] (out.2 !! id) = window
   ∧ (is_Some (out.2 !! id) → is_Some (counts !! id)))%Z
  ∧ (Z.of_nat (length window) < maxRequests →
     (∃ a b, out.1 = Allowed a b) ∧ out.2 !! id = Some (window ++ [now]))%Z.
Proof.
  unfold rateLimit.
  destruct (counts !! id) as [l|] eqn:Hl; simpl.
  - rewrite lookup_insert_eq. simpl.
    destruct (_ <=? _)%Z eqn:E; simpl.
    + apply Z.leb_le in E. split; [|lia]. intros _.
      rewrite lookup_insert_eq. simpl. eauto.
    + apply Z.leb_gt in E. split; [lia|]. intros _.
      rewrite lookup_insert_eq. eauto.
  - rewrite Hl. simpl.
    destruct (_ <=? _)%Z eqn:E; simpl.
    + apply Z.leb_le in E. split; [|simpl in E; lia]. intros _.
      rewrite Hl. split; [done|]. split; [done|]. by intros [? ?].
    + apply Z.leb_gt in E. split; [simpl in E; lia|]. intros _.
      rewrite lookup_insert_eq. eauto.
Qed.

Lemma rateRun_snoc reqs r :
  rateRun maxRequests windowMs (reqs ++ [r])
  = rateStep maxRequests windowMs (rateRun maxRequests windowMs reqs) r.
Proof. unfold rateRun. by rewrite foldl_app. Qed.

(** No list ever holds more than [maxRequests] timestamps. *)
Lemma rateRun_length reqs id l :
  (rateRun maxRequests windowMs reqs).1 !! id = Some l →
  (Z.of_nat (length l) <= maxRequests)%Z.
Proof.
  revert id l. induction reqs as [|[id0 now] reqs IH] using rev_ind; intros id l.
  - unfold rateRun. simpl. by rewrite lookup_empty.
  - rewrite rateRun_snoc. unfold rateStep. simpl.
    set (st := rateRun maxRequests windowMs reqs) in *.
    destruct (decide (id = id0)) as [->|Hne].
    2:{ rewrite rateLimit_other by done. apply IH. }
    pose proof (rateLimit_self st.1 id0 now) as [Hfull Hfree]. simpl in Hfull, Hfree.
    set (window := filter (λ t, (now - windowMs < t)%Z) (default [] (st.1 !! id0))) in *.
    assert (is_Some (st.1 !! id0) → Z.of_nat (length window) <= maxRequests)%Z as Hwin.
    { intros [l0 Hl0]. specialize (IH _ _ Hl0). unfold window. rewrite Hl0. simpl.
      pose proof (length_filter (λ t, (now - windowMs < t)%Z) l0). lia. }
    destruct (Z.le_gt_cases maxRequests (Z.of_nat (length window))) as [Hle|Hlt].
    + destruct (Hfull Hle) as (_ & Hdef & Hsome). intros Hl.
      rewrite Hl in Hdef. simpl in Hdef. subst l.
      apply Hwin, Hsome. by rewrite Hl.
    + destruct (Hfree Hlt) as (_ & ->). intros [= <-].
      rewrite length_app. simpl. lia.
Qed.

(** What the limiter holds for [id] and what it has let through for [id]
    agree on every window that ends at or after the last arrival. *)
Lemma rateRun_window reqs id s :
  Forall (λ r, (r.2 <= s)%Z) reqs →
  filter (λ t, (s - windowMs < t)%Z)
         (default [] ((rateRun maxRequests windowMs reqs).1 !! id))
  = (allowedSince id (s - windowMs) (rateRun maxRequests windowMs reqs).2).*2.
Proof.
  induction reqs as [|[id0 now] reqs IH] using rev_ind; intros Hs.
  - unfold rateRun. simpl. by rewrite lookup_empty.
  - apply Forall_app in Hs as [Hs Hnow]. apply Forall_inv in Hnow. simpl in Hnow.
    specialize (IH Hs). rewrite rateRun_snoc. unfold rateStep. simpl.
    set (st := rateRun maxRequests windowMs reqs) in *.
    destruct (decide (id = id0)) as [->|Hne].
    2:{ rewrite rateLimit_other by done. rewrite IH.
        destruct (rateLimit maxRequests windowMs st.1 id0 now).1; [|done].
        unfold allowedSince. rewrite filter_app.
        rewrite filter_cons_False by (simpl; intros [? _]; congruence).
        by rewrite filter_nil, app_nil_r. }
    pose proof (rateLimit_self st.1 id0 now) as [Hfull Hfree]. simpl in Hfull, Hfree.
    set (window := filter (λ t, (now - windowMs < t)%Z) (default [] (st.1 !! id0))) in *.
    assert (filter (λ t, (s - windowMs < t)%Z) window
            = filter (λ t, (s - windowMs < t)%Z) (default [] (st.1 !! id0))) as Hwindow.
    { unfold window. rewrite list_filter_filter. apply list_filter_iff. intros t. lia. }
    destruct (Z.le_gt_cases maxRequests (Z.of_nat (length window))) as [Hle|Hlt].
    + destruct (Hfull Hle) as (-> & -> & _). by rewrite Hwindow.
    + destruct (Hfree Hlt) as ((a & b & ->) & ->). simpl.
      unfold allowedSince. rewrite !filter_app, fmap_app, Hwindow, IH. f_equal.
      destruct (decide (s - windowMs < now)%Z) as [Hin|Hout].
      * rewrite !filter_cons_True by (simpl; done). reflexivity.
      * rewrite !filter_cons_False by (simpl; tauto || done). reflexivity.
Qed.

(** X5.  At any moment [s] that no arrival is later than, the requests
    of one identifier that the limiter has let through during the last
    [windowMs] milliseconds are at most [maxRequests]. *)
Theorem X5_rateLimit_bounds_every_window :
  ∀ (reqs : list (string * Z)) (id : string) (s : Z),
    (0 <= maxRequests)%Z →
    Forall (λ r, (r.2 <= s)%Z) reqs →
    (Z.of_nat (length (allowedSince id (s - windowMs)
                         (rateRun maxRequests windowMs reqs).2)) <= maxRequests)%Z.
Proof.
  intros reqs id s Hmax Hs.
  rewrite <- (length_fmap snd), <- rateRun_window by done.
  pose proof (length_filter (λ t, (s - windowMs < t)%Z)
                (default [] ((rateRun maxRequests windowMs reqs).1 !! id))) as Hlen.
  destruct ((rateRun maxRequests windowMs reqs).1 !! id) as [l|] eqn:Hl; simpl in *.
  - apply rateRun_length in Hl. lia.
  - lia.
Qed.

Lemma ceilSeconds_above a : (a <= 1000 * ceilSeconds a)%Z.
Proof. unfold ceilSeconds. Z.div_mod_to_equations. lia. Qed.

(** X6.  [retryAfter] is honest: once a request has been answered 429
    with [retryAfter: r], the next request of the same identifier that
    comes [r] seconds later, or later still, is let through. *)
Theorem X6_rateLimit_retryAfter_is_enough :
  ∀ (reqs : list (string * Z)) (id : string) (now r : Z) counts,
    rateLimit maxRequests windowMs (rateRun maxRequests windowMs reqs).1 id now
    = (TooMany (Some r), counts) →
    ∀ later, (now + 1000 * r <= later)%Z →
      ∃ remaining reset counts',
        rateLimit maxRequests windowMs counts id later
        = (Allowed remaining reset, counts').
Proof.
  intros reqs id now r counts Hrefused later Hlater.
  set (st := rateRun maxRequests windowMs reqs) in *.
  pose proof (rateLimit_self st.1 id now) as [Hfull Hfree]. simpl in Hfull, Hfree.
  set (window := filter (λ t, (now - windowMs < t)%Z) (default [] (st.1 !! id))) in *.
  assert (Z.of_nat (length window) <= maxRequests)%Z as Hbound.
  { unfold window. destruct (st.1 !! id) as [l0|] eqn:Hl0; simpl.
    - apply rateRun_length in Hl0.
      pose proof (length_filter (λ t, (now - windowMs < t)%Z) l0). lia.
    - destruct (Z.le_gt_cases 0 maxRequests) as [?|Hneg]; [done|].
      exfalso. unfold rateLimit in Hrefused. rewrite Hl0 in Hrefused. simpl in Hrefused.
      rewrite Hl0 in Hrefused. simpl in Hrefused.
      destruct (_ <=? _)%Z; simplify_eq. }
  destruct (Z.le_gt_cases maxRequests (Z.of_nat (length window))) as [Hle|Hlt].
  2:{ destruct (Hfree Hlt) as ((a & b & Hadm) & _). rewrite Hrefused in Hadm. done. }
  destruct (Hfull Hle) as (Hout & Hdef & _). rewrite Hrefused in Hout, Hdef.
  simpl in Hout, Hdef. injection Hout as Hr.
  destruct window as [|first rest] eqn:Hw; [done|]. simpl in Hr. injection Hr as ->.
  pose proof (ceilSeconds_above (first + windowMs - now)) as Hceil.
  pose proof (rateLimit_self counts id later) as [_ Hfree']. simpl in Hfree'.
  rewrite Hdef in Hfree'.
  rewrite filter_cons_False in Hfree' by lia.
  destruct Hfree' as ((a & b & Hadm) & _).
  { pose proof (length_filter (λ t, (later - windowMs < t)%Z) rest).
    simpl in Hle, Hbound. lia. }
  destruct (rateLimit maxRequests windowMs counts id later) as [v counts'] eqn:Hout.
  simpl in Hadm. subst v. eauto.
Qed.

End limiter.

Lemma X5_witness :
  (Z.of_nat (length (allowedSince "u1" (10 - 5)
                       (rateRun 2 5 [("u1", 1); ("u1", 7); ("u1", 8); ("u1", 9)]%Z).2)) <= 2)%Z.
Proof.
  apply (X5_rateLimit_bounds_every_window 2 5
           [("u1", 1); ("u1", 7); ("u1", 8); ("u1", 9)]%Z "u1" 10%Z).
  - lia.
  - repeat constructor; simpl; lia.
Defined.

Lemma X6_witness :
  ∃ remaining reset counts',
    rateLimit 1 5000 (rateLimit 1 5000 (rateRun 1 5000 [("u1", 1000%Z)]).1 "u1" 2000).2
              "u1" 6000
    = (Allowed remaining reset, counts').
Proof.
  apply (X6_rateLimit_retryAfter_is_enough 1 5000 [("u1", 1000%Z)] "u1" 2000 4
           (rateLimit 1 5000 (rateRun 1 5000 [("u1", 1000%Z)]).1 "u1" 2000).2).
  - vm_compute. reflexivity.
  - lia.
Defined.

(** ** [save] of a technique *)

Lemma techniqueSave_invalid (techs : gmap string Technique.t) now self generateId
    modifiedBy doc :
  techniqueValidate doc ≠ [] →
  techniqueSave techs now self generateId modifiedBy doc
  = inl (TValidationError (techniqueValidate doc)).
Proof. unfold techniqueSave. by destruct (techniqueValidate doc). Qed.

Lemma techniqueSave_inr (techs : gmap string Technique.t) now self modifiedBy doc saved techs' :
  techniqueSave techs now self false modifiedBy doc = inr (saved, techs') →
  techs' = <[self := saved]> techs
  ∧ Technique.category saved = Technique.category doc
  ∧ Technique.image saved = Technique.image doc
  ∧ Technique.fileLocation saved = Technique.fileLocation doc
  ∧ Technique.mitreid saved = Technique.mitreid doc
  ∧ Technique.createdBy saved = Technique.createdBy doc
  ∧ Technique.revisionHistory saved = Technique.revisionHistory doc
  ∧ Technique.version saved = Technique.version doc.
Proof.
  unfold techniqueSave. destruct (techniqueValidate doc); [|done].
  unfold techniquePreSave. rewrite andb_false_r.
  destruct (match Technique.mitreid _ with Some m => _ | None => false end); [done|].
  intros [= <- <-].
  destruct modifiedBy, (bool_decide (techs !! self = None)); done.
Qed.

Lemma processedField_multer uploads key :
  processedField (processUploadedFiles (multerFields uploads)) key ≫= entryPath = None.
Proof.
  destruct uploads as [l|]; [|done]. simpl.
  induction l as [|[k fs] l IH]; simpl; [done|].
  destruct (String.eqb k key); [done|]. exact IH.
Qed.

(** ** Creating and deleting a technique *)

Lemma postTechnique_created (db : DB) now user uploads body r :
  responseOf (postTechnique db now user uploads body) = Some r →
  status r = 201 →
  ∃ category doc saved techs',
    tb_category body = Some (Castable category)
    ∧ is_Some (categories db !! category)
    ∧ Technique.category doc = Some category
    ∧ Technique.image doc = None
    ∧ Technique.fileLocation doc = None
    ∧ Technique.createdBy doc = Some (user_id user)
    ∧ techniqueSave (techniques db) now (fresh (dom (techniques db))) false None doc
      = inr (saved, techs')
    ∧ r = mkResponse 201 None (Some "Técnica creada exitosamente")
            (TechniquePayload (fresh (dom (techniques db))) saved)
    ∧ postTechnique db now user uploads body
      = mkOutcome [Send r] (mkDB (categories db) techs').
Proof.
  unfold postTechnique, createTechnique.
  destruct (JS.falsy (tb_name body) || JS.falsy (tb_description body)
            || JS.falsy (idText <$> tb_category body)).
  { rewrite responseOf_send. by intros [= <-]. }
  destruct (tb_category body) as [[category|text]|].
  2,3: rewrite responseOf_pre_send; by intros [= <-].
  destruct (bool_decide (findById (categories db) category = None)) eqn:Hcat.
  { rewrite responseOf_send. by intros [= <-]. }
  destruct (negb (JS.falsy (tb_mitreid body)) && _).
  { rewrite responseOf_send. by intros [= <-]. }
  rewrite !processedField_multer.
  match goal with
  | |- context [techniqueSave ?t ?n ?i false None ?d] =>
      set (doc := d); destruct (techniqueSave t n i false None doc) as [e|[saved techs']] eqn:Hsave
  end.
  - destruct e; rewrite responseOf_pre_send; by intros [= <-].
  - rewrite responseOf_send. intros [= <-] _.
    exists category, doc, saved, techs'.
    apply bool_decide_eq_false in Hcat. rewrite findById_None in Hcat.
    split; [done|]. split; [by apply not_eq_None_Some|].
    repeat (split; [done|]).
    unfold cleanupSend. simpl. done.
Qed.

(** X7.  [POST /api/techniques] never attaches an upload: the technique
    that a 201 answers for has neither [image] nor [fileLocation],
    whatever files came with the request, and nothing is unlinked, so
    that the stored files stay behind unreferenced. *)
Theorem X7_created_technique_never_refers_to_its_uploads :
  ∀ (db : DB) now user uploads body r,
    responseOf (postTechnique db now user uploads body) = Some r →
    status r = 201 →
    (∃ id t, payload r = TechniquePayload id t
             ∧ techniques (db' (postTechnique db now user uploads body)) !! id = Some t
             ∧ Technique.image t = None
             ∧ Technique.fileLocation t = None)
    ∧ ∀ store, runEvents store (events (postTechnique db now user uploads body)) = store.
Proof.
  intros db now user uploads body r Hr H201.
  destruct (postTechnique_created _ _ _ _ _ _ Hr H201)
    as (category & doc & saved & techs' & _ & _ & _ & Himg & Hfile & _ & Hsave & -> & ->).
  apply techniqueSave_inr in Hsave as (-> & _ & Himg' & Hfile' & _).
  split; [|done].
  eexists _, saved. split; [reflexivity|]. simpl.
  rewrite lookup_insert_eq. split; [done|]. split; congruence.
Qed.

Lemma X7_witness :
  runEvents {["uploads/images/shot-1.png"]}
    (events (postTechnique catalogue 9 someUser (Some [("image", [screenshot])]) vishingBody))
  = {["uploads/images/shot-1.png"]}.
Proof.
  refine (proj2 (X7_created_technique_never_refers_to_its_uploads catalogue 9 someUser
                   (Some [("image", [screenshot])]) vishingBody _ _ _) _).
  - vm_compute. reflexivity.
  - reflexivity.
Defined.

Lemma DB_eta (db : DB) : mkDB (categories db) (techniques db) = db.
Proof. by destruct db. Qed.

Lemma deleteTechnique_allowed (db : DB) user id t :
  techniques db !! id = Some t →
  role user = admin ∨ Technique.createdBy t = Some (user_id user) →
  deleteTechnique db user id
  = (deleteFile (Technique.image t) ++ deleteFile (Technique.fileLocation t),
     Replied 200 (Some "Técnica eliminada exitosamente")
             (mkDeletedTechnique id (Technique.name t) (Technique.mitreid t)),
     mkDB (categories db) (delete id (techniques db))).
Proof.
  intros Ht Hmay. unfold deleteTechnique. rewrite Ht.
  assert (negb (bool_decide (role user = admin))
          && bool_decide (Technique.createdBy t = None) = false) as ->.
  { destruct Hmay as [H|H]; [by rewrite (bool_decide_eq_true_2 _ H)|].
    rewrite H. by rewrite andb_false_r. }
  assert (negb (bool_decide (role user = admin))
          && negb (bool_decide (Technique.createdBy t = Some (user_id user))) = false) as ->.
  { destruct Hmay as [H|H]; rewrite (bool_decide_eq_true_2 _ H); [done|].
    by rewrite andb_false_r. }
  f_equal. f_equal. unfold deleteFile.
  by destruct (JS.falsy (Technique.image t)), (JS.falsy (Technique.fileLocation t)).
Qed.

Lemma deleteTechnique_keeps (db : DB) user id :
  categories (deleteTechnique db user id).2 = categories db
  ∧ (techniques (deleteTechnique db user id).2 = techniques db
     ∨ techniques (deleteTechnique db user id).2 = delete id (techniques db)).
Proof.
  unfold deleteTechnique. destruct (techniques db !! id); [|by auto].
  repeat (match goal with |- context [if ?b then _ else _] => destruct b end);
    simpl; auto.
Qed.

Lemma deleteFile_unlinks p store :
  p ≠ "" → p ∉ runEvents store (deleteFile (Some p)).
Proof.
  intros Hp. unfold deleteFile, JS.falsy.
  destruct p; [done|]. simpl. set_solver.
Qed.

(** X8.  [deleteTechnique] by an administrator or by the creator answers
    200; afterwards [getTechniqueById] answers 404 for the technique and
    answers as before for every other one, the categories are untouched
    and the image and the file of the technique are gone from the disk.
    For anybody else nothing is unlinked and nothing changes. *)
Theorem X8_deleteTechnique_removes_the_technique_and_its_files :
  ∀ (db : DB) (user : User) (id : ObjectId) (t : Technique.t),
    techniques db !! id = Some t →
    let out := deleteTechnique db user id in
    (role user = admin ∨ Technique.createdBy t = Some (user_id user) →
     (∃ m body, out.1.2 = Replied 200 m body)
     ∧ getTechniqueById out.2 (Castable id)
       = Refused 404 "Técnica no encontrada" "La técnica solicitada no existe"
     ∧ (∀ other, other ≠ Castable id →
          getTechniqueById out.2 other = getTechniqueById db other)
     ∧ categories out.2 = categories db
     ∧ (∀ store p, p ≠ "" →
          Technique.image t = Some p ∨ Technique.fileLocation t = Some p →
          p ∉ runEvents store out.1.1))
    ∧ (role user ≠ admin → Technique.createdBy t ≠ Some (user_id user) →
       out.1.1 = [] ∧ out.2 = db ∧ ∃ code e m, out.1.2 = Refused code e m).
Proof.
  intros db user id t Ht out. split.
  - intros Hmay. unfold out. rewrite (deleteTechnique_allowed db user id t Ht Hmay). simpl.
    split; [eauto|]. unfold getTechniqueById, findById. simpl.
    split; [by rewrite lookup_delete_eq|].
    split; [intros [other|text] Hne; [rewrite lookup_delete_ne by congruence|]; done|].
    split; [done|].
    intros store p Hp [Himg | Hfile]; rewrite runEvents_app.
    + apply runEvents_stays_out. rewrite Himg. by apply deleteFile_unlinks.
    + rewrite Hfile. by apply deleteFile_unlinks.
  - intros Hrole Hown. unfold out, deleteTechnique. rewrite Ht.
    rewrite (bool_decide_eq_false_2 (role user = admin)) by done. simpl.
    destruct (bool_decide (Technique.createdBy t = None)); simpl; [eauto 10|].
    rewrite bool_decide_eq_false_2 by done. simpl. eauto 10.
Qed.

Lemma X8_witness :
  getTechniqueById (deleteTechnique catalogue someUser "t1").2 (Castable "t1")
  = Refused 404 "Técnica no encontrada" "La técnica solicitada no existe".
Proof.
  refine (proj1 (proj2 (proj1 (X8_deleteTechnique_removes_the_technique_and_its_files
                                 catalogue someUser "t1" phishing _) _))).
  - reflexivity.
  - right. reflexivity.
Defined.

(** X9.  A technique that [POST /api/techniques] has just created can be
    deleted by the user who created it, and the deletion gives back the
    collections of before the creation. *)
Theorem X9_deleting_a_created_technique_restores_the_collections :
  ∀ (db : DB) now user uploads body r,
    responseOf (postTechnique db now user uploads body) = Some r →
    status r = 201 →
    ∃ id t,
      payload r = TechniquePayload id t
      ∧ (deleteTechnique (db' (postTechnique db now user uploads body)) user id).2 = db
      ∧ ∃ m body', (deleteTechnique (db' (postTechnique db now user uploads body)) user id).1.2
                   = Replied 200 m body'.
Proof.
  intros db now user uploads body r Hr H201.
  destruct (postTechnique_created _ _ _ _ _ _ Hr H201)
    as (category & doc & saved & techs' & _ & _ & _ & _ & _ & Hby & Hsave & -> & ->).
  apply techniqueSave_inr in Hsave as (-> & _ & _ & _ & _ & Hby' & _).
  eexists _, saved. split; [reflexivity|]. simpl.
  erewrite deleteTechnique_allowed.
  2:{ simpl. apply lookup_insert_eq. }
  2:{ right. congruence. }
  simpl. split; [|eauto].
  rewrite delete_insert_eq, delete_id by apply fresh_id_unused. apply DB_eta.
Qed.

Lemma X9_witness :
  ∃ id, (deleteTechnique (db' (postTechnique catalogue 9 someUser None vishingBody))
           someUser id).2 = catalogue.
Proof.
  edestruct (X9_deleting_a_created_technique_restores_the_collections catalogue 9 someUser
               None vishingBody) as (id & t & _ & Hback & _).
  - vm_compute. reflexivity.
  - reflexivity.
  - exists id. exact Hback.
Defined.

(** ** Techniques and the categories they name *)

Lemma createCategory_keeps (cats : gmap string Category.t) now user body c :
  is_Some (cats !! c) → is_Some ((createCategory cats now user body).2 !! c).
Proof.
  intros Hc. destruct (createCategory cats now user body) as [r cats'] eqn:Hcreate.
  simpl. unfold createCategory in Hcreate.
  repeat match type of Hcreate with
         | (if ?b then _ else _) = _ => destruct b
         end; try (by injection Hcreate as _ <-).
  destruct (categorySave _ _ _ _) as [[|]|[d cats1]] eqn:Hsave;
    try (by injection Hcreate as _ <-).
  apply categorySave_inr in Hsave as (_ & _ & -> & _).
  injection Hcreate as _ <-.
  destruct (decide (fresh (dom cats) = c)) as [->|Hne].
  - rewrite lookup_insert_eq. eauto.
  - by rewrite lookup_insert_ne.
Qed.

Lemma updateCategory_keeps (cats : gmap string Category.t) now user id body c :
  is_Some (cats !! c) → is_Some ((updateCategory cats now user id body).2 !! c).
Proof.
  intros Hc. destruct (updateCategory cats now user id body) as [r cats'] eqn:Hupdate.
  apply updateCategory_inv in Hupdate as [[_ ->] | (old & d & _ & _ & _ & -> & _)];
    simpl; [done|].
  destruct (decide (id = c)) as [->|Hne].
  - rewrite lookup_insert_eq. eauto.
  - by rewrite lookup_insert_ne.
Qed.

Lemma deleteCategory_categoriesResolve db user id :
  categoriesResolve db → categoriesResolve (deleteCategory db user id).2.
Proof.
  intros Hres. unfold deleteCategory.
  destruct (categories db !! id) as [category|] eqn:Hid; [|done].
  destruct (negb _); [done|].
  destruct (0 <? countSubcategories _ _) eqn:Hsub; [done|].
  destruct (0 <? countTechniques _ _) eqn:Htech; [done|].
  apply Nat.ltb_ge in Htech.
  intros x t c Hx Hc. simpl in *.
  destruct (decide (c = id)) as [->|Hne].
  - pose proof (countTechniques_pos _ _ _ _ Hx Hc). lia.
  - rewrite lookup_delete_ne by done. eauto.
Qed.

Lemma categoriesResolve_insert (db : DB) id t :
  categoriesResolve db →
  (∀ c, Technique.category t = Some c → is_Some (categories db !! c)) →
  categoriesResolve (mkDB (categories db) (<[id := t]> (techniques db))).
Proof.
  intros Hres Ht x t' c. simpl.
  destruct (decide (id = x)) as [->|Hne].
  - rewrite lookup_insert_eq. intros [= <-]. apply Ht.
  - rewrite lookup_insert_ne by done. apply Hres.
Qed.

Lemma postTechnique_categoriesResolve db now user uploads body :
  categoriesResolve db → categoriesResolve (db' (postTechnique db now user uploads body)).
Proof.
  intros Hres. unfold postTechnique, createTechnique.
  destruct (JS.falsy (tb_name body) || _ || _); [done|].
  destruct (tb_category body) as [[category|text]|]; [|done..].
  destruct (bool_decide (findById (categories db) category = None)) eqn:Hcat; [done|].
  destruct (negb (JS.falsy (tb_mitreid body)) && _); [done|].
  match goal with
  | |- context [techniqueSave ?t ?n ?i false None ?d] =>
      destruct (techniqueSave t n i false None d) as [e|[saved techs']] eqn:Hsave
  end.
  - by destruct e.
  - simpl. apply techniqueSave_inr in Hsave as (-> & Hc & _).
    apply categoriesResolve_insert; [done|].
    rewrite Hc. simpl. intros c [= <-].
    apply bool_decide_eq_false in Hcat. rewrite findById_None in Hcat.
    by apply not_eq_None_Some.
Qed.

Lemma duplicateTechnique_categoriesResolve send db now user id :
  categoriesResolve db → categoriesResolve (db' (duplicateTechnique send db now user id)).
Proof.
  intros Hres. unfold duplicateTechnique.
  destruct (techniques db !! id) as [original|] eqn:Hid; [|done].
  unfold duplicate.
  destruct (techniqueSave _ _ _ _ _ _) as [e|[saved techs']] eqn:Hsave; [done|].
  simpl. apply techniqueSave_inr in Hsave as (-> & Hc & _).
  apply categoriesResolve_insert; [done|].
  rewrite Hc. simpl. intros c Hcat. by apply (Hres id original).
Qed.

Lemma deleteTechnique_categoriesResolve db user id :
  categoriesResolve db → categoriesResolve (deleteTechnique db user id).2.
Proof.
  intros Hres x t c.
  destruct (deleteTechnique_keeps db user id) as [-> [-> | ->]].
  - apply Hres.
  - intros Hx. apply lookup_delete_Some in Hx as [_ Hx]. by apply (Hres x t).
Qed.

(** The category that the assignments of a body leave: the one of its
    key [category] when it has the key, the former one otherwise. *)
Lemma lookupCategory_cons f l :
  lookupCategory (f :: l)
  = match f with
    | FCategory v => Some v
    | _ => lookupCategory l
    end.
Proof.
  unfold lookupCategory. simpl.
  destruct f; simpl; try reflexivity;
    (destruct (list_find _ l) as [[i g]|]; reflexivity).
Qed.

Lemma lookupCategory_absent l :
  "category" ∉ fieldKey <$> l → lookupCategory l = None.
Proof.
  induction l as [|f l IH]; [done|]. rewrite fmap_cons, not_elem_of_cons.
  intros [Hf Hl]. rewrite lookupCategory_cons.
  destruct f; try (by apply IH). done.
Qed.

Lemma foldl_assignField_category l :
  ∀ t, NoDup (fieldKey <$> l) →
    Technique.category (foldl assignField t l)
    = match lookupCategory l with
      | Some v => if String.eqb v "" then Technique.category t else Some v
      | None => Technique.category t
      end.
Proof.
  induction l as [|f l IH]; intros t Hnodup; [done|].
  rewrite fmap_cons in Hnodup. apply NoDup_cons in Hnodup as [Hf Hnodup].
  simpl. rewrite IH by done. rewrite lookupCategory_cons.
  destruct f; try (by destruct (lookupCategory l) as [w|]; [destruct (String.eqb w "")|]).
  rewrite lookupCategory_absent by done. simpl. by destruct (String.eqb v "").
Qed.

Lemma setKey_keys f l :
  fieldKey f ∉ ["category"] →
  lookupCategory (setKey f l) = lookupCategory l
  ∧ (NoDup (fieldKey <$> l) → NoDup (fieldKey <$> setKey f l)).
Proof.
  intros Hf. induction l as [|g l [IHl IHn]]; simpl.
  - split.
    + rewrite lookupCategory_cons. destruct f; try done. exfalso. apply Hf. left.
    + intros _. apply NoDup_singleton.
  - destruct (String.eqb_spec (fieldKey g) (fieldKey f)) as [Heq|Hne].
    + split.
      * rewrite !lookupCategory_cons.
        destruct f; try (exfalso; apply Hf; left);
          destruct g; try done; discriminate Heq.
      * rewrite !fmap_cons, Heq. done.
    + split.
      * rewrite !lookupCategory_cons. by destruct g.
      * rewrite !fmap_cons, !NoDup_cons. intros [Hg Hl]. split; [|by apply IHn].
        intros Hin. apply Hg. clear -Hin Hne.
        induction l as [|h l IH]; simpl in Hin.
        -- apply list_elem_of_singleton in Hin. congruence.
        -- destruct (String.eqb_spec (fieldKey h) (fieldKey f)) as [Heq|Hne'].
           ++ rewrite fmap_cons in Hin. apply elem_of_cons in Hin as [Hin|Hin];
                [congruence|]. rewrite fmap_cons. by right.
           ++ rewrite fmap_cons in Hin. apply elem_of_cons in Hin as [Hin|Hin].
              ** rewrite fmap_cons, Hin. left.
              ** rewrite fmap_cons. right. by apply IH.
Qed.

Lemma addRevision_category now changes userId t :
  Technique.category (addRevision now changes userId t) = Technique.category t.
Proof. unfold addRevision. by destruct userId. Qed.

Lemma updateTechnique_categoriesResolve send db now user processed id updateData :
  NoDup (fieldKey <$> updateData) →
  categoriesResolve db →
  categoriesResolve (db' (updateTechnique send db now user processed id updateData)).
Proof.
  intros Hnodup Hres. unfold updateTechnique.
  destruct (techniques db !! id) as [technique|] eqn:Hid; [|done].
  destruct (negb _ && bool_decide (Technique.createdBy technique = None)); [done|].
  destruct (negb _ && negb (bool_decide (Technique.createdBy technique = _))); [done|].
  destruct (negb (JS.falsy (lookupCategory updateData))
            && bool_decide (Technique.category technique = None)) eqn:Hnone; [done|].
  destruct (negb (JS.falsy (lookupCategory updateData))
            && negb (bool_decide (Technique.category technique = lookupCategory updateData))
            && bool_decide (findById (categories db)
                              (default "" (lookupCategory updateData)) = None))
    eqn:Hmissing; [done|].
  destruct (negb (JS.falsy (lookupMitreid updateData)) && _ && _); [done|].
  set (data1 := match processedField processed "image" with
                | Some e => setKey (FImage (entryPath e)) updateData
                | None => updateData
                end).
  set (data2 := match processedField processed "document" with
                | Some e => setKey (FFileLocation (entryPath e)) data1
                | None => data1
                end).
  assert (lookupCategory data1 = lookupCategory updateData
          ∧ NoDup (fieldKey <$> data1)) as [Hl1 Hn1].
  { unfold data1. destruct (processedField processed "image") as [e|]; [|done].
    destruct (setKey_keys (FImage (entryPath e)) updateData) as [? Hn];
      [simpl; by intros ?%list_elem_of_singleton|]. auto. }
  assert (lookupCategory data2 = lookupCategory updateData
          ∧ NoDup (fieldKey <$> data2)) as [Hl2 Hn2].
  { unfold data2. destruct (processedField processed "document") as [e|]; [|done].
    destruct (setKey_keys (FFileLocation (entryPath e)) data1) as [? Hn];
      [simpl; by intros ?%list_elem_of_singleton|]. split; [congruence | auto]. }
  destruct (bool_decide (lookupCategory updateData = Some "")) eqn:Hempty; [done|].
  apply bool_decide_eq_false in Hempty.
  destruct (techniqueSave _ _ _ _ _ _) as [e|[saved techs']] eqn:Hsave; [done|].
  simpl. apply techniqueSave_inr in Hsave as (-> & Hc & _).
  apply categoriesResolve_insert; [done|].
  rewrite Hc.
  assert (∀ t0 : Technique.t,
            Technique.category
              (match flat_map (changeOf technique) data2 with
               | [] => t0
               | _ :: _ =>
                   addRevision now (JS.join "; " (flat_map (changeOf technique) data2))
                     (Some (user_id user)) t0
               end) = Technique.category t0) as Hrev.
  { intros t0. destruct (flat_map _ _); [done|]. apply addRevision_category. }
  rewrite Hrev. simpl.
  rewrite foldl_assignField_category, Hl2 by done.
  destruct (lookupCategory updateData) as [v|] eqn:Hv.
  2:{ intros c Hcat. by apply (Hres id technique). }
  destruct (String.eqb_spec v "") as [->|Hv']; [done|].
  intros c [= <-].
  assert (JS.falsy (Some v) = false) as Hf by (by destruct v).
  rewrite Hf in Hnone, Hmissing. simpl in Hnone, Hmissing.
  apply bool_decide_eq_false in Hnone.
  destruct (bool_decide (Technique.category technique = Some v)) eqn:Hsame; simpl in Hmissing.
  - apply bool_decide_eq_true in Hsame. by apply (Hres id technique).
  - apply bool_decide_eq_false in Hmissing. rewrite findById_None in Hmissing.
    by apply not_eq_None_Some.
Qed.

Lemma handle_categoriesResolve db user r :
  keysOnce r → categoriesResolve db → categoriesResolve (handle db user r).
Proof.
  intros Hkeys Hres. destruct r; simpl.
  - intros x t c Hx Hc. simpl in *. apply createCategory_keeps. by apply (Hres x t).
  - intros x t c Hx Hc. simpl in *. apply updateCategory_keeps. by apply (Hres x t).
  - by apply deleteCategory_categoriesResolve.
  - by apply postTechnique_categoriesResolve.
  - by apply updateTechnique_categoriesResolve.
  - by apply duplicateTechnique_categoriesResolve.
  - by apply deleteTechnique_categoriesResolve.
Qed.

(** X10.  No request leaves a technique that names a category which is
    not stored: the property holds of the empty collections and every
    writing route keeps it, for every user and whether the role check
    lets the request through or not. *)
Theorem X10_techniques_name_stored_categories :
  ∀ (db : DB) (rqs : list (option User * Route)),
    categoriesResolve db →
    Forall (λ rq, keysOnce rq.2) rqs →
    categoriesResolve (serveAll db rqs).
Proof.
  intros db rqs. revert db. induction rqs as [|[u r] rqs IH]; intros db Hres Hkeys; [done|].
  apply Forall_cons in Hkeys as [Hkey Hkeys]. simpl. apply IH; [|done].
  unfold serve. simpl. destruct u as [u|]; [|done].
  destruct (guard r (Some u)); try done. by apply handle_categoriesResolve.
Qed.

Lemma X10_witness :
  categoriesResolve
    (serveAll (mkDB ∅ ∅)
       [(Some adminUser, POST_categories 1 (namedBody "Initial Access" None));
        (Some someUser, POST_techniques 2 None
                          (mkTechniqueBody (Some "Vishing") (Some "Voice phishing")
                             (Some (Castable "0"))
                             None None None None None None None None None));
        (Some someUser, PUT_techniques 3 None "0"
                          [FCategory "64b7f0c2a1d3e4f5a6b7c8d9"; FName "Smishing"]);
        (Some adminUser, DELETE_categories "0")]).
Proof.
  apply X10_techniques_name_stored_categories.
  - intros x t c Hx. simpl in Hx. by rewrite lookup_empty in Hx.
  - repeat constructor; simpl; try done.
    + intros H. apply elem_of_cons in H as [H|H]; [discriminate H|].
      by apply not_elem_of_nil in H.
    + apply not_elem_of_nil.
Defined.

(** ** Uploads on update *)

Lemma processedField_multer_Some (l : list (string * list File.t)) key fs :
  (key, fs) ∈ l →
  ∃ fs', processedField (processUploadedFiles (multerFields (Some l))) key = Some (Many fs').
Proof.
  simpl. induction l as [|[k fs0] l IH]; intros Hin.
  - by apply not_elem_of_nil in Hin.
  - simpl. destruct (String.eqb_spec k key) as [->|Hne]; [eauto|].
    apply elem_of_cons in Hin as [Hin|Hin]; [congruence|]. by apply IH.
Qed.

Lemma setKey_elem f l : f ∈ setKey f l.
Proof.
  induction l as [|g l IH]; simpl; [left|].
  destruct (String.eqb (fieldKey g) (fieldKey f)); [left | by right].
Qed.

Lemma setKey_other g f l :
  g ∈ l → fieldKey g ≠ fieldKey f → g ∈ setKey f l.
Proof.
  intros Hg Hne. induction l as [|h l IH]; simpl; [by apply not_elem_of_nil in Hg|].
  apply elem_of_cons in Hg as [<-|Hg].
  - destruct (String.eqb_spec (fieldKey g) (fieldKey f)); [congruence | left].
  - destruct (String.eqb (fieldKey h) (fieldKey f)); right; [done | by apply IH].
Qed.

Lemma setKey_NoDup f l :
  NoDup (fieldKey <$> l) → NoDup (fieldKey <$> setKey f l).
Proof.
  induction l as [|g l IH]; simpl.
  - intros _. apply NoDup_singleton.
  - destruct (String.eqb_spec (fieldKey g) (fieldKey f)) as [Heq|Hne].
    + by rewrite !fmap_cons, Heq.
    + rewrite !fmap_cons, !NoDup_cons. intros [Hg Hl]. split; [|by apply IH].
      intros Hin. apply Hg. clear -Hin Hne.
      induction l as [|h l IH]; simpl in Hin.
      * apply list_elem_of_singleton in Hin. congruence.
      * destruct (String.eqb_spec (fieldKey h) (fieldKey f)) as [Heq|Hne'];
          rewrite fmap_cons in Hin; apply elem_of_cons in Hin as [Hin|Hin];
          rewrite fmap_cons.
        -- congruence.
        -- by right.
        -- rewrite Hin. left.
        -- right. by apply IH.
Qed.

Lemma foldl_assignField_image_absent l :
  ∀ t, "image" ∉ fieldKey <$> l →
    Technique.image (foldl assignField t l) = Technique.image t.
Proof.
  induction l as [|f l IH]; intros t; [done|].
  rewrite fmap_cons, not_elem_of_cons. intros [Hf Hl]. simpl.
  rewrite IH by done. destruct f; simpl; try done. by destruct (String.eqb v "").
Qed.

Lemma foldl_assignField_image l v :
  ∀ t, NoDup (fieldKey <$> l) → FImage v ∈ l →
    Technique.image (foldl assignField t l) = JS.trim <$> v.
Proof.
  induction l as [|f l IH]; intros t Hnodup Hin.
  - by apply not_elem_of_nil in Hin.
  - rewrite fmap_cons in Hnodup. apply NoDup_cons in Hnodup as [Hf Hnodup]. simpl.
    apply elem_of_cons in Hin as [<-|Hin].
    + by rewrite foldl_assignField_image_absent.
    + by apply IH.
Qed.

Lemma addRevision_image now changes userId t :
  Technique.image (addRevision now changes userId t) = Technique.image t.
Proof. unfold addRevision. by destruct userId. Qed.

(** X11.  An image uploaded with [PUT /api/techniques/:id] is not
    recorded either: when the update goes through, the technique is left
    without image and the file of its former image is unlinked. *)
Theorem X11_uploading_an_image_on_update_drops_the_image :
  ∀ (db : DB) now user (l : list (string * list File.t)) id updateData r fs,
    ("image", fs) ∈ l →
    NoDup (fieldKey <$> updateData) →
    responseOf (putTechnique db now user (Some l) id updateData) = Some r →
    status r = 200 →
    ∃ old new n,
      techniques db !! id = Some old
      ∧ payload r = UpdatedTechnique id new n
      ∧ techniques (db' (putTechnique db now user (Some l) id updateData)) !! id = Some new
      ∧ Technique.image new = None
      ∧ ∀ store p, Technique.image old = Some p → p ≠ "" →
          p ∉ runEvents store (events (putTechnique db now user (Some l) id updateData)).
Proof.
  intros db now user l id updateData r fs Hup Hnodup.
  destruct (processedField_multer_Some l "image" fs Hup) as [fs' Himage].
  unfold putTechnique, updateTechnique.
  destruct (techniques db !! id) as [technique|] eqn:Hid.
  2:{ rewrite responseOf_send. by intros [= <-]. }
  destruct (negb _ && bool_decide (Technique.createdBy technique = None)).
  { unfold serverError. rewrite responseOf_pre_send. by intros [= <-]. }
  destruct (negb _ && negb (bool_decide (Technique.createdBy technique = _))).
  { rewrite responseOf_send. by intros [= <-]. }
  destruct (negb (JS.falsy (lookupCategory updateData))
            && bool_decide (Technique.category technique = None)).
  { unfold serverError. rewrite responseOf_pre_send. by intros [= <-]. }
  destruct (negb (JS.falsy (lookupCategory updateData)) && _ && _).
  { rewrite responseOf_send. by intros [= <-]. }
  destruct (negb (JS.falsy (lookupMitreid updateData)) && _ && _).
  { rewrite responseOf_send. by intros [= <-]. }
  destruct (bool_decide (lookupCategory updateData = Some "")).
  { unfold serverError. rewrite responseOf_pre_send. by intros [= <-]. }
  rewrite Himage. simpl entryPath.
  set (data1 := setKey (FImage None) updateData).
  set (data2 := match processedField _ "document" with
                | Some e => setKey (FFileLocation (entryPath e)) data1
                | None => data1
                end).
  assert (FImage None ∈ data2 ∧ NoDup (fieldKey <$> data2)) as [Hin Hn2].
  { unfold data2. destruct (processedField _ "document") as [e|].
    - split; [|by apply setKey_NoDup, setKey_NoDup].
      apply setKey_other; [apply setKey_elem | done].
    - split; [apply setKey_elem | by apply setKey_NoDup]. }
  destruct (techniqueSave _ _ _ _ _ _) as [e|[saved techs']] eqn:Hsave.
  { unfold serverError. rewrite responseOf_pre_send. by intros [= <-]. }
  apply techniqueSave_inr in Hsave as (-> & _ & Himg & _).
  rewrite !app_assoc, responseOf_pre_send. intros [= <-] _.
  exists technique, saved. eexists. split; [done|]. split; [reflexivity|]. simpl.
  split; [apply lookup_insert_eq|]. split.
  - rewrite Himg.
    assert (∀ t0 : Technique.t,
              Technique.image
                (match flat_map (changeOf technique) data2 with
                 | [] => t0
                 | _ :: _ =>
                     addRevision now (JS.join "; " (flat_map (changeOf technique) data2))
                       (Some (user_id user)) t0
                 end) = Technique.image t0) as Hrev.
    { intros t0. destruct (flat_map _ _); [done|]. apply addRevision_image. }
    rewrite Hrev. simpl. by rewrite (foldl_assignField_image data2 None).
  - intros store p Hp Hne. rewrite <- !app_assoc, runEvents_app.
    apply runEvents_stays_out. rewrite Hp. by apply deleteFile_unlinks.
Qed.

Lemma X11_witness :
  ∃ new, techniques (db' (putTechnique withImage 9 someUser
                            (Some [("image", [screenshot])]) "t1" [FName "Phishing 2"]))
         !! "t1" = Some new
         ∧ Technique.image new = None.
Proof.
  edestruct (X11_uploading_an_image_on_update_drops_the_image withImage 9 someUser
               [("image", [screenshot])] "t1" [FName "Phishing 2"])
    as (old & new & n & _ & _ & Hnew & Himg & _).
  - left.
  - apply NoDup_singleton.
  - vm_compute. reflexivity.
  - reflexivity.
  - exists new. split; [exact Hnew | exact Himg].
Defined.

(** ** Pagination *)

Lemma pages_take {A} (l : list A) limit n :
  flat_map (λ p, take limit (drop ((p - 1) * limit) l)) (seq 1 n) = take (n * limit) l.
Proof.
  induction n as [|n IH]; [done|].
  rewrite seq_S, flat_map_app, IH. simpl. rewrite app_nil_r.
  replace (n - 0) with n by lia.
  rewrite take_take_drop. f_equal. lia.
Qed.

Lemma ceil_pages total limit :
  1 ≤ limit → total ≤ (total + limit - 1) / limit * limit
              ∧ ((total + limit - 1) / limit - 1) * limit < total + limit.
Proof.
  intros Hl.
  pose proof (Nat.div_mod (total + limit - 1) limit ltac:(lia)) as Hdm.
  pose proof (Nat.mod_upper_bound (total + limit - 1) limit ltac:(lia)) as Hub.
  split; nia.
Qed.

Lemma ceilDiv_pos total limit :
  1 ≤ limit → ceilDiv total limit = Pages ((total + limit - 1) / limit).
Proof. destruct limit; [lia | done]. Qed.

Lemma skipLimit_pos {A} skip limit (l : list A) :
  1 ≤ limit → skipLimit skip limit l = take limit (drop skip l).
Proof. destruct limit; [lia | done]. Qed.

Lemma flat_map_ext_elem {A B} (f g : A → list B) l :
  (∀ x, x ∈ l → f x = g x) → flat_map f l = flat_map g l.
Proof.
  induction l as [|a l IH]; intros Hfg; [done|]. simpl.
  rewrite Hfg by left. rewrite IH; [done|]. intros x Hx. apply Hfg. by right.
Qed.

Section listing_facts.

Variable regexCompile : string → option (string → bool).

(** Either the search pattern is refused, and every page fails, or one
    sorted list of matches is cut by every page. *)
Lemma getAllCategories_cases (cats : gmap string Category.t) q :
  (∀ page limit,
     ∃ e m, getAllCategories regexCompile cats (withLimit (atPage q page) limit)
            = Refused 500 e m)
  ∨ (∃ found,
       (∀ x c, (x, c) ∈ found →
          cats !! x = Some c
          ∧ (JS.falsy (cq_includeInactive q) = true → Category.isActive c = true))
       ∧ (∀ x c, cats !! x = Some c → JS.falsy (cq_search q) = true →
            JS.falsy (cq_parentCategory q) = true →
            (JS.falsy (cq_includeInactive q) = true → Category.isActive c = true) →
            (x, c) ∈ found)
       ∧ ∀ page limit,
           1 ≤ page ∨ limit = 0 →
           getAllCategories regexCompile cats (withLimit (atPage q page) limit)
           = Replied 200 None
               (mkCategoryList
                  (skipLimit ((page - 1) * limit) limit found)
                  (mkPagination page (ceilDiv (length found) limit) (length found) limit)
                  (pageBelow page (ceilDiv (length found) limit))
                  (1 <? page))).
Proof.
  unfold getAllCategories, withLimit, atPage. simpl.
  destruct (JS.falsy (cq_search q)) eqn:Hsearch.
  - right. eexists. split; [|split].
    3:{ intros page limit Hpage.
        assert ((page =? 0) && (0 <? limit) = false) as ->; [|reflexivity].
        destruct Hpage as [Hp | ->]; [|by rewrite andb_false_r].
        destruct page; [lia | done]. }
    + intros x c Hin. rewrite merge_sort_Permutation in Hin.
      apply list_elem_of_filter in Hin as [Hf Hin]. simpl in Hf.
      apply elem_of_map_to_list in Hin. split; [done|]. intros Hinc.
      rewrite Hinc in Hf. by destruct (Category.isActive c).
    + intros x c Hx _ Hparent Hact. rewrite merge_sort_Permutation.
      apply list_elem_of_filter. split; [|by apply elem_of_map_to_list].
      simpl. unfold parentFilter. rewrite Hparent.
      destruct (JS.falsy (cq_includeInactive q)); [|done]. by rewrite Hact.
  - destruct (regexCompile (default "" (cq_search q))) as [test|]; simpl.
    + right. eexists. split; [|split].
      3:{ intros page limit Hpage.
          assert ((page =? 0) && (0 <? limit) = false) as ->; [|reflexivity].
          destruct Hpage as [Hp | ->]; [|by rewrite andb_false_r].
          destruct page; [lia | done]. }
      * intros x c Hin. rewrite merge_sort_Permutation in Hin.
        apply list_elem_of_filter in Hin as [Hf Hin]. simpl in Hf.
        apply elem_of_map_to_list in Hin. split; [done|]. intros Hinc.
        rewrite Hinc in Hf. by destruct (Category.isActive c).
      * done.
    + left. intros page limit. eauto.
Qed.

(** X12.  The pages of [GET /api/categories] cut the listing without
    loss or overlap: for a limit of at least 1, the pages 1 to
    [totalPages] put end to end are the listing that a limit of 0 (no
    limit) returns at once; it has [totalItems] entries, no page has more
    than [limit], and [hasNextPage] is true exactly below the last
    page. *)
Theorem X12_pages_partition_the_listing :
  ∀ (cats : gmap string Category.t) q limit b,
    1 ≤ limit →
    getAllCategories regexCompile cats (withLimit (atPage q 1) limit) = Replied 200 None b →
    ∃ n,
      totalPages (cl_pagination b) = Pages n
      ∧ flat_map (λ p, listed (getAllCategories regexCompile cats
                                 (withLimit (atPage q p) limit))) (seq 1 n)
        = listed (getAllCategories regexCompile cats (withLimit (atPage q 1) 0))
      ∧ length (listed (getAllCategories regexCompile cats (withLimit (atPage q 1) 0)))
        = totalItems (cl_pagination b)
      ∧ ∀ p, 1 ≤ p →
          ∃ bp, getAllCategories regexCompile cats (withLimit (atPage q p) limit)
                = Replied 200 None bp
                ∧ length (cl_categories bp) ≤ limit
                ∧ cl_hasNextPage bp = bool_decide (p < n)
                ∧ cl_hasPrevPage bp = bool_decide (1 < p)
                ∧ (n < p → cl_categories bp = []).
Proof.
  intros cats q limit b Hlimit Hfirst.
  destruct (getAllCategories_cases cats q) as [Hfail | (found & _ & _ & Hpages)].
  { destruct (Hfail 1 limit) as (e & m & Hf). congruence. }
  rewrite Hpages in Hfirst by (left; lia). injection Hfirst as <-.
  cbn [cl_pagination totalPages totalItems].
  rewrite (ceilDiv_pos _ _ Hlimit) in *.
  set (n := (length found + limit - 1) / limit).
  exists n.
  destruct (ceil_pages (length found) limit Hlimit) as [Hcover Hlast]. fold n in Hcover, Hlast.
  split; [reflexivity|].
  rewrite (Hpages 1 0) by (right; done).
  cbn [listed cl_categories skipLimit]. rewrite Nat.mul_0_r, drop_0.
  split; [|split; [done|]].
  - rewrite (flat_map_ext_elem _ (λ p, take limit (drop ((p - 1) * limit) found))).
    + rewrite (pages_take found limit). apply take_ge. lia.
    + intros p Hp. apply elem_of_seq in Hp. rewrite Hpages by (left; lia).
      cbn [listed cl_categories]. apply skipLimit_pos, Hlimit.
  - intros p Hp. eexists. split; [apply Hpages; left; lia|].
    cbn [cl_categories cl_hasNextPage cl_hasPrevPage].
    rewrite (ceilDiv_pos _ _ Hlimit). fold n. cbn [pageBelow].
    rewrite (skipLimit_pos _ _ _ Hlimit).
    split; [rewrite length_take; lia|].
    split.
    { destruct (Nat.ltb_spec p n);
        [by rewrite bool_decide_eq_true_2 | by rewrite bool_decide_eq_false_2 by lia]. }
    split.
    { destruct (Nat.ltb_spec 1 p);
        [by rewrite bool_decide_eq_true_2 | by rewrite bool_decide_eq_false_2 by lia]. }
    intros Hbeyond. rewrite drop_ge; [by rewrite take_nil|]. nia.
Qed.

(** X13.  Any non-empty value of [includeInactive] switches the filter
    on active categories off, the text ['false'] included: without other
    filters and without limit, a stored category that is inactive is
    listed exactly when [includeInactive] is a non-empty text. *)
Theorem X13_includeInactive_is_read_as_a_flag :
  ∀ (cats : gmap string Category.t) (includeInactive : option string) x c,
    cats !! x = Some c →
    Category.isActive c = false →
    ((x, c) ∈ listed (getAllCategories regexCompile cats
                        (mkCategoryQuery (Some 1) (Some 0) None None includeInactive))
     ↔ ∃ v, includeInactive = Some v ∧ v ≠ "").
Proof.
  intros cats inc x c Hx Hinactive.
  destruct (getAllCategories_cases cats (mkCategoryQuery (Some 1) (Some 0) None None inc))
    as [Hfail | (found & Hsound & Hcomplete & Hpages)].
  { destruct (Hfail 1 0) as (e & m & Hf). unfold withLimit, atPage in Hf. simpl in Hf.
    unfold getAllCategories in Hf. simpl in Hf. discriminate Hf. }
  specialize (Hpages 1 0 (or_intror eq_refl)). unfold withLimit, atPage in Hpages.
  simpl in Hpages. rewrite Hpages. simpl. rewrite drop_0. split.
  - intros Hin. apply Hsound in Hin as [_ Hact]. simpl in Hact.
    destruct inc as [[|a v]|]; simpl in Hact.
    + specialize (Hact eq_refl). congruence.
    + by eexists.
    + specialize (Hact eq_refl). congruence.
  - intros (v & -> & Hv). apply Hcomplete; try done. simpl.
    by destruct v.
Qed.

End listing_facts.

Lemma X12_witness :
  ∃ n,
    flat_map (λ p, listed (getAllCategories (λ _, None) (categories twoLevels)
                             (withLimit (atPage (mkCategoryQuery None None None None None) p) 1)))
             (seq 1 n)
    = listed (getAllCategories (λ _, None) (categories twoLevels)
                (withLimit (atPage (mkCategoryQuery None None None None None) 1) 0)).
Proof.
  edestruct (X12_pages_partition_the_listing (λ _, None) (categories twoLevels)
               (mkCategoryQuery None None None None None) 1) as (n & _ & Hcat & _).
  - lia.
  - vm_compute. reflexivity.
  - exists n. exact Hcat.
Defined.

Lemma X13_witness :
  ("p", Category.set_isActive false (plainCategory "Parked" None))
  ∈ listed (getAllCategories (λ _, None) withOrphan
              (mkCategoryQuery (Some 1) (Some 0) None None (Some "false"))).
Proof.
  apply (X13_includeInactive_is_read_as_a_flag (λ _, None) withOrphan (Some "false") "p"
           (Category.set_isActive false (plainCategory "Parked" None))).
  - vm_compute. reflexivity.
  - reflexivity.
  - exists "false". split; [reflexivity | discriminate].
Defined.

(** ** Reading one category *)

Lemma updateTechnique_categories send db now user processed id updateData :
  categories (db' (updateTechnique send db now user processed id updateData)) = categories db.
Proof.
  unfold updateTechnique, serverError.
  destruct (techniques db !! id); [|done].
  destruct (negb _ && bool_decide (_ = None)); [done|].
  destruct (negb _ && negb _); [done|].
  destruct (negb _ && bool_decide (_ = None)); [done|].
  destruct (negb _ && negb _ && _); [done|].
  destruct (negb _ && negb _ && _); [done|].
  destruct (bool_decide (_ = Some "")); [done|].
  by destruct (techniqueSave _ _ _ _ _ _) as [e|[saved techs']].
Qed.

Lemma createTechnique_categories send db now user processed body :
  categories (db' (createTechnique send db now user processed body)) = categories db.
Proof.
  unfold createTechnique.
  destruct (JS.falsy (tb_name body) || _ || _); [done|].
  destruct (tb_category body) as [[category|text]|]; [|done..].
  destruct (bool_decide _); [done|].
  destruct (negb _ && _); [done|].
  by destruct (techniqueSave _ _ _ _ _ _) as [[| |]|[saved techs']].
Qed.

Lemma duplicateTechnique_categories send db now user id :
  categories (db' (duplicateTechnique send db now user id)) = categories db.
Proof.
  unfold duplicateTechnique. destruct (techniques db !! id); [|done].
  by destruct (duplicate _ _ _ _) as [e|[[newId copy] techs']].
Qed.

Lemma handle_wellFormed db user r :
  wellFormed (categories db) → wellFormed (categories (handle db user r)).
Proof.
  intros Hwf. destruct r; simpl.
  - by apply createCategory_wellFormed.
  - by apply updateCategory_wellFormed.
  - by apply deleteCategory_wellFormed.
  - unfold postTechnique. by rewrite createTechnique_categories.
  - unfold putTechnique. by rewrite updateTechnique_categories.
  - by rewrite duplicateTechnique_categories.
  - by destruct (deleteTechnique_keeps db user id) as [-> _].
Qed.

Lemma serveAll_wellFormed rqs :
  ∀ db, wellFormed (categories db) → wellFormed (categories (serveAll db rqs)).
Proof.
  induction rqs as [|[u r] rqs IH]; intros db Hwf; [done|].
  simpl. apply IH. unfold serve. simpl.
  destruct u as [u|]; [|done]. destruct (guard r (Some u)); try done.
  by apply handle_wellFormed.
Qed.

(** X14.  On the collections that any sequence of requests leaves,
    starting from the empty ones, [GET /api/categories/:id] always
    answers: 400 'ID inválido' for a text that is no [ObjectId], 404 for
    an id that is not stored, and otherwise the category with a
    [fullPath] that lists names joined by [' > '] and ends with the name
    of the category itself. *)
Theorem X14_getCategoryById_answers_on_every_reachable_store :
  ∀ (rqs : list (option User * Route)) (id : IdText),
    let db := serveAll (mkDB ∅ ∅) rqs in
    match id with
    | Uncastable _ =>
        getCategoryById db (size (categories db)) id
        = Some (Refused 400 "ID inválido" "El ID de categoría proporcionado no es válido")
    | Castable i =>
        (categories db !! i = None ∧
         getCategoryById db (size (categories db)) id
         = Some (Refused 404 "Categoría no encontrada" "La categoría solicitada no existe"))
        ∨ (∃ c d names,
             categories db !! i = Some c
             ∧ getCategoryById db (size (categories db)) id = Some (Replied 200 None d)
             ∧ cd_id d = i
             ∧ cd_category d = c
             ∧ cd_fullPath d = JS.join " > " (names ++ [Category.name c])
             ∧ (Category.parentCategory c = None → names = []))
    end.
Proof.
  intros rqs [id|text] db; [|reflexivity].
  assert (wellFormed (categories db)) as [_ Hacyclic].
  { apply serveAll_wellFormed. apply wellFormed_empty. }
  unfold getCategoryById, findById.
  destruct (categories db !! id) as [c|] eqn:Hid; simpl; [right | by left].
  destruct (getFullPath_returns_when_acyclic _ id c Hacyclic Hid) as [path Hpath].
  rewrite Hpath. simpl. unfold getFullPath in Hpath.
  destruct (getFullPathLoop _ _ _ _) as [out|] eqn:Hloop; [|done].
  injection Hpath as <-.
  apply getFullPathLoop_value in Hloop as (k & _ & _ & ->).
  eexists c, _, _. split; [done|]. split; [reflexivity|]. simpl.
  split; [done|]. split; [done|]. split; [reflexivity|].
  intros Hroot. rewrite Hroot. simpl.
  unfold chainNames. clear. induction (seq 0 k) as [|i l IH]; [done|].
  simpl. by rewrite docAt_None.
Qed.

Lemma X14_witness :
  getCategoryById (serveAll (mkDB ∅ ∅) []) 0 (Uncastable "zz")
  = Some (Refused 400 "ID inválido" "El ID de categoría proporcionado no es válido")
  ∧ getCategoryById (serveAll (mkDB ∅ ∅) []) 0 (Castable "64b7f0c2a1d3e4f5a6b7c8d9")
    = Some (Refused 404 "Categoría no encontrada" "La categoría solicitada no existe").
Proof.
  split.
  - exact (X14_getCategoryById_answers_on_every_reachable_store [] (Uncastable "zz")).
  - destruct (X14_getCategoryById_answers_on_every_reachable_store []
                (Castable "64b7f0c2a1d3e4f5a6b7c8d9")) as [[_ H] | (c & d & names & H & _)].
    + exact H.
    + discriminate H.
Defined.

(** X15.  What [getCategoryById] shows tells whether the category can
    be deleted: for an administrator [deleteCategory] answers 200
    exactly when the category is shown with no subcategory and with a
    count of techniques of 0. *)
Theorem X15_deletable_iff_shown_without_dependents :
  ∀ (db : DB) fuel (id : ObjectId) (u : User) d,
    role u = admin →
    getCategoryById db fuel (Castable id) = Some (Replied 200 None d) →
    (status (deleteCategory db u id).1 = 200
     ↔ cd_subcategories d = [] ∧ cd_techniquesCount d = 0).
Proof.
  intros db fuel id u d Hadmin. unfold getCategoryById, deleteCategory, findById.
  destruct (categories db !! id) as [c|] eqn:Hid; simpl; [|done].
  destruct (getFullPath _ _ _) as [path|]; [|done]. simpl. intros [= <-]. simpl.
  rewrite Hadmin. simpl. unfold countSubcategories.
  destruct (filter _ (map_to_list (categories db))) as [|x l]; simpl.
  - destruct (countTechniques (techniques db) id); simpl; split; try done.
    + intros [_ ?]. done.
  - split; [done | by intros [? _]].
Qed.

Lemma X15_witness : status (deleteCategory twoLevels adminUser "1").1 = 200.
Proof.
  refine (proj2 (X15_deletable_iff_shown_without_dependents twoLevels 5 "1" adminUser
                   (mkCategoryDetails "1"
                      (default (plainCategory "" None) (categories twoLevels !! "1")) [] 0
                      "Root > Leaf") _ _) _).
  - reflexivity.
  - vm_compute. reflexivity.
  - split; reflexivity.
Defined.

(** ** The forest of [getHierarchy] *)

#[global] Instance orderNameLe_trans : Transitive orderNameLe.
Proof.
  intros a b c [Hab | [Hab Hnab]] [Hbc | [Hbc Hnbc]]; unfold orderNameLe.
  - left. lia.
  - left. lia.
  - left. lia.
  - right. split; [lia|]. by etrans.
Qed.

#[global] Instance orderNameLe_total : Total orderNameLe.
Proof.
  intros a b. unfold orderNameLe.
  destruct (Z.lt_trichotomy (Category.order a.2) (Category.order b.2)) as [?|[?|?]];
    [by left; left | | by right; left].
  destruct (total String.le (Category.name a.2) (Category.name b.2)).
  - left. right. done.
  - right. right. done.
Qed.

Lemma findActiveSorted_sorted cats : StronglySorted orderNameLe (findActiveSorted cats).
Proof. apply StronglySorted_merge_sort; apply _. Qed.

Lemma findActiveSorted_NoDup (cats : gmap string Category.t) :
  NoDup (findActiveSorted cats).*1.
Proof.
  unfold findActiveSorted. rewrite merge_sort_Permutation.
  eapply sublist_NoDup; [apply (NoDup_fst_map_to_list cats)|].
  apply fmap_sublist, sublist_filter.
Qed.

Lemma StronglySorted_filter {A} (R : relation A) (P : A → Prop) `{∀ x, Decision (P x)} l :
  StronglySorted R l → StronglySorted R (filter P l).
Proof.
  induction 1 as [|x l Hl IH Hx]; [constructor|].
  rewrite filter_cons. destruct (decide (P x)); [|done].
  constructor; [done|]. apply Forall_forall. intros y Hy.
  apply list_elem_of_filter in Hy as [_ Hy].
  rewrite Forall_forall in Hx. by apply Hx.
Qed.

Lemma firstPass_exact (l : list (ObjectId * Category.t)) :
  ∀ (m : gmap string HNode) k,
    NoDup l.*1 →
    foldl (λ m d, <[d.1 := mkHNode d.2 []]> m) m l !! k
    = match list_find (λ d, d.1 = k) l with
      | Some (_, d) => Some (mkHNode d.2 [])
      | None => m !! k
      end.
Proof.
  induction l as [|[x c] l IH]; intros m k Hnodup; [done|].
  rewrite fmap_cons in Hnodup. apply NoDup_cons in Hnodup as [Hx Hnodup].
  simpl. rewrite IH by done.
  destruct (decide (x = k)) as [->|Hne].
  - destruct (list_find _ l) as [[i d]|] eqn:Hfind.
    + apply list_find_Some in Hfind as (Hi & Hd & _). exfalso. apply Hx.
      apply list_elem_of_fmap. exists d. split; [done|]. by eapply list_elem_of_lookup_2.
    + simpl. by rewrite lookup_insert_eq.
  - destruct (list_find _ l) as [[i d]|]; simpl; [done|].
    by rewrite lookup_insert_ne.
Qed.

Lemma firstPass_active (cats : gmap string Category.t) k :
  firstPass (findActiveSorted cats) !! k
  = match cats !! k with
    | Some c => if Category.isActive c then Some (mkHNode c []) else None
    | None => None
    end.
Proof.
  unfold firstPass. rewrite firstPass_exact by apply findActiveSorted_NoDup.
  rewrite lookup_empty.
  destruct (list_find _ _) as [[i [x c]]|] eqn:Hfind.
  - apply list_find_Some in Hfind as (Hi & Hx & _). simpl in Hx. subst x.
    apply list_elem_of_lookup_2, findActiveSorted_elem in Hi as [-> ->]. done.
  - destruct (cats !! k) as [c|] eqn:Hk; [|done].
    destruct (Category.isActive c) eqn:Hact; [|done].
    exfalso. eapply list_find_None in Hfind. rewrite Forall_forall in Hfind.
    apply (Hfind (k, c)); [|done].
    apply findActiveSorted_elem. done.
Qed.

Lemma HNode_eta n : mkHNode (h_cat n) (children n) = n.
Proof. by destruct n. Qed.

(** The second pass appends, in the order of the list: to the roots the
    documents without parent, and to the children of every entry the
    documents that name it as their parent. *)
Lemma secondPass_exact (l : list (ObjectId * Category.t)) :
  ∀ (st : gmap string HNode * list ObjectId),
    (foldl secondPassStep st l).2
    = st.2 ++ (filter (λ d, Category.parentCategory d.2 = None) l).*1
    ∧ ∀ k,
        (foldl secondPassStep st l).1 !! k
        = (λ n, mkHNode (h_cat n)
                  (children n
                   ++ (filter (λ d, Category.parentCategory d.2 = Some k) l).*1))
          <$> st.1 !! k.
Proof.
  induction l as [|[x c] l IH]; intros st.
  - simpl. rewrite app_nil_r. split; [done|]. intros k.
    destruct (st.1 !! k) as [n|]; simpl; [|done].
    by rewrite app_nil_r, HNode_eta.
  - simpl. destruct (IH (secondPassStep st (x, c))) as [IHr IHc].
    rewrite IHr. split.
    + unfold secondPassStep. simpl.
      destruct (Category.parentCategory c) as [p|] eqn:Hp.
      * rewrite filter_cons_False by (simpl; congruence).
        by destruct (st.1 !! p).
      * rewrite filter_cons_True by done. simpl. by rewrite <- app_assoc.
    + intros k. rewrite IHc. unfold secondPassStep. simpl.
      destruct (Category.parentCategory c) as [p|] eqn:Hp.
      * destruct (decide (p = k)) as [->|Hne].
        -- rewrite filter_cons_True by done.
           destruct (st.1 !! k) as [n|] eqn:Hk; simpl.
           ++ rewrite lookup_alter_eq, Hk. simpl. by rewrite <- app_assoc.
           ++ by rewrite Hk.
        -- rewrite filter_cons_False by (simpl; congruence).
           destruct (st.1 !! p) as [n|] eqn:Hpk; simpl; [|done].
           by rewrite lookup_alter_ne.
      * simpl. rewrite filter_cons_False by (simpl; congruence). done.
Qed.

(** The heap and the roots that [getHierarchy] returns, entry by
    entry. *)
Lemma getHierarchy_exact (cats : gmap string Category.t) :
  (getHierarchy cats).2
  = (filter (λ d, Category.parentCategory d.2 = None) (findActiveSorted cats)).*1
  ∧ ∀ k,
      (getHierarchy cats).1 !! k
      = match cats !! k with
        | Some c =>
            if Category.isActive c
            then Some (mkHNode c
                         (filter (λ d, Category.parentCategory d.2 = Some k)
                                 (findActiveSorted cats)).*1)
            else None
        | None => None
        end.
Proof.
  unfold getHierarchy.
  destruct (secondPass_exact (findActiveSorted cats)
              (firstPass (findActiveSorted cats), [])) as [Hr Hc].
  split; [exact Hr|]. intros k. rewrite Hc. simpl. rewrite firstPass_active.
  destruct (cats !! k) as [c|]; [|done]. by destruct (Category.isActive c).
Qed.

Lemma filter_findActiveSorted (cats : gmap string Category.t)
    (P : ObjectId * Category.t → Prop) `{∀ d, Decision (P d)} :
  let docs := filter P (findActiveSorted cats) in
  StronglySorted orderNameLe docs
  ∧ NoDup docs.*1
  ∧ ∀ x c, (x, c) ∈ docs ↔ cats !! x = Some c ∧ Category.isActive c = true ∧ P (x, c).
Proof.
  simpl. split; [apply StronglySorted_filter, findActiveSorted_sorted|]. split.
  - eapply sublist_NoDup; [apply (findActiveSorted_NoDup cats)|].
    apply fmap_sublist, sublist_filter.
  - intros x c. rewrite list_elem_of_filter, findActiveSorted_elem. tauto.
Qed.

(** X16.  [getHierarchy] returns as roots exactly the active categories
    without parent, and gives every active category, and no other, an
    entry whose [children] are exactly the active categories that name
    it as parent; both lists are in ascending [order], then [name],
    without repetition. *)
Theorem X16_getHierarchy_roots_and_children :
  ∀ (cats : gmap string Category.t),
    (∃ docs,
       snd (getHierarchy cats) = docs.*1
       ∧ StronglySorted orderNameLe docs
       ∧ NoDup docs.*1
       ∧ ∀ x c, (x, c) ∈ docs
                ↔ cats !! x = Some c ∧ Category.isActive c = true
                  ∧ Category.parentCategory c = None)
    ∧ (∀ k, is_Some (fst (getHierarchy cats) !! k)
            ↔ ∃ c, cats !! k = Some c ∧ Category.isActive c = true)
    ∧ (∀ k n,
         fst (getHierarchy cats) !! k = Some n →
         cats !! k = Some (h_cat n)
         ∧ ∃ docs,
             children n = docs.*1
             ∧ StronglySorted orderNameLe docs
             ∧ NoDup docs.*1
             ∧ ∀ y c, (y, c) ∈ docs
                      ↔ cats !! y = Some c ∧ Category.isActive c = true
                        ∧ Category.parentCategory c = Some k).
Proof.
  intros cats. destruct (getHierarchy_exact cats) as [Hroots Hheap]. split; [|split].
  - eexists. split; [exact Hroots|].
    apply (filter_findActiveSorted cats (λ d, Category.parentCategory d.2 = None)).
  - intros k. rewrite Hheap. destruct (cats !! k) as [c|]; [|split].
    + destruct (Category.isActive c) eqn:Hact; split.
      * eauto.
      * eauto.
      * by intros [? ?].
      * intros (c' & [= <-] & Hact'). congruence.
    + by intros [? ?].
    + by intros (? & ? & _).
  - intros k n. rewrite Hheap.
    destruct (cats !! k) as [c|] eqn:Hk; [|done].
    destruct (Category.isActive c) eqn:Hact; [|done].
    intros [= <-]. simpl. split; [done|]. eexists. split; [done|].
    apply (filter_findActiveSorted cats (λ d, Category.parentCategory d.2 = Some k)).
Qed.

Lemma flat_map_flat_map {A B C} (f : A → list B) (g : B → list C) l :
  flat_map g (flat_map f l) = flat_map (λ a, flat_map g (f a)) l.
Proof.
  induction l as [|a l IH]; [done|]. simpl. by rewrite flat_map_app, IH.
Qed.

Lemma elem_of_flat_map {A B} (f : A → list B) l y :
  y ∈ flat_map f l ↔ ∃ x, x ∈ l ∧ y ∈ f x.
Proof.
  rewrite list_elem_of_In, in_flat_map. split; intros (x & Hx & Hy); exists x.
  - by rewrite !list_elem_of_In.
  - by rewrite <- !list_elem_of_In.
Qed.

(** The ids below [r], [r] included, down to [depth] levels. *)
Lemma unfoldNode_ids_S (heap : gmap string HNode) depth r x :
  x ∈ flat_map treeIds (unfoldNode heap (S depth) r)
  ↔ ∃ n, heap !! r = Some n
         ∧ (x = r ∨ ∃ child, child ∈ children n
                             ∧ x ∈ flat_map treeIds (unfoldNode heap depth child)).
Proof.
  simpl. destruct (heap !! r) as [n|]; simpl.
  - rewrite app_nil_r, elem_of_cons, flat_map_flat_map, elem_of_flat_map. split.
    + intros H. exists n. split; [done|]. exact H.
    + intros (n' & [= <-] & H). exact H.
  - split; [by intros H%not_elem_of_nil | by intros (? & ? & _)].
Qed.

Lemma children_active (cats : gmap string Category.t) k n y :
  (getHierarchy cats).1 !! k = Some n →
  (y ∈ children n
   ↔ ∃ c, cats !! y = Some c ∧ Category.isActive c = true
          ∧ Category.parentCategory c = Some k).
Proof.
  destruct (getHierarchy_exact cats) as [_ Hheap]. rewrite Hheap.
  destruct (cats !! k) as [ck|]; [|done].
  destruct (Category.isActive ck); [|done]. intros [= <-]. simpl.
  rewrite list_elem_of_fmap. split.
  - intros ([y' c] & -> & Hin). apply list_elem_of_filter in Hin as [Hp Hin].
    apply findActiveSorted_elem in Hin as [Hy Hact]. eauto.
  - intros (c & Hy & Hact & Hp). exists (y, c). split; [done|].
    apply list_elem_of_filter. split; [done|]. by apply findActiveSorted_elem.
Qed.

Lemma heap_active (cats : gmap string Category.t) k :
  is_Some ((getHierarchy cats).1 !! k)
  ↔ ∃ c, cats !! k = Some c ∧ Category.isActive c = true.
Proof.
  destruct (getHierarchy_exact cats) as [_ Hheap]. rewrite Hheap.
  destruct (cats !! k) as [c|]; [|split; [by intros [? ?] | by intros (? & ? & _)]].
  destruct (Category.isActive c) eqn:Hact; split; eauto.
  - by intros [? ?].
  - intros (c' & [= <-] & ?). congruence.
Qed.

Lemma roots_active (cats : gmap string Category.t) x :
  x ∈ (getHierarchy cats).2 ↔ activeAncestors cats x 0.
Proof.
  destruct (getHierarchy_exact cats) as [-> _]. rewrite list_elem_of_fmap. simpl. split.
  - intros ([x' c] & -> & Hin). apply list_elem_of_filter in Hin as [Hp Hin].
    apply findActiveSorted_elem in Hin as [Hx Hact]. eauto.
  - intros (c & Hx & Hact & Hp). exists (x, c). split; [done|].
    apply list_elem_of_filter. split; [done|]. by apply findActiveSorted_elem.
Qed.

Lemma activeAncestors_stored cats x k :
  activeAncestors cats x k → ∃ c, cats !! x = Some c ∧ Category.isActive c = true.
Proof. destruct k; intros (c & ? & ? & _); eauto. Qed.

(** Every id below a node whose ancestors are active has active
    ancestors itself. *)
Lemma unfoldNode_sound (cats : gmap string Category.t) depth :
  ∀ r kr x,
    activeAncestors cats r kr →
    x ∈ flat_map treeIds (unfoldNode (getHierarchy cats).1 depth r) →
    ∃ k, k < kr + depth ∧ activeAncestors cats x k.
Proof.
  induction depth as [|depth IH]; intros r kr x Hr Hx.
  - by apply not_elem_of_nil in Hx.
  - apply unfoldNode_ids_S in Hx as (n & Hn & [-> | (child & Hchild & Hx)]).
    + exists kr. split; [lia | done].
    + apply (children_active cats r n child Hn) in Hchild as (c & Hc & Hact & Hp).
      destruct (IH child (S kr) x) as (k & Hk & Hxk); [|done|].
      * exists c. split; [done|]. split; [done|]. eauto.
      * exists k. split; [lia | done].
Qed.

(** A child of a node that is reached within [depth] levels is reached
    within [depth + 1] levels. *)
Lemma unfoldNode_child (cats : gmap string Category.t) depth :
  ∀ r p n c,
    p ∈ flat_map treeIds (unfoldNode (getHierarchy cats).1 depth r) →
    (getHierarchy cats).1 !! p = Some n → c ∈ children n →
    c ∈ flat_map treeIds (unfoldNode (getHierarchy cats).1 (S depth) r).
Proof.
  induction depth as [|depth IH]; intros r p n c Hp Hn Hc.
  - by apply not_elem_of_nil in Hp.
  - apply unfoldNode_ids_S in Hp as (nr & Hnr & [-> | (child & Hchild & Hp)]).
    + apply unfoldNode_ids_S. exists nr. split; [done|]. right.
      assert (nr = n) as -> by congruence.
      exists c. split; [done|]. apply unfoldNode_ids_S.
      apply (children_active cats r n c Hn) in Hc as (cc & Hcc & Hact & _).
      destruct (proj2 (heap_active cats c)) as [nc Hnc]; [eauto|].
      exists nc. split; [done|]. by left.
    + apply unfoldNode_ids_S. exists nr. split; [done|]. right.
      exists child. split; [done|]. by apply (IH child p n c).
Qed.

Lemma unfoldNode_complete (cats : gmap string Category.t) k :
  ∀ x depth,
    activeAncestors cats x k → k < depth →
    ∃ r, r ∈ (getHierarchy cats).2
         ∧ x ∈ flat_map treeIds (unfoldNode (getHierarchy cats).1 depth r).
Proof.
  induction k as [|k IH]; intros x depth Hx Hdepth.
  - exists x. split; [by apply roots_active|].
    destruct depth as [|depth]; [lia|].
    apply unfoldNode_ids_S.
    destruct (activeAncestors_stored _ _ _ Hx) as (c & Hc & Hact).
    destruct (proj2 (heap_active cats x)) as [n Hn]; [eauto|].
    exists n. split; [done|]. by left.
  - destruct Hx as (c & Hc & Hact & p & Hp & Hpk).
    destruct depth as [|depth]; [lia|].
    destruct (IH p depth Hpk ltac:(lia)) as (r & Hr & Hin).
    exists r. split; [done|].
    destruct (activeAncestors_stored _ _ _ Hpk) as (cp & Hcp & Hactp).
    destruct (proj2 (heap_active cats p)) as [n Hn]; [eauto|].
    apply (unfoldNode_child cats depth r p n x Hin Hn).
    apply (children_active cats p n x Hn). eauto.
Qed.

(** X17.  The forest that [getHierarchy] returns holds, down to [depth]
    levels, exactly the active categories that fewer than [depth] ancestors
    separate from an active category without parent through active
    categories only. *)
Theorem X17_forest_holds_the_categories_with_active_ancestors :
  ∀ (cats : gmap string Category.t) (x : ObjectId) (depth : nat),
    x ∈ forestIds (getHierarchy cats) depth
    ↔ ∃ k, k < depth ∧ activeAncestors cats x k.
Proof.
  intros cats x depth. unfold forestIds, unfoldForest.
  rewrite flat_map_flat_map, elem_of_flat_map. split.
  - intros (r & Hr & Hx). apply roots_active in Hr.
    destruct (unfoldNode_sound cats depth r 0 x Hr Hx) as (k & Hk & Hxk). eauto.
  - intros (k & Hk & Hxk). by apply (unfoldNode_complete cats k).
Qed.

(** ** Uploads: the filters and the name on disk *)

Lemma elem_of_existsb {A} (f : A → bool) l :
  existsb f l = true ↔ ∃ x, x ∈ l ∧ f x = true.
Proof.
  rewrite existsb_exists. split; intros (x & Hx & Hf); exists x.
  - by rewrite list_elem_of_In.
  - by rewrite <- list_elem_of_In.
Qed.

(** X18.  [anyFileFilter] accepts every file that [imageFilter] or
    [documentFilter] accepts, and more: it also accepts a file whose type
    and extension come from different families, which both of them
    reject. *)
Theorem X18_anyFileFilter_is_weaker_than_both_filters :
  (∀ file, imageFilter file = Accept ∨ documentFilter file = Accept →
           anyFileFilter file = Accept)
  ∧ (∀ fieldname filename path size,
       let file := File.mk fieldname "report.pdf" filename path size "image/png" in
       anyFileFilter file = Accept
       ∧ imageFilter file ≠ Accept ∧ documentFilter file ≠ Accept).
Proof.
  split.
  - intros file H. unfold anyFileFilter, imageFilter, documentFilter in *.
    assert (∀ (P : Prop) `{Decision P} (b : bool) m,
              (if bool_decide P && b then Accept else Reject m) = Accept → P ∧ b = true)
      as Hinv.
    { intros P ? b m. destruct (decide P).
      - rewrite bool_decide_eq_true_2 by done. by destruct b.
      - by rewrite bool_decide_eq_false_2. }
    assert (bool_decide
              (File.mimetype file
               ∈ ["image/jpeg"; "image/jpg"; "image/png"; "image/gif"; "image/webp";
                  "application/pdf"; "application/msword";
                  "application/vnd.openxmlformats-officedocument.wordprocessingml.document";
                  "text/plain"; "text/markdown"; "application/json"; "text/csv"]) = true
            ∧ testExtension
                ["jpeg"; "jpg"; "png"; "gif"; "webp"; "pdf"; "doc"; "docx"; "txt"; "md";
                 "json"; "csv"] (File.originalname file) = true) as [-> ->]; [|done].
    unfold testExtension in *.
    destruct H as [H|H]; apply Hinv in H as [Hm He];
      apply elem_of_existsb in He as (e & He & Hends).
    + split; [apply bool_decide_eq_true; set_solver|].
      apply elem_of_existsb. exists e. split; [set_solver | done].
    + split; [apply bool_decide_eq_true; set_solver|].
      apply elem_of_existsb. exists e. split; [set_solver | done].
  - intros. repeat split; vm_compute; congruence.
Qed.

Lemma X18_witness :
  anyFileFilter (File.mk "image" "Shot.PNG" "shot-1.png" "uploads/images/shot-1.png" 1024
                         "image/png") = Accept.
Proof.
  apply (proj1 X18_anyFileFilter_is_weaker_than_both_filters). left. reflexivity.
Defined.

(** X19.  [handleUploadError] answers 400 to the rejections of
    [imageFilter] and of [anyFileFilter], but it does not recognise the
    rejection of [documentFilter], which it hands on with [next(error)]. *)
Theorem X19_document_rejections_are_not_answered_by_handleUploadError :
  ∀ file msg,
    (imageFilter file = Reject msg ∨ anyFileFilter file = Reject msg →
     handleUploadError (OtherError msg) = Answer 400 "Tipo de archivo no válido" msg [])
    ∧ (documentFilter file = Reject msg →
       handleUploadError (OtherError msg) = NextError msg).
Proof.
  intros file msg. unfold imageFilter, anyFileFilter, documentFilter. split.
  - intros [H|H]; destruct (_ && _); try discriminate H; by injection H as <-.
  - intros H. destruct (_ && _); try discriminate H. by injection H as <-.
Qed.

Lemma X19_witness :
  handleUploadError
    (OtherError ("Tipo de documento no permitido. "
                 +:+ "Formatos permitidos: PDF, DOC, DOCX, TXT, MD, JSON, CSV"))
  = NextError ("Tipo de documento no permitido. "
               +:+ "Formatos permitidos: PDF, DOC, DOCX, TXT, MD, JSON, CSV").
Proof.
  apply (proj2 (X19_document_rejections_are_not_answered_by_handleUploadError
                  (File.mk "document" "notes.exe" "n" "uploads/files/n" 1 "text/plain") _)).
  reflexivity.
Defined.

Lemma nameChars_app a b : nameChars (a +:+ b) = nameChars a && nameChars b.
Proof. induction a as [|c a IH]; simpl; [done|]. by rewrite IH, andb_assoc. Qed.

Lemma cleanName_chars s : nameChars (cleanName s) = true.
Proof.
  unfold cleanName. induction s as [|c s IH]; simpl; [done|].
  rewrite IH, andb_true_r. clear.
  destruct c as [[] [] [] [] [] [] [] []]; reflexivity.
Qed.

Lemma nameChars_digits d : nameChars (NilEmpty.string_of_uint d) = true.
Proof. induction d; simpl; try done; by rewrite IHd. Qed.

Lemma append_cons c a b : String c a +:+ b = String c (a +:+ b).
Proof. reflexivity. Qed.

Lemma append_assoc a b c : (a +:+ b) +:+ c = a +:+ b +:+ c.
Proof. induction a as [|x a IH]; [done|]. rewrite !append_cons. by rewrite IH. Qed.

Lemma splitLastDot_app s pre ext :
  splitLastDot s = Some (pre, ext) → s = pre +:+ ext.
Proof.
  revert pre ext. induction s as [|c s IH]; intros pre ext; simpl; [done|].
  destruct (splitLastDot s) as [[pre' ext']|].
  - intros [= <- <-]. rewrite append_cons. f_equal. by apply IH.
  - destruct (Ascii.eqb c "."); [|done]. by intros [= <- <-].
Qed.

Lemma substring_app_l a b : substring 0 (String.length a) (a +:+ b) = a.
Proof.
  induction a as [|c a IH]; [by destruct b|].
  rewrite append_cons. simpl. by rewrite IH.
Qed.

Lemma length_append a b : String.length (a +:+ b) = String.length a + String.length b.
Proof.
  induction a as [|c a IH]; [done|]. rewrite append_cons. simpl. by rewrite IH.
Qed.

(** The extension and the base name put the clean name back together. *)
Lemma basename_extname s : basename s (extname s) +:+ extname s = s.
Proof.
  unfold basename, extname.
  destruct (splitLastDot s) as [[pre ext]|] eqn:Hsplit.
  - apply splitLastDot_app in Hsplit. subst s.
    destruct (String.eqb pre "" || String.eqb (pre +:+ ext) "..").
    + simpl. rewrite Nat.sub_0_r.
      rewrite <- (string_app_nil_r (pre +:+ ext)) at 2.
      by rewrite substring_app_l, string_app_nil_r.
    + rewrite length_append, Nat.add_sub. by rewrite substring_app_l.
  - simpl. rewrite Nat.sub_0_r. rewrite <- (string_app_nil_r s) at 2.
    by rewrite substring_app_l, string_app_nil_r.
Qed.

Lemma substring_all s : substring 0 (String.length s) s = s.
Proof. induction s as [|c s IH]; simpl; [done|]. by rewrite IH. Qed.

(** The cut of [splitLastDot] is at the last dot. *)
Lemma splitLastDot_None s : splitLastDot s = None → noDot s = true.
Proof.
  induction s as [|c s IH]; simpl; [done|].
  destruct (splitLastDot s) as [[pre ext]|]; [done|].
  destruct (Ascii.eqb c "."); [done|]. intros _. by rewrite IH.
Qed.

Lemma splitLastDot_Some s pre ext :
  splitLastDot s = Some (pre, ext) → ∃ rest, ext = String "." rest ∧ noDot rest = true.
Proof.
  revert pre ext. induction s as [|c s IH]; intros pre ext; simpl; [done|].
  destruct (splitLastDot s) as [[pre' ext']|] eqn:Hs.
  - intros [= <- <-]. by eapply IH.
  - destruct (Ascii.eqb_spec c ".") as [->|]; [|done].
    intros [= <- <-]. exists s. split; [done|]. by apply splitLastDot_None.
Qed.

(** X20.  Whatever the name that the client gave to an upload, the name
    under which the file is stored is made of lower-case letters,
    digits, dots, dashes and underscores only: it holds no path
    separator.  It is the cleaned name with the unique suffix put before
    its extension, which is the part of the cleaned name from its last
    dot on; a name without dot, a name whose only dot is its first
    character and the name '..' have no extension, and the suffix then
    comes last. *)
Theorem X20_stored_file_names_are_safe :
  ∀ (originalname : string) (now random : nat),
    nameChars (filename originalname now random) = true
    ∧ ∃ base ext,
        cleanName originalname = base +:+ ext
        ∧ filename originalname now random
          = base +:+ "-" +:+ JS.natToString now +:+ "-" +:+ JS.natToString random +:+ ext
        ∧ ext = extname (cleanName originalname)
        ∧ (ext = ""
           ∧ (noDot base = true
              ∨ (∃ rest, base = String "." rest ∧ noDot rest = true)
              ∨ base = "..")
           ∨ ∃ rest, ext = String "." rest ∧ noDot rest = true
                     ∧ base ≠ "" ∧ cleanName originalname ≠ "..").
Proof.
  intros originalname now random. unfold filename.
  pose proof (basename_extname (cleanName originalname)) as Hsplit.
  pose proof (cleanName_chars originalname) as Hchars.
  set (ext := extname (cleanName originalname)) in *.
  set (base := basename (cleanName originalname) ext) in *.
  rewrite <- Hsplit, nameChars_app in Hchars. apply andb_true_iff in Hchars as [Hb He].
  split.
  - rewrite !nameChars_app, Hb, He. unfold JS.natToString.
    rewrite !nameChars_digits. reflexivity.
  - exists base, ext. split; [done|]. split; [by rewrite !append_assoc|].
    split; [done|].
    revert Hsplit. unfold base, ext. clear. unfold extname, basename.
    generalize (cleanName originalname) as s. intros s.
    destruct (splitLastDot s) as [[pre e]|] eqn:Hs.
    + destruct (splitLastDot_Some _ _ _ Hs) as (rest & -> & Hrest).
      pose proof (splitLastDot_app _ _ _ Hs) as Happ.
      destruct (String.eqb_spec pre "") as [->|Hpre]; simpl.
      * intros _. left. split; [done|]. rewrite ?Nat.sub_0_r, substring_all.
        right. left. exists rest. by rewrite Happ.
      * destruct (String.eqb_spec s "..") as [->|Hs']; simpl.
        -- intros _. left. split; [done|]. by right; right.
        -- intros _. right. exists rest. split; [done|]. split; [done|].
           split; [|done]. rewrite Happ at 2.
           rewrite Happ, length_append, Nat.add_sub, substring_app_l. done.
    + intros _. left. split; [done|]. simpl. rewrite ?Nat.sub_0_r, substring_all.
      left. by apply splitLastDot_None.
Qed.

Lemma X20_witness :
  nameChars (filename "My Photo.PNG" 17 5) = true
  ∧ filename "My Photo.PNG" 17 5 = "my_photo-17-5.png".
Proof.
  split.
  - apply (proj1 (X20_stored_file_names_are_safe "My Photo.PNG" 17 5)).
  - reflexivity.
Defined.

(** ** Logging in *)

Lemma findByEmailOrUsername_unique (users : gmap string Account.t) key id u :
  logsInAs users key id u → findByEmailOrUsername users key = Some (id, u).
Proof.
  intros (Hu & Hkey & Hunique). unfold findByEmailOrUsername.
  destruct (list_find_elem_of
              (λ d : string * Account.t, Account.email d.2 = key ∨ Account.username d.2 = key)
              (map_to_list users) (id, u)) as [[i [id' u']] Hfind].
  { by apply elem_of_map_to_list. }
  { done. }
  rewrite Hfind. simpl.
  apply list_find_Some in Hfind as (Hi & Hmatch & _).
  apply list_elem_of_lookup_2, elem_of_map_to_list in Hi. simpl in Hmatch.
  assert (id' = id) as -> by (by eapply Hunique). congruence.
Qed.

Lemma logsInAs_insert (users : gmap string Account.t) key id u u' :
  logsInAs users key id u →
  Account.email u' = Account.email u → Account.username u' = Account.username u →
  logsInAs (<[id := u']> users) key id u'.
Proof.
  intros (Hu & Hkey & Hunique) He Hn. split; [apply lookup_insert_eq|].
  split; [by rewrite He, Hn|].
  intros id' v. destruct (decide (id = id')) as [->|Hne]; [done|].
  rewrite lookup_insert_ne by done. apply Hunique.
Qed.

Lemma falsy_Some s : s ≠ "" → JS.falsy (Some s) = false.
Proof. by destruct s. Qed.

Lemma incLoginAttempts_keeps now u :
  Account.email (incLoginAttempts now u) = Account.email u
  ∧ Account.username (incLoginAttempts now u) = Account.username u
  ∧ Account.password (incLoginAttempts now u) = Account.password u
  ∧ Account.isActive (incLoginAttempts now u) = Account.isActive u.
Proof.
  unfold incLoginAttempts.
  destruct (Account.lockUntil u) as [l|]; [destruct (l <? now)%Z|]; done.
Qed.

Section login_facts.

Variable comparePassword : string → string → bool.

Lemma login_found (users : gmap string Account.t) email password now id u :
  email ≠ "" → password ≠ "" →
  logsInAs users (JS.toLowerCase email) id u →
  login comparePassword users (Some email) (Some password) now
  = if isLocked now u then
      (LoginRefused 423 "Cuenta bloqueada"
         "Tu cuenta está temporalmente bloqueada debido a múltiples intentos fallidos"
         (Account.lockUntil u), users)
    else if negb (Account.isActive u) then
      (LoginRefused 401 "Cuenta desactivada"
         "Tu cuenta ha sido desactivada. Contacta al administrador" None, users)
    else if negb (comparePassword password (Account.password u)) then
      (LoginRefused 401 "Credenciales inválidas"
                    "Email/usuario o contraseña incorrectos" None,
       <[id := incLoginAttempts now u]> users)
    else (LoggedIn id u, <[id := resetLoginAttempts now u]> users).
Proof.
  intros He Hp Hlog. unfold login.
  rewrite (falsy_Some _ He), (falsy_Some _ Hp). simpl.
  by rewrite (findByEmailOrUsername_unique _ _ _ _ Hlog).
Qed.

(** One more wrong password on an account that is active and not
    locked. *)
Lemma login_wrong (users : gmap string Account.t) email wrong now id u :
  email ≠ "" → wrong ≠ "" →
  logsInAs users (JS.toLowerCase email) id u →
  Account.isActive u = true → isLocked now u = false →
  comparePassword wrong (Account.password u) = false →
  (login comparePassword users (Some email) (Some wrong) now).2
  = <[id := incLoginAttempts now u]> users
  ∧ logsInAs (<[id := incLoginAttempts now u]> users) (JS.toLowerCase email) id
             (incLoginAttempts now u).
Proof.
  intros He Hp Hlog Hact Hlock Hwrong.
  rewrite (login_found users email wrong now id u He Hp Hlog), Hlock, Hact, Hwrong. simpl.
  split; [done|].
  destruct (incLoginAttempts_keeps now u) as (Hemail & Hname & _).
  by apply (logsInAs_insert _ _ _ u).
Qed.

(** X21.  Five wrong passwords in a row on an active account that had
    no failed attempt lock it for two hours from the fifth: until then
    every login is answered 423, the right password included, and leaves
    the account as it is. *)
Theorem X21_five_wrong_passwords_lock_the_account :
  ∀ (users : gmap string Account.t) email wrong id u t1 t2 t3 t4 t5,
    email ≠ "" → wrong ≠ "" →
    logsInAs users (JS.toLowerCase email) id u →
    Account.isActive u = true →
    Account.loginAttempts u = 0 → Account.lockUntil u = None →
    comparePassword wrong (Account.password u) = false →
    let users' := loginsAt comparePassword users email wrong [t1; t2; t3; t4; t5] in
    (∃ u', users' !! id = Some u'
           ∧ Account.loginAttempts u' = 5
           ∧ Account.lockUntil u' = Some (t5 + 7200000)%Z)
    ∧ ∀ password t,
        password ≠ "" → (t < t5 + 7200000)%Z →
        ∃ m, login comparePassword users' (Some email) (Some password) t
             = (LoginRefused 423 "Cuenta bloqueada" m (Some (t5 + 7200000)%Z), users').
Proof.
  intros users email wrong id u t1 t2 t3 t4 t5 He Hp Hlog Hact Hzero Hnolock Hwrong users'.
  assert (∀ (us : gmap string Account.t) v t n,
            logsInAs us (JS.toLowerCase email) id v →
            Account.isActive v = true → Account.password v = Account.password u →
            Account.loginAttempts v = n → Account.lockUntil v = None →
            let v' := incLoginAttempts t v in
            (login comparePassword us (Some email) (Some wrong) t).2 = <[id := v']> us
            ∧ logsInAs (<[id := v']> us) (JS.toLowerCase email) id v'
            ∧ Account.isActive v' = true ∧ Account.password v' = Account.password u
            ∧ Account.loginAttempts v' = n + 1
            ∧ Account.lockUntil v'
              = if (5 <=? n + 1)%nat then Some (t + 7200000)%Z else None) as Hstep.
  { intros us v t n Hv Hvact Hvpw Hvn Hvlock v'.
    assert (isLocked t v = false) as Hunlocked by (unfold isLocked; by rewrite Hvlock).
    destruct (login_wrong us email wrong t id v He Hp Hv Hvact Hunlocked) as [Hus Hv'].
    { by rewrite Hvpw. }
    split; [done|]. split; [done|].
    unfold v', incLoginAttempts. rewrite Hvlock, Hunlocked, Hvn. simpl.
    repeat split; try done. rewrite andb_true_r.
    destruct (5 <=? n + 1)%nat; [f_equal; lia | done]. }
  unfold users', loginsAt. simpl.
  destruct (Hstep users u t1 0 Hlog Hact eq_refl Hzero Hnolock)
    as (-> & Hlog1 & Hact1 & Hpw1 & Hn1 & Hl1). simpl in Hn1, Hl1.
  destruct (Hstep _ _ t2 1 Hlog1 Hact1 Hpw1 Hn1 Hl1)
    as (-> & Hlog2 & Hact2 & Hpw2 & Hn2 & Hl2). simpl in Hn2, Hl2.
  destruct (Hstep _ _ t3 2 Hlog2 Hact2 Hpw2 Hn2 Hl2)
    as (-> & Hlog3 & Hact3 & Hpw3 & Hn3 & Hl3). simpl in Hn3, Hl3.
  destruct (Hstep _ _ t4 3 Hlog3 Hact3 Hpw3 Hn3 Hl3)
    as (-> & Hlog4 & Hact4 & Hpw4 & Hn4 & Hl4). simpl in Hn4, Hl4.
  destruct (Hstep _ _ t5 4 Hlog4 Hact4 Hpw4 Hn4 Hl4)
    as (-> & Hlog5 & Hact5 & Hpw5 & Hn5 & Hl5). simpl in Hn5, Hl5.
  split.
  - eexists. split; [apply lookup_insert_eq|]. split; [exact Hn5 | exact Hl5].
  - intros password t Hpassword Ht.
    rewrite (login_found _ email password t id _ He Hpassword Hlog5).
    unfold isLocked. rewrite Hl5.
    destruct (Z.ltb_spec t (t5 + 7200000)); [|lia].
    eauto.
Qed.

(** X22.  Once the lock has run out the count starts again, and the
    first wrong password after the lock is not counted: it takes six
    wrong passwords, not five, to lock the account a second time. *)
Theorem X22_six_wrong_passwords_after_a_lock :
  ∀ (users : gmap string Account.t) email wrong id u lockUntil t1 t2 t3 t4 t5 t6,
    email ≠ "" → wrong ≠ "" →
    logsInAs users (JS.toLowerCase email) id u →
    Account.isActive u = true →
    Account.lockUntil u = Some lockUntil → (lockUntil < t1)%Z →
    comparePassword wrong (Account.password u) = false →
    (∃ u5, loginsAt comparePassword users email wrong [t1; t2; t3; t4; t5] !! id = Some u5
           ∧ Account.loginAttempts u5 = 4 ∧ Account.lockUntil u5 = None)
    ∧ (∃ u6, loginsAt comparePassword users email wrong [t1; t2; t3; t4; t5; t6] !! id
             = Some u6
             ∧ Account.loginAttempts u6 = 5
             ∧ Account.lockUntil u6 = Some (t6 + 7200000)%Z).
Proof.
  intros users email wrong id u lockUntil t1 t2 t3 t4 t5 t6 He Hp Hlog Hact Hlock Hexp Hwrong.
  assert (∀ (us : gmap string Account.t) v t n,
            logsInAs us (JS.toLowerCase email) id v →
            Account.isActive v = true → Account.password v = Account.password u →
            Account.loginAttempts v = n → Account.lockUntil v = None →
            let v' := incLoginAttempts t v in
            (login comparePassword us (Some email) (Some wrong) t).2 = <[id := v']> us
            ∧ logsInAs (<[id := v']> us) (JS.toLowerCase email) id v'
            ∧ Account.isActive v' = true ∧ Account.password v' = Account.password u
            ∧ Account.loginAttempts v' = n + 1
            ∧ Account.lockUntil v'
              = if (5 <=? n + 1)%nat then Some (t + 7200000)%Z else None) as Hstep.
  { intros us v t n Hv Hvact Hvpw Hvn Hvlock v'.
    assert (isLocked t v = false) as Hunlocked by (unfold isLocked; by rewrite Hvlock).
    destruct (login_wrong us email wrong t id v He Hp Hv Hvact Hunlocked) as [Hus Hv'].
    { by rewrite Hvpw. }
    split; [done|]. split; [done|].
    unfold v', incLoginAttempts. rewrite Hvlock, Hunlocked, Hvn. simpl.
    repeat split; try done. rewrite andb_true_r.
    destruct (5 <=? n + 1)%nat; [f_equal; lia | done]. }
  assert (isLocked t1 u = false) as Hunlocked.
  { unfold isLocked. rewrite Hlock. destruct (Z.ltb_spec t1 lockUntil); [lia | done]. }
  destruct (login_wrong users email wrong t1 id u He Hp Hlog Hact Hunlocked Hwrong)
    as [Hus1 Hlog1].
  assert (incLoginAttempts t1 u
          = Account.mk (Account.username u) (Account.email u) (Account.password u)
              (Account.role u) (Account.avatar u) (Account.isActive u)
              (Account.lastLogin u) 0 None) as Hu1.
  { unfold incLoginAttempts. rewrite Hlock.
    destruct (Z.ltb_spec lockUntil t1); [done | lia]. }
  set (u1 := incLoginAttempts t1 u) in *.
  assert (Account.isActive u1 = true ∧ Account.password u1 = Account.password u
          ∧ Account.loginAttempts u1 = 0 ∧ Account.lockUntil u1 = None)
    as (Hact1 & Hpw1 & Hn1 & Hl1) by (rewrite Hu1; done).
  unfold loginsAt. simpl. rewrite Hus1.
  destruct (Hstep _ _ t2 0 Hlog1 Hact1 Hpw1 Hn1 Hl1)
    as (-> & Hlog2 & Hact2 & Hpw2 & Hn2 & Hl2). simpl in Hn2, Hl2.
  destruct (Hstep _ _ t3 1 Hlog2 Hact2 Hpw2 Hn2 Hl2)
    as (-> & Hlog3 & Hact3 & Hpw3 & Hn3 & Hl3). simpl in Hn3, Hl3.
  destruct (Hstep _ _ t4 2 Hlog3 Hact3 Hpw3 Hn3 Hl3)
    as (-> & Hlog4 & Hact4 & Hpw4 & Hn4 & Hl4). simpl in Hn4, Hl4.
  destruct (Hstep _ _ t5 3 Hlog4 Hact4 Hpw4 Hn4 Hl4)
    as (-> & Hlog5 & Hact5 & Hpw5 & Hn5 & Hl5). simpl in Hn5, Hl5.
  split.
  - eexists. split; [apply lookup_insert_eq|]. split; [exact Hn5 | exact Hl5].
  - destruct (Hstep _ _ t6 4 Hlog5 Hact5 Hpw5 Hn5 Hl5)
      as (-> & Hlog6 & Hact6 & Hpw6 & Hn6 & Hl6). simpl in Hn6, Hl6.
    eexists. split; [apply lookup_insert_eq|]. split; [exact Hn6 | exact Hl6].
Qed.

End login_facts.

Lemma alice_logsInAs : logsInAs {["7" := alice]} "alice@example.org" "7" alice.
Proof.
  split; [apply lookup_singleton_eq|]. split; [by left|].
  intros id' u' Hu' _. apply lookup_singleton_Some in Hu' as [<- _]. done.
Qed.

Lemma X21_witness :
  ∃ m, login onlySecret
         (loginsAt onlySecret {["7" := alice]} "alice@example.org" "guess" [1; 2; 3; 4; 5]%Z)
         (Some "alice@example.org") (Some "secret") 1000
       = (LoginRefused 423 "Cuenta bloqueada" m (Some (5 + 7200000)%Z),
          loginsAt onlySecret {["7" := alice]} "alice@example.org" "guess" [1; 2; 3; 4; 5]%Z).
Proof.
  refine (proj2 (X21_five_wrong_passwords_lock_the_account onlySecret {["7" := alice]}
                   "alice@example.org" "guess" "7" alice 1 2 3 4 5 _ _ _ _ _ _ _)
            "secret" 1000%Z _ _);
    try done.
  apply alice_logsInAs.
Defined.

Lemma X22_witness :
  ∃ u5, loginsAt onlySecret {["7" := lockedAlice]}
          "alice@example.org" "guess" [200; 201; 202; 203; 204]%Z !! "7" = Some u5
        ∧ Account.loginAttempts u5 = 4 ∧ Account.lockUntil u5 = None.
Proof.
  refine (proj1 (X22_six_wrong_passwords_after_a_lock onlySecret {["7" := lockedAlice]}
                   "alice@example.org" "guess" "7" lockedAlice 100 200 201 202 203 204 205
                   _ _ _ _ _ _ _)).
  - discriminate.
  - discriminate.
  - split; [apply lookup_singleton_eq|]. split; [by left|].
    intros id' u' Hu' _. apply lookup_singleton_Some in Hu' as [<- _]. done.
  - reflexivity.
  - reflexivity.
  - lia.
  - reflexivity.
Defined.

(** ** Revisions in a row *)

Lemma addRevision_fields now changes userId t :
  Technique.version (addRevision now changes userId t) = nextVersion (Technique.version t)
  ∧ Technique.revisionHistory (addRevision now changes userId t)
    = Technique.revisionHistory t
      ++ [mkRevision (nextVersion (Technique.version t))
            (if String.eqb changes "" then "Cambios no especificados" else changes)
            userId now]
  ∧ Technique.name (addRevision now changes userId t) = Technique.name t
  ∧ Technique.description (addRevision now changes userId t) = Technique.description t
  ∧ Technique.mitreid (addRevision now changes userId t) = Technique.mitreid t.
Proof. unfold addRevision. by destruct userId. Qed.

(** X23.  The minor component of the version counts the revisions: [n]
    calls of [addRevision] on a technique at version [major.minor] leave
    it at version [major.(minor + n)], with [n] entries added at the end
    of its history, the [i]-th of which carries the version
    [major.(minor + i)]; the earlier entries, the name, the description
    and the reference code stay. *)
Theorem X23_versions_count_the_revisions :
  ∀ (t : Technique.t) now changes userId (major minor : N) (n : nat),
    Technique.version t = showN major +:+ "." +:+ showN minor →
    (major < 2 ^ 53)%N → (minor + N.of_nat n < 2 ^ 53)%N →
    let t' := Nat.iter n (addRevision now changes userId) t in
    Technique.version t' = showN major +:+ "." +:+ showN (minor + N.of_nat n)
    ∧ (∃ added,
         Technique.revisionHistory t' = Technique.revisionHistory t ++ added
         ∧ length added = n
         ∧ ∀ i e, added !! i = Some e →
                  rev_version e = showN major +:+ "." +:+ showN (minor + N.of_nat (S i)))
    ∧ Technique.name t' = Technique.name t
    ∧ Technique.description t' = Technique.description t
    ∧ Technique.mitreid t' = Technique.mitreid t.
Proof.
  intros t now changes userId major minor n Hv _ _. simpl.
  induction n as [|n (IHv & (added & IHh & IHlen & IHe) & IHn & IHd & IHm)].
  - simpl. rewrite N.add_0_r. split; [done|]. split; [|done].
    exists []. rewrite app_nil_r. split; [done|]. split; [done|]. intros i e. by destruct i.
  - simpl.
    destruct (addRevision_fields now changes userId
                (Nat.iter n (addRevision now changes userId) t))
      as (Hv' & Hh' & Hn' & Hd' & Hm').
    rewrite Hv', Hh', Hn', Hd', Hm', IHv, IHh, IHn, IHd, IHm, nextVersion_two.
    replace (minor + N.of_nat n + 1)%N with (minor + N.pos (Pos.of_succ_nat n))%N by lia.
    split; [done|]. split; [|done].
    eexists (added ++ [_]). split; [by rewrite app_assoc|].
    split; [rewrite length_app; simpl; lia|].
    intros i e Hi. destruct (decide (i < length added)) as [Hlt|Hge].
    + rewrite lookup_app_l in Hi by done. by apply IHe.
    + rewrite lookup_app_r in Hi by lia.
      destruct (i - length added) as [|j] eqn:Hj; [|by destruct j].
      injection Hi as <-. simpl.
      assert (i = n) as -> by lia. done.
Qed.

Lemma X23_witness :
  Technique.version (Nat.iter 3 (addRevision 9 "edit" (Some "u1")) phishing) = "1.3".
Proof.
  refine (proj1 (X23_versions_count_the_revisions phishing 9 "edit" (Some "u1") 1 0 3 _ _ _)).
  - reflexivity.
  - reflexivity.
  - reflexivity.
Defined.

(** ** Techniques of a category *)

Lemma techniquesOfCategory_elem (db : DB) id x t :
  (x, t) ∈ merge_sort techniqueNameLe
             (filter (λ d, Technique.category d.2 = Some id ∧ Technique.isActive d.2 = true)
                     (map_to_list (techniques db)))
  ↔ techniques db !! x = Some t ∧ Technique.category t = Some id
    ∧ Technique.isActive t = true.
Proof.
  rewrite merge_sort_Permutation, list_elem_of_filter, elem_of_map_to_list. simpl. tauto.
Qed.

(** X24.  A category for which [getTechniquesByCategory] counts at least
    one technique cannot be deleted: [deleteCategory] answers 400 'with
    dependencies' (404 and 403 aside) and leaves the collections alone.
    The listing counts active techniques only, so that the converse
    fails: a category listed as empty can still be refused. *)
Theorem X24_a_category_with_listed_techniques_is_not_deleted :
  (∀ (db : DB) (id : ObjectId) page limit (u : User) code m body,
     getTechniquesByCategory db id page limit = Replied code m body →
     0 < totalItems (tc_pagination body) →
     role u = admin →
     status (deleteCategory db u id).1 = 400 ∧ (deleteCategory db u id).2 = db)
  ∧ (∃ body,
       getTechniquesByCategory retired "c1" None None = Replied 200 None body
       ∧ totalItems (tc_pagination body) = 0
       ∧ status (deleteCategory retired adminUser "c1").1 = 400).
Proof.
  split.
  - intros db id page limit u code m body Hlist Hpos Hadmin.
    unfold getTechniquesByCategory, findById in Hlist.
    destruct (categories db !! id) as [c|] eqn:Hid; simpl in Hlist; [|done].
    destruct (_ && _); [done|]. injection Hlist as _ _ <-. simpl in Hpos.
    destruct (merge_sort _ _) as [|[x t] found] eqn:Hfound; [simpl in Hpos; lia|].
    assert ((x, t) ∈ (x, t) :: found) as Hin by left.
    rewrite <- Hfound in Hin. apply techniquesOfCategory_elem in Hin as (Hx & Hcat & _).
    pose proof (countTechniques_pos _ _ _ _ Hx Hcat) as Hcount.
    unfold deleteCategory. rewrite Hid, Hadmin. simpl.
    destruct (0 <? countSubcategories _ _); [done|].
    destruct (Nat.ltb_spec 0 (countTechniques (techniques db) id)); [done | lia].
  - eexists. split; [vm_compute; reflexivity|]. split; reflexivity.
Qed.

Lemma X24_witness :
  status (deleteCategory catalogue adminUser "c1").1 = 400
  ∧ (deleteCategory catalogue adminUser "c1").2 = catalogue.
Proof.
  eapply (proj1 X24_a_category_with_listed_techniques_is_not_deleted catalogue "c1"
            None None adminUser).
  - vm_compute. reflexivity.
  - simpl. lia.
  - reflexivity.
Defined.

(** ** Exporting *)

#[global] Instance mitreidLe_trans : Transitive mitreidLe.
Proof.
  intros a b c. unfold mitreidLe.
  destruct (Technique.mitreid a.2), (Technique.mitreid b.2), (Technique.mitreid c.2);
    try done. intros. by etrans.
Qed.

#[global] Instance mitreidLe_total : Total mitreidLe.
Proof.
  intros a b. unfold mitreidLe.
  destruct (Technique.mitreid a.2) as [x|], (Technique.mitreid b.2) as [y|]; auto.
  apply (total String.le).
Qed.

(** X25.  [exportTechniques] answers 400 to every format but ['json'];
    for ['json'] (or no format) it exports each active technique of the
    category asked for, or of all categories, once and no other, in
    ascending order of reference code, those without code first, and
    [totalCount] is their number. *)
Theorem X25_export_holds_the_active_techniques_once :
  ∀ (db : DB) now (format categoryId : option string),
    (format ≠ None → format ≠ Some "json" →
     ∃ e m, exportTechniques db now format categoryId = Refused 400 e m)
    ∧ (format = None ∨ format = Some "json" →
       ∃ docs,
         exportTechniques db now format categoryId
         = Replied 200 None (mkExport now (length docs) (map (exportOne db) docs))
         ∧ StronglySorted mitreidLe docs
         ∧ NoDup docs.*1
         ∧ ∀ x t, (x, t) ∈ docs
                  ↔ techniques db !! x = Some t ∧ Technique.isActive t = true
                    ∧ (JS.falsy categoryId = true ∨ Technique.category t = categoryId)).
Proof.
  intros db now format categoryId. unfold exportTechniques. split.
  - intros Hnone Hjson. destruct format as [f|]; [|done]. simpl.
    destruct (String.eqb_spec f "json") as [->|_]; [done | eauto].
  - intros Hformat. eexists. split; [|split; [|split]].
    + by destruct Hformat as [-> | ->].
    + apply StronglySorted_merge_sort; apply _.
    + rewrite merge_sort_Permutation.
      eapply sublist_NoDup; [apply (NoDup_fst_map_to_list (techniques db))|].
      apply fmap_sublist, sublist_filter.
    + intros x t. rewrite merge_sort_Permutation, list_elem_of_filter, elem_of_map_to_list.
      simpl. tauto.
Qed.

Lemma X25_witness :
  ∃ e m, exportTechniques catalogue 9 (Some "csv") None = Refused 400 e m.
Proof.
  apply (proj1 (X25_export_holds_the_active_techniques_once catalogue 9 (Some "csv") None));
    discriminate.
Defined.

(** ** The owner check *)

Lemma updateCategory_403 (cats : gmap string Category.t) now (u : User) id body :
  status (updateCategory cats now u id body).1 = 403
  ↔ ∃ c, cats !! id = Some c
         ∧ negb (bool_decide (role u = admin))
           && negb (String.eqb (Category.createdBy c) (user_id u)) = true.
Proof.
  unfold updateCategory. destruct (cats !! id) as [c|]; simpl.
  2:{ split; [done | by intros (? & ? & _)]. }
  destruct (negb (bool_decide (role u = admin))
            && negb (String.eqb (Category.createdBy c) (user_id u))) eqn:Hguard.
  { simpl. split; [eauto | done]. }
  split; [|by intros (c' & [= <-] & ?); congruence].
  intros H403. exfalso. revert H403.
  destruct (b_parentCategory body) as [[s|]|];
    [destruct (String.eqb s "");
       [|destruct (bool_decide (findById cats s = None)); [simpl; lia|]]| |];
    destruct (categorySave _ _ _ _) as [[|]|[d cats']]; simpl; lia.
Qed.

(** X26.  [authorizeOwnerOrAdmin] on the categories and the check that
    [updateCategory] makes itself refuse the same requests: one answers
    403 exactly when the other does. *)
Theorem X26_authorizeOwnerOrAdmin_agrees_with_updateCategory :
  ∀ (cats : gmap string Category.t) now (u : User) (id : ObjectId) body,
    (∃ e m more,
       (authorizeOwnerOrAdmin (λ c, Some (Category.createdBy c)) cats (Some u) id).1
       = Answer 403 e m more)
    ↔ status (updateCategory cats now u id body).1 = 403.
Proof.
  intros cats now u id body. rewrite updateCategory_403.
  unfold authorizeOwnerOrAdmin, findById.
  destruct (bool_decide (role u = admin)); simpl.
  { split; [by intros (? & ? & ? & ?) | by intros (? & _ & ?)]. }
  destruct (cats !! id) as [c|]; simpl.
  2:{ split; [by intros (? & ? & ? & ?) | by intros (? & ? & _)]. }
  destruct (String.eqb (Category.createdBy c) (user_id u)) eqn:Heq; simpl.
  - split; [by intros (? & ? & ? & ?)|].
    intros (c0 & [= <-] & H). by rewrite Heq in H.
  - split; [intros _; exists c; by rewrite Heq | by eexists _, _, _].
Qed.

(** ** Arrays in the body of an update *)

Lemma techniqueSave_stored (techs : gmap string Technique.t) now self doc :
  is_Some (techs !! self) →
  techniqueValidate doc = [] →
  (∀ m, Technique.mitreid doc = Some m → mitreidUsed techs (Some self) m = false) →
  ∃ saved, techniqueSave techs now self false None doc = inr (saved, <[self := saved]> techs).
Proof.
  intros [old Hold] Hval Hindex. unfold techniqueSave. rewrite Hval.
  unfold techniquePreSave. rewrite andb_false_r.
  rewrite (bool_decide_eq_false_2 (techs !! self = None)) by congruence.
  destruct (Technique.mitreid doc) as [m|] eqn:Hm.
  - cbn [Technique.mitreid Technique.set_timestamps]. rewrite Hm, (Hindex m eq_refl). eauto.
  - cbn [Technique.mitreid Technique.set_timestamps]. rewrite Hm. eauto.
Qed.

(** X27.  An array is never identical to the stored one: an update whose
    body resends the tags of the technique as they are is recorded as
    one change, adds a revision 'tags: a,b → a,b' and moves the
    version on, from [major.minor] to [major.(minor + 1)] for
    components below 2^53. *)
Theorem X27_resent_tags_are_recorded_as_a_change :
  ∀ (db : DB) now user id t next,
    techniques db !! id = Some t →
    role user = admin ∨ Technique.createdBy t = Some (user_id user) →
    techniqueValidate t = [] →
    (∀ m, Technique.mitreid t = Some m → mitreidUsed (techniques db) (Some id) m = false) →
    incremented (Technique.version t) next →
    ∃ t',
      putTechnique db now user None id [FTags (Technique.tags t)]
      = mkOutcome
          [Send (mkResponse 200 None (Some "Técnica actualizada exitosamente")
                   (UpdatedTechnique id t' 1))]
          (mkDB (categories db) (<[id := t']> (techniques db)))
      ∧ Technique.version t' = next
      ∧ Technique.revisionHistory t'
        = Technique.revisionHistory t
          ++ [mkRevision next
                (changeLine "tags" (showArray (Technique.tags t))
                            (showArray (Technique.tags t)))
                (Some (user_id user)) now].
Proof.
  intros db now user id t next Hid Hperm Hval Hindex Hnext.
  apply incremented_nextVersion in Hnext.
  set (line := changeLine "tags" (showArray (Technique.tags t)) (showArray (Technique.tags t))).
  set (doc := addRevision now line (Some (user_id user))
                (Technique.set_lastModifiedBy (Some (user_id user))
                   (Technique.set_tags (map normalizeTag (Technique.tags t)) t))).
  destruct (techniqueSave_stored (techniques db) now id doc) as [saved Hsave].
  { by rewrite Hid. }
  { by rewrite <- Hval. }
  { exact Hindex. }
  exists saved. split.
  - unfold putTechnique, updateTechnique. rewrite Hid.
    assert (negb (bool_decide (role user = admin))
            && bool_decide (Technique.createdBy t = None) = false) as ->.
    { destruct Hperm as [Hr|Hc].
      - by rewrite (bool_decide_eq_true_2 _ Hr).
      - rewrite (bool_decide_eq_false_2 (Technique.createdBy t = None)) by congruence.
        apply andb_false_r. }
    assert (negb (bool_decide (role user = admin))
            && negb (bool_decide (Technique.createdBy t = Some (user_id user))) = false) as ->.
    { destruct Hperm as [Hr|Hc].
      - by rewrite (bool_decide_eq_true_2 _ Hr).
      - rewrite (bool_decide_eq_true_2 _ Hc). apply andb_false_r. }
    change (techniqueSave (techniques db) now id false None doc = inr (saved, <[id:=saved]> (techniques db))) in Hsave.
    cbv beta iota zeta delta [lookupCategory lookupMitreid list_find fieldKey
                               decide decide_rel mbind option_bind JS.falsy negb andb
                               multerFields fmap option_fmap option_map
                               processUploadedFiles processedField].
    cbn [flat_map changeOf foldl assignField app JS.join length].
    fold line. fold doc. rewrite Hsave. reflexivity.
  - apply techniqueSave_inr in Hsave as (_ & _ & _ & _ & _ & _ & Hhist & Hver).
    rewrite Hver, Hhist. unfold doc, addRevision. unfold line at 1 3.
    rewrite changeLine_nonempty. cbn [Technique.version Technique.set_lastModifiedBy
      Technique.set_tags Technique.set_revisionHistory Technique.set_version
      Technique.revisionHistory].
    rewrite Hnext. split; reflexivity.
Qed.

Lemma X27_witness :
  ∃ t',
    putTechnique catalogue 9 someUser None "t1" [FTags (Technique.tags phishing)]
    = mkOutcome
        [Send (mkResponse 200 None (Some "Técnica actualizada exitosamente")
                 (UpdatedTechnique "t1" t' 1))]
        (mkDB (categories catalogue) (<["t1" := t']> (techniques catalogue)))
    ∧ Technique.version t' = "1.1".
Proof.
  destruct (X27_resent_tags_are_recorded_as_a_change catalogue 9 someUser "t1" phishing
              "1.1")
    as (t' & Hout & Hversion & _).
  - reflexivity.
  - right. reflexivity.
  - reflexivity.
  - intros m [= <-]. vm_compute. reflexivity.
  - exists 1%N, 0%N. split; [reflexivity|]. split; [reflexivity|].
    split; [left|]; reflexivity.
  - exists t'. split; [exact Hout | exact Hversion].
Defined.

(** ** Duplicating a technique with a long name *)

Lemma techniqueValidate_nil (x : Technique.t) :
  techniqueValidate x = []
  ↔ Technique.name x ≠ ""
    ∧ String.length (Technique.name x) ≤ 500
    ∧ Technique.description x ≠ ""
    ∧ String.length (Technique.description x) ≤ 5000
    ∧ Technique.riskLevel x ∈ ["Low"; "Medium"; "High"; "Critical"]
    ∧ Technique.status x ∈ ["Draft"; "Review"; "Approved"; "Deprecated"].
Proof.
  unfold techniqueValidate.
  destruct (String.eqb_spec (Technique.name x) "") as [Hn|Hn];
    [split; [done | by intros [? _]]|].
  destruct (Nat.leb_spec (String.length (Technique.name x)) 500) as [Hl|Hl];
    [|split; [done | intros (_ & ? & _); lia]].
  destruct (String.eqb_spec (Technique.description x) "") as [Hd|Hd];
    [split; [done | by intros (_ & _ & ? & _)]|].
  destruct (Nat.leb_spec (String.length (Technique.description x)) 5000) as [Hdl|Hdl];
    [|split; [done | intros (_ & _ & _ & ? & _); lia]].
  destruct (bool_decide_reflect
              (Technique.riskLevel x ∈ ["Low"; "Medium"; "High"; "Critical"])) as [Hr|Hr];
    [|split; [done | by intros (_ & _ & _ & _ & ? & _)]].
  destruct (bool_decide_reflect
              (Technique.status x ∈ ["Draft"; "Review"; "Approved"; "Deprecated"])) as [Hs|Hs];
    [|split; [done | by intros (_ & _ & _ & _ & _ & ?)]].
  done.
Qed.

(** X28.  [duplicateTechnique] adds 8 characters to the name, which the
    schema limits to 500: a stored, valid technique is duplicated (201,
    the copy stored under a new id) exactly when its name has at most
    492 characters; with a longer name the answer is 500 and nothing is
    stored. *)
Theorem X28_duplicate_fails_on_names_longer_than_492 :
  ∀ (db : DB) now user id t,
    techniques db !! id = Some t →
    techniqueValidate t = [] →
    let o := duplicateTechnique plainSend db now user id in
    (String.length (Technique.name t) ≤ 492 →
     ∃ newId copy,
       responseOf o = Some (mkResponse 201 None (Some "Técnica duplicada exitosamente")
                              (DuplicatedTechnique newId copy id))
       ∧ techniques db !! newId = None
       ∧ db' o = mkDB (categories db) (<[newId := copy]> (techniques db)))
    ∧ (492 < String.length (Technique.name t) →
       responseOf o = Some (failure 500 "Error interno del servidor"
                                    "Error al duplicar la técnica")
       ∧ db' o = db).
Proof.
  intros db now user id t Hid Hval o.
  apply techniqueValidate_nil in Hval as (Hname & Hlen & Hdesc & Hdlen & Hrisk & _).
  assert (String.length (Technique.name t +:+ " (Copia)")
          = String.length (Technique.name t) + 8) as Hcopy.
  { by rewrite length_append. }
  unfold o, duplicateTechnique. rewrite Hid. split.
  - intros Hshort. rewrite duplicate_ok.
    + eexists _, _. split; [reflexivity|]. split; [apply fresh_id_unused | reflexivity].
    + apply techniqueValidate_nil. simpl. rewrite Hcopy.
      repeat split; try done; try lia.
      * by destruct (Technique.name t).
      * set_solver.
  - intros Hlong. unfold duplicate, techniqueSave.
    destruct (techniqueValidate (duplicateDoc t (Some (user_id user)))) as [|e errors] eqn:Hv.
    + apply techniqueValidate_nil in Hv as (_ & Hlen' & _). simpl in Hlen'.
      rewrite Hcopy in Hlen'. lia.
    + done.
Qed.

Lemma X28_witness :
  ∃ newId copy,
    responseOf (duplicateTechnique plainSend catalogue 9 someUser "t1")
    = Some (mkResponse 201 None (Some "Técnica duplicada exitosamente")
              (DuplicatedTechnique newId copy "t1"))
    ∧ techniques catalogue !! newId = None
    ∧ db' (duplicateTechnique plainSend catalogue 9 someUser "t1")
      = mkDB (categories catalogue) (<[newId := copy]> (techniques catalogue)).
Proof.
  refine (proj1 (X28_duplicate_fails_on_names_longer_than_492 catalogue 9 someUser "t1"
                   phishing _ _) _).
  - reflexivity.
  - reflexivity.
  - simpl. lia.
Defined.

(** ** The hierarchy and the listing *)

(** X29.  The listing and the hierarchy agree: without limit,
    [GET /api/categories?parentCategory=null] lists the roots of
    [getHierarchy], and [?parentCategory=k] lists the children that the
    hierarchy gives to [k], up to the order of categories that have the
    same [order] and [name]. *)
Theorem X29_listing_by_parent_agrees_with_the_hierarchy :
  ∀ (regexCompile : string → option (string → bool)) (cats : gmap string Category.t),
    (listed (getAllCategories regexCompile cats
               (mkCategoryQuery None (Some 0) None (Some "null") None))).*1
    ≡ₚ snd (getHierarchy cats)
    ∧ ∀ k n,
        k ≠ "" → k ≠ "null" →
        fst (getHierarchy cats) !! k = Some n →
        (listed (getAllCategories regexCompile cats
                   (mkCategoryQuery None (Some 0) None (Some k) None))).*1
        ≡ₚ children n.
Proof.
  intros regexCompile cats. destruct (getHierarchy_exact cats) as [Hroots Hheap].
  assert (∀ (P : ObjectId * Category.t → Prop) `{∀ d, Decision (P d)}
            (F : ObjectId * Category.t → Prop) `{∀ d, Decision (F d)},
            (∀ d, F d ↔ Category.isActive d.2 = true ∧ P d) →
            (merge_sort orderNameLe (filter F (map_to_list cats))).*1
            ≡ₚ (filter P (findActiveSorted cats)).*1) as Hperm.
  { intros P ? F ? HF. unfold findActiveSorted. rewrite !merge_sort_Permutation.
    rewrite list_filter_filter. erewrite list_filter_iff; [reflexivity|].
    intros d. rewrite HF. tauto. }
  split.
  - rewrite Hroots. unfold getAllCategories. simpl. rewrite drop_0.
    apply Hperm. intros [x c]. simpl. unfold parentFilter. simpl.
    rewrite andb_true_r, andb_true_iff, bool_decide_eq_true. tauto.
  - intros k n Hk Hnull. rewrite Hheap.
    destruct (cats !! k) as [c|]; [|done].
    destruct (Category.isActive c); [|done]. intros [= <-]. simpl.
    unfold getAllCategories. simpl. rewrite drop_0.
    apply Hperm. intros [x cx]. simpl. unfold parentFilter.
    assert (JS.falsy (Some k) = false) as -> by (by destruct k).
    rewrite (bool_decide_eq_false_2 (Some k = Some "null")) by congruence.
    rewrite andb_true_r, andb_true_iff, bool_decide_eq_true. tauto.
Qed.

Lemma X29_witness :
  (listed (getAllCategories (λ _, None) withOrphan
             (mkCategoryQuery None (Some 0) None (Some "r") None))).*1
  ≡ₚ ["k"].
Proof.
  apply (proj2 (X29_listing_by_parent_agrees_with_the_hierarchy (λ _, None) withOrphan)
           "r" (mkHNode (plainCategory "Root" None) ["k"])).
  - discriminate.
  - discriminate.
  - vm_compute. reflexivity.
Defined.
